(** * SurgScanVR inference backend: shallow embedding and verified properties

    The development follows the Python package [inference_app]:

    - [network.py]  ([UnityClient.send]): length-prefixed TCP delivery;
    - [volume.py]   ([VolumeCalculator.calculate]): liver and tumor volumes;
    - [cache.py]    ([PredictionCache]): content-addressed result cache;
    - [engine.py]   ([MeshGenerator.generate]): per-label mesh extraction;
    - [app.py]      (the naming of the prediction file in
                     [InferenceApp._run_full_prediction]).

    Python code that raises is embedded in an exception monad over an
    explicit world (socket, file system, heap of dict objects, log trace).
    Third-party library calls ([json.dumps], [hashlib.md5], marching cubes,
    [datetime.now]) are interfaces whose implementation is a parameter.
    Label volumes are 3-dimensional arrays of integer labels.  The volume
    computation is given twice: [VolumeCalculatorF] leaves every arithmetic
    operation to the interpreter (class [Scalars]), and [VolumeCalculator]
    is that computation at exact rational arithmetic ([Qc]), used where a
    statement is about concrete values or about voxel counts only. *)

From Stdlib Require Import Strings.Byte Strings.Ascii QArith Qcanon Qround.
From stdpp Require Import base option list gmap strings fin_maps numbers pretty relations sorting.

Local Open Scope Z_scope.

(* ===================================================================== *)
(** * Part I: the embedding                                               *)
(* ===================================================================== *)

(** ** Python exceptions and results *)

(** The subclasses of [Exception] that the modelled code can meet.  Only
    [ConnectionRefusedError] is told apart by a handler of the package. *)
Inductive exn : Type :=
| ConnectionRefusedError
| OSError (msg : string)
| FileNotFoundError (path : string)
| StructError (msg : string)
| ValueError (msg : string)
| TypeError (msg : string)
| OverflowError (msg : string)
| RuntimeError (msg : string).

(** [str(e)], as interpolated into log lines. *)
Definition exn_str (e : exn) : string :=
  match e with
  | ConnectionRefusedError => "[Errno 111] Connection refused"
  | FileNotFoundError p => "[Errno 2] No such file or directory: '" +:+ p +:+ "'"
  | OSError m | StructError m | ValueError m | TypeError m
  | OverflowError m | RuntimeError m => m
  end.

Inductive result (A : Type) : Type :=
| Ok (a : A)
| Raise (e : exn).
Arguments Ok {A} a.
Arguments Raise {A} e.

(** ** Bytes and [struct.pack('!I', n)] *)

Definition byte_of_Z (z : Z) : byte :=
  default x00 (Byte.of_N (Z.to_N (z `mod` 256))).

Definition Z_of_byte (b : byte) : Z := Z.of_N (Byte.to_N b).

(** Four bytes, most significant first (network byte order). *)
Definition be32 (n : Z) : list byte :=
  [ byte_of_Z (Z.shiftr n 24); byte_of_Z (Z.shiftr n 16);
    byte_of_Z (Z.shiftr n 8);  byte_of_Z n ].

(** The reader's side of [be32]. *)
Definition be32_decode (bs : list byte) : option Z :=
  match bs with
  | [b3; b2; b1; b0] =>
      Some (Z.lor (Z.shiftl (Z_of_byte b3) 24)
           (Z.lor (Z.shiftl (Z_of_byte b2) 16)
           (Z.lor (Z.shiftl (Z_of_byte b1) 8) (Z_of_byte b0))))
  | _ => None
  end.

Module struct.
(** [struct.pack('!I', n)]: an unsigned 32-bit field; anything outside
    [0, 2^32) raises [struct.error]. *)
Definition pack_I (n : Z) : result (list byte) :=
  if decide (0 ≤ n < 2 ^ 32) then Ok (be32 n)
  else if decide (n < 0) then Raise (StructError "argument out of range")
  else Raise (StructError "'I' format requires 0 <= number <= 4294967295").
End struct.

(** ** The world the package runs in *)

(** One entry per fallible I/O call that the environment decides (socket
    connect, sendall and close; opening a file for writing), consumed in
    order; a call beyond the end of the script succeeds.  A failing
    [sendall] may have transmitted a prefix of its argument. *)
Inductive io_outcome : Type :=
| IoDone
| IoFails (e : exn) (partial : nat).

(** [log_callback(msg, tag)] either returns or raises. *)
Definition callback : Type := string → string → option exn.

(** The values stored in a cache entry: [None], integers, strings, and
    lists of [(organ_label, obj_path)] pairs. *)
Inductive pyval : Type :=
| PyNone
| PyInt (z : Z)
| PyStr (s : string)
| PyPairs (l : list (Z * string)).

(** A [dict] object with string keys; dict objects live in the heap and are
    passed around by reference. *)
Definition loc : Type := nat.
Abbreviation pydict := (gmap string pyval).

Record world : Type := World {
  script : list io_outcome;          (* what the environment will do *)
  wire   : list byte;                (* bytes handed to the peer so far *)
  files  : gmap string (list byte);  (* path ↦ contents *)
  trace  : list (string * string);   (* (msg, tag) calls made to the callback *)
  heap   : gmap loc pydict;          (* the dict objects *)
  clock  : list string;              (* upcoming [datetime.now().isoformat()] *)
  index  : gmap string loc;          (* [self.cache_data] of the cache object *)
}.

Definition with_script (s : list io_outcome) (w : world) : world :=
  World s (wire w) (files w) (trace w) (heap w) (clock w) (index w).
Definition with_wire (bs : list byte) (w : world) : world :=
  World (script w) bs (files w) (trace w) (heap w) (clock w) (index w).
Definition with_files (fs : gmap string (list byte)) (w : world) : world :=
  World (script w) (wire w) fs (trace w) (heap w) (clock w) (index w).
Definition with_trace (t : list (string * string)) (w : world) : world :=
  World (script w) (wire w) (files w) t (heap w) (clock w) (index w).
Definition with_heap (h : gmap loc pydict) (w : world) : world :=
  World (script w) (wire w) (files w) (trace w) h (clock w) (index w).
Definition with_clock (c : list string) (w : world) : world :=
  World (script w) (wire w) (files w) (trace w) (heap w) c (index w).
Definition with_index (ix : gmap string loc) (w : world) : world :=
  World (script w) (wire w) (files w) (trace w) (heap w) (clock w) ix.

Definition M (A : Type) : Type := world → result A * world.

Definition ret {A} (a : A) : M A := λ w, (Ok a, w).
Definition raise {A} (e : exn) : M A := λ w, (Raise e, w).
Definition bind {A B} (m : M A) (k : A → M B) : M B :=
  λ w, match m w with
       | (Ok a, w') => k a w'
       | (Raise e, w') => (Raise e, w')
       end.
Definition lift {A} (r : result A) : M A := λ w, (r, w).

(** How [body] ended, as a value: the outcome of the statements of a
    [try] block before any handler runs. *)
Definition attempt {A} (body : M A) : M (result A) :=
  λ w, match body w with
       | (r, w') => (Ok r, w')
       end.

(** [try: body except Exception as e: handler e] *)
Definition try_except {A} (body : M A) (handler : exn → M A) : M A :=
  λ w, match body w with
       | (Ok a, w') => (Ok a, w')
       | (Raise e, w') => handler e w'
       end.

(** stdpp's monad notations [x ← m; k] and [m ;; k] at type [M]. *)
#[export] Instance M_ret : MRet M := @ret.
#[export] Instance M_bind : MBind M := λ A B k m, bind m k.

(** [for x in xs: body x] *)
Fixpoint for_each {A} (xs : list A) (body : A → M unit) : M unit :=
  match xs with
  | [] => ret tt
  | x :: xs' => (body x ;; for_each xs' body)
  end.

Definition next_outcome : M io_outcome :=
  λ w, match script w with
       | [] => (Ok IoDone, w)
       | o :: s => (Ok o, with_script s w)
       end.

Definition transmit (bs : list byte) : M unit :=
  λ w, (Ok tt, with_wire (wire w ++ bs) w).

(** [open(path, 'rb').read()] *)
Definition read_file (path : string) : M (list byte) :=
  λ w, match files w !! path with
       | Some bs => (Ok bs, w)
       | None => (Raise (FileNotFoundError path), w)
       end.

(** The nested helper [log] of [send] and [generate]:
    [if log_callback: log_callback(msg, tag)]. *)
Definition log (log_callback : option callback) (msg tag : string) : M unit :=
  match log_callback with
  | None => ret tt
  | Some cb =>
      λ w, let w' := with_trace (trace w ++ [(msg, tag)]) w in
           match cb msg tag with
           | None => (Ok tt, w')
           | Some e => (Raise e, w')
           end
  end.

(** ** [network.py] *)

Module socket.
(** [sock.settimeout(t)] rejects a negative timeout. *)
Definition settimeout (t : Z) : M unit :=
  if decide (t < 0) then raise (ValueError "Timeout value out of range")
  else ret tt.

(** [sock.connect((host, port))] *)
Definition connect (host : string) (port : Z) : M unit :=
  if decide (0 ≤ port ≤ 65535) then
    o ← next_outcome;
    match o with
    | IoDone => ret tt
    | IoFails e _ => raise e
    end
  else raise (OverflowError "connect(): port must be 0-65535.").

(** [sock.sendall(data)] *)
Definition sendall (data : list byte) : M unit :=
  o ← next_outcome;
  match o with
  | IoDone => transmit data
  | IoFails e k => (transmit (take k data) ;; raise e)
  end.

(** [sock.close()] *)
Definition close : M unit :=
  o ← next_outcome;
  match o with
  | IoDone => ret tt
  | IoFails e _ => raise e
  end.
End socket.

(** [json.dumps(obj, ensure_ascii=False).encode('utf-8')]: the encoder is
    the standard library's; it raises on objects it cannot serialise. *)
Class JsonEncoder (P : Type) : Type :=
  json_dumps_utf8 : P → result (list byte).

Module UnityClient.
Record t : Type := Build { host : string; port : Z; timeout : Z }.

(** [config.DEFAULT_UNITY_HOST], [config.DEFAULT_UNITY_PORT]. *)
Definition DEFAULT_UNITY_HOST : string := "127.0.0.1".
Definition DEFAULT_UNITY_PORT : Z := 5555.

Definition __init__ : t := Build DEFAULT_UNITY_HOST DEFAULT_UNITY_PORT 10.

Definition len {A} (l : list A) : Z := Z.of_nat (length l).

(** One iteration of [for organ_label, obj_path in obj_files].  The pacing
    [time.sleep(0.1)] has no effect on the bytes sent. *)
Definition send_mesh (item : Z * string) : M unit :=
  let '(organ_label, obj_path) := item in
  hdr ← lift (struct.pack_I organ_label);
  socket.sendall hdr ;;
  data ← read_file obj_path;
  sz ← lift (struct.pack_I (len data));
  socket.sendall sz ;;
  socket.sendall data.

(** The [try] block of [send].  Creating the socket object is taken to
    succeed; every later call may raise. *)
Definition send_body `{JsonEncoder P} (self : t) (obj_files : list (Z * string))
    (patient_data : P) (log_callback : option callback) : M bool :=
  socket.settimeout (timeout self) ;;
  socket.connect (host self) (port self) ;;
  log log_callback "   ✓ Connection established!" "success" ;;
  log log_callback "   📋 Sending patient information..." "warning" ;;
  json_bytes ← lift (json_dumps_utf8 patient_data);
  hdr ← lift (struct.pack_I (len json_bytes));
  socket.sendall hdr ;;
  socket.sendall json_bytes ;;
  log log_callback "   ✓ Patient information sent" "success" ;;
  log log_callback
    ("   🎮 Sending " +:+ pretty (length obj_files) +:+ " 3D meshes...") "warning" ;;
  cnt ← lift (struct.pack_I (len obj_files));
  socket.sendall cnt ;;
  for_each obj_files send_mesh ;;
  socket.close ;;
  ret true.

Definition refused_msg : string := "❌ VR headset connection refused!".
Definition error_msg (e : exn) : string :=
  "❌ VR headset connection error: " +:+ exn_str e.

Definition send_handler (log_callback : option callback) (e : exn) : M bool :=
  match e with
  | ConnectionRefusedError =>
      log log_callback refused_msg "error" ;;
      log log_callback "   Make sure Unity is running." "warning" ;;
      ret false
  | _ =>
      log log_callback (error_msg e) "error" ;;
      ret false
  end.

Definition send `{JsonEncoder P} (self : t) (obj_files : list (Z * string))
    (patient_data : P) (log_callback : option callback) : M bool :=
  try_except (send_body self obj_files patient_data log_callback)
             (send_handler log_callback).
End UnityClient.


(** ** Numbers *)

(** Python's and numpy's [float] are idealised as exact rationals.
    [round(x, 2)] rounds to the nearest hundredth, ties to the even one. *)
Definition round_half_even (x : Qc) : Z :=
  let f := Qfloor x in
  let r := (x - Qc_of_Z f)%Qc in
  if decide (r < 1 / 2)%Qc then f
  else if decide (1 / 2 < r)%Qc then f + 1
  else if Z.even f then f else f + 1.

Definition hundred : Qc := Qc_of_Z 100.

Definition round2 (x : Qc) : Qc := (Qc_of_Z (round_half_even (x * hundred)) / hundred)%Qc.

(** ** Label volumes ([nibabel] images) *)

Definition voxel : Type := nat * nat * nat.

(** What [volume.py] and [engine.py] read from a loaded image:
    [nii.get_fdata()] (a 3-D array of labels, given by its shape and its
    entries) and [nii.header.get_zooms()[:3]] (the spacing in mm). *)
Record nifti : Type := Nifti {
  shape : nat * nat * nat;
  get_fdata : voxel → Z;
  get_zooms : Qc * Qc * Qc;
}.

(** The indices of an array of the given shape in C (raster) order: the
    last axis varies fastest. *)
Definition indices (sh : nat * nat * nat) : list voxel :=
  let '(nx, ny, nz) := sh in
  i ← seq 0 nx; j ← seq 0 ny; k ← seq 0 nz; [(i, j, k)].

(** The position of an index in that order. *)
Definition raster (sh : nat * nat * nat) (p : voxel) : nat :=
  let '(_, ny, nz) := sh in
  let '(i, j, k) := p in
  ((i * ny + j) * nz + k)%nat.

(** [nib.load(path)]: the reader is nibabel's; it raises on a missing or
    unreadable file. *)
Class Nibabel : Type := nib_load : string → result nifti.

(** An array built from nested lists, as [np.array] does (missing entries
    read as background; used for concrete volumes). *)
Definition array3 (rows : list (list (list Z))) (p : voxel) : Z :=
  let '(i, j, k) := p in
  match rows !! i with
  | Some plane =>
      match plane !! j with
      | Some line => default 0 (line !! k)
      | None => 0
      end
  | None => 0
  end.

(** ** [scipy.ndimage.label] *)

(** Connected-component labelling of the foreground nodes of a graph.
    Provisional labels start as the raster rank of each node and are lowered
    to the least label among the neighbours until nothing changes, so that
    every node ends with the rank of the first node of its component.
    Components are then numbered 1, 2, ... in the order of those first
    nodes. *)
Section labelling.
Context `{Countable A}.
Variable nbrs : A → list A.
Variable rank : A → nat.

Definition cc_init (fg : list A) : gmap A nat :=
  list_to_map ((λ p, (p, rank p)) <$> fg).

Definition cc_relax (L : gmap A nat) (p : A) (l : nat) : nat :=
  foldr (λ q acc, match L !! q with Some m => m `min` acc | None => acc end)%nat
        l (nbrs p).

Definition cc_step (L : gmap A nat) : gmap A nat :=
  map_imap (λ p l, Some (cc_relax L p l)) L.

Fixpoint cc_settle (fuel : nat) (L : gmap A nat) : gmap A nat :=
  match fuel with
  | O => L
  | S fuel' =>
      let L' := cc_step L in
      if decide (L' = L) then L else cc_settle fuel' L'
  end.

Definition cc_fuel (fg : list A) : nat := S (sum_list (rank <$> fg)).

Definition cc_final (fg : list A) : gmap A nat :=
  cc_settle (cc_fuel fg) (cc_init fg).

(** The first node of each component, in raster order. *)
Definition cc_roots (fg : list A) : list A :=
  let L := cc_final fg in
  filter (λ p, L !! p = Some (rank p)) fg.

(** The number written at [p]: 0 on the background. *)
Definition cc_label (fg : list A) : A → nat :=
  let L := cc_final fg in
  let roots := cc_roots fg in
  λ p, match L !! p with
       | None => O
       | Some l =>
           match list_find (λ r, rank r = l) roots with
           | Some (i, _) => S i
           | None => O
           end
       end.
End labelling.

Module ndimage.
(** The default structuring element of [ndimage.label] on a 3-D array:
    the six face neighbours. *)
Definition face_neighbours (p : voxel) : list voxel :=
  let '(i, j, k) := p in
  [(S i, j, k); (i, S j, k); (i, j, S k)] ++
  (if i is S i' then [(i', j, k)] else []) ++
  (if j is S j' then [(i, j', k)] else []) ++
  (if k is S k' then [(i, j, k')] else []).

Definition foreground (sh : nat * nat * nat) (mask : voxel → bool) : list voxel :=
  filter (λ p, mask p = true) (indices sh).

(** [labeled, num = ndimage.label(mask)] *)
Definition label (sh : nat * nat * nat) (mask : voxel → bool) : (voxel → nat) * nat :=
  let fg := foreground sh mask in
  (cc_label face_neighbours (raster sh) fg,
   length (cc_roots face_neighbours (raster sh) fg)).
End ndimage.

(** ** [volume.py] *)

(** [config.LIVER_LABEL], [config.TUMOR_LABEL]. *)
Definition LIVER_LABEL : Z := 8.
Definition TUMOR_LABEL : Z := 9.

Module VolumeCalculator.
Record tumor : Type := Tumor { id : nat; volume_ml : Qc }.

(** The dict returned by [calculate]. *)
Record VolumeMetrics : Type := Metrics {
  liver_volume_ml : Qc;
  tumor_count : nat;
  tumors : list tumor;
  total_tumor_volume_ml : Qc;
}.

(** [np.sum(arr == v)] over the whole array. *)
Definition count_eq {V} `{EqDecision V} (sh : nat * nat * nat) (arr : voxel → V) (v : V)
    : nat :=
  length (filter (λ p, arr p = v) (indices sh)).

Definition Qc_of_nat (n : nat) : Qc := Qc_of_Z (Z.of_nat n).

(** One iteration of [for i in range(1, num_tumors + 1)], on the pair
    ([result['tumors']], [result['total_tumor_volume_ml']]). *)
Definition tumor_step (sh : nat * nat * nat) (labeled_tumors : voxel → nat)
    (voxel_volume_ml : Qc) (acc : list tumor * Qc) (i : nat) : list tumor * Qc :=
  let tumor_voxels := count_eq sh labeled_tumors i in
  let tumor_volume := round2 (Qc_of_nat tumor_voxels * voxel_volume_ml) in
  (acc.1 ++ [Tumor i tumor_volume], (acc.2 + tumor_volume)%Qc).

(** The body of [calculate] after [nib.load]. *)
Definition metrics (nii : nifti) (liver_label tumor_label : Z) : VolumeMetrics :=
  let data := get_fdata nii in
  let '(sx, sy, sz) := get_zooms nii in
  let voxel_volume_ml := (sx * sy * sz / Qc_of_Z 1000)%Qc in
  let liver_voxels := count_eq (shape nii) data liver_label in
  let liver := round2 (Qc_of_nat liver_voxels * voxel_volume_ml) in
  let tumor_mask := λ p, bool_decide (data p = tumor_label) in
  if decide (0 < count_eq (shape nii) tumor_mask true)%nat then
    let '(labeled_tumors, num_tumors) := ndimage.label (shape nii) tumor_mask in
    let '(ts, total) :=
      foldl (tumor_step (shape nii) labeled_tumors voxel_volume_ml)
            ([], 0%Qc) (seq 1 num_tumors) in
    Metrics liver num_tumors ts (round2 total)
  else
    Metrics liver 0 [] 0%Qc.

Definition calculate `{Nibabel} (nifti_path : string)
    (liver_label tumor_label : Z) : result VolumeMetrics :=
  match nib_load nifti_path with
  | Ok nii => Ok (metrics nii liver_label tumor_label)
  | Raise e => Raise e
  end.
End VolumeCalculator.

(** *** The arithmetic of [calculate] left to the interpreter *)

(** The numeric scalars that [calculate] handles (numpy integers and floats
    of either precision, Python floats), through the operations the source
    applies to them; what each operation rounds or promotes is left to the
    interpreter. *)
Class Scalars (F : Type) : Type := {
  fzoom : Qc → F;        (* an entry of [get_zooms()], as the scalar it is *)
  fcount : nat → F;      (* the result of [np.sum(...)] *)
  fzero : F;             (* [0.0] *)
  fthousand : F;         (* [1000.0] *)
  fmul : F → F → F;      (* [x * y] *)
  fdiv : F → F → F;      (* [x / y] *)
  fadd : F → F → F;      (* [x + y], also in [+=] *)
  fround2 : F → F;       (* [round(x, 2)] *)
}.

(** [calculate] over these scalars, statement by statement; the module
    [VolumeCalculator] above is this computation at exact rational
    arithmetic. *)
Module VolumeCalculatorF.
Record tumor (F : Type) : Type := Tumor { id : nat; volume_ml : F }.
Arguments Tumor {F} id volume_ml.
Arguments id {F} t.
Arguments volume_ml {F} t.

Record VolumeMetrics (F : Type) : Type := Metrics {
  liver_volume_ml : F;
  tumor_count : nat;
  tumors : list (tumor F);
  total_tumor_volume_ml : F;
}.
Arguments Metrics {F} liver_volume_ml tumor_count tumors total_tumor_volume_ml.
Arguments liver_volume_ml {F} v.
Arguments tumor_count {F} v.
Arguments tumors {F} v.
Arguments total_tumor_volume_ml {F} v.

Definition tumor_step `{Scalars F} (sh : nat * nat * nat) (labeled_tumors : voxel → nat)
    (voxel_volume_ml : F) (acc : list (tumor F) * F) (i : nat) : list (tumor F) * F :=
  let tumor_voxels := VolumeCalculator.count_eq sh labeled_tumors i in
  let tumor_volume := fround2 (fmul (fcount tumor_voxels) voxel_volume_ml) in
  (acc.1 ++ [Tumor i tumor_volume], fadd acc.2 tumor_volume).

Definition metrics `{Scalars F} (nii : nifti) (liver_label tumor_label : Z)
    : VolumeMetrics F :=
  let data := get_fdata nii in
  let '(sx, sy, sz) := get_zooms nii in
  let voxel_volume_ml := fdiv (fmul (fmul (fzoom sx) (fzoom sy)) (fzoom sz)) fthousand in
  let liver_voxels := VolumeCalculator.count_eq (shape nii) data liver_label in
  let liver := fround2 (fmul (fcount liver_voxels) voxel_volume_ml) in
  let tumor_mask := λ p, bool_decide (data p = tumor_label) in
  if decide (0 < VolumeCalculator.count_eq (shape nii) tumor_mask true)%nat then
    let '(labeled_tumors, num_tumors) := ndimage.label (shape nii) tumor_mask in
    let '(ts, total) :=
      foldl (tumor_step (shape nii) labeled_tumors voxel_volume_ml)
            ([], fzero) (seq 1 num_tumors) in
    Metrics liver num_tumors ts (fround2 total)
  else
    Metrics liver 0 [] fzero.

Definition calculate `{Scalars F} `{Nibabel} (nifti_path : string)
    (liver_label tumor_label : Z) : result (VolumeMetrics F) :=
  match nib_load nifti_path with
  | Ok nii => Ok (metrics nii liver_label tumor_label)
  | Raise e => Raise e
  end.
End VolumeCalculatorF.

(** ** [cache.py] *)

(** [hashlib.md5]: [hexdigest()] of a hash object is a function of the
    concatenation of everything fed to [update]. *)
Class Md5 : Type := md5_hexdigest : list byte → string.

(** [json.dump(obj, f, indent=2, ensure_ascii=False)]: the text written to
    [f], and the exception that cut it short, if any. *)
Class JsonDump (P : Type) : Type := json_dump : P → list byte * option exn.

(** [os.path.exists(path)] *)
Definition path_exists (path : string) : M bool :=
  λ w, (Ok (bool_decide (is_Some (files w !! path))), w).

Definition store_file (path : string) (out : list byte * option exn) : M unit :=
  λ w, let w' := with_files (<[path := out.1]> (files w)) w in
       match out.2 with
       | None => (Ok tt, w')
       | Some e => (Raise e, w')
       end.

(** [with open(path, 'w') as f: writer(f)]: opening may fail; otherwise the
    file is created or truncated and receives what the writer produced
    before it returned or raised. *)
Definition write_file (path : string) (out : list byte * option exn) : M unit :=
  o ← next_outcome;
  match o with
  | IoFails e _ => raise e
  | IoDone => store_file path out
  end.

(** [datetime.now().isoformat()] *)
Definition datetime_now_isoformat : M string :=
  λ w, match clock w with
       | [] => (Ok "1970-01-01T00:00:00", w)
       | t :: c => (Ok t, with_clock c w)
       end.

(** Reading through a reference to a dict object. *)
Definition deref (r : loc) : M pydict :=
  λ w, match heap w !! r with
       | Some d => (Ok d, w)
       | None => (Raise (RuntimeError "dangling reference"), w)
       end.

Definition heap_store (r : loc) (d : pydict) : M unit :=
  λ w, (Ok tt, with_heap (<[r := d]> (heap w)) w).

(** [d[key] = v] on the dict object behind [r]. *)
Definition setitem (r : loc) (key : string) (v : pyval) : M unit :=
  d ← deref r;
  heap_store r (<[key := v]> d).

Definition get_heap : M (gmap loc pydict) := λ w, (Ok (heap w), w).
Definition get_index : M (gmap string loc) := λ w, (Ok (index w), w).
Definition set_index (ix : gmap string loc) : M unit := λ w, (Ok tt, with_index ix w).

(** The successive results of [f.read(4096)] up to the first empty one,
    as the two-argument [iter] of [_get_hash] yields them. *)
Fixpoint read_chunks (fuel : nat) (rest : list byte) : list (list byte) :=
  match fuel, rest with
  | _, [] | O, _ => []
  | S fuel', _ => take 4096 rest :: read_chunks fuel' (drop 4096 rest)
  end.

Module PredictionCache.
(** The fixed attributes of a cache object; its [cache_data] is the
    [index] of the world: content hash ↦ (reference to) entry dict. *)
Record t : Type := Build {
  cache_dir : string;
  cache_file : string;
}.

Definition _get_hash `{Md5} (file_path : string) : M string :=
  content ← read_file file_path;
  let hash_md5 :=
    foldl (λ fed chunk, fed ++ chunk) [] (read_chunks (length content) content) in
  mret (md5_hexdigest hash_md5).

(** [for _, obj_path in obj_files: if not os.path.exists(obj_path): return False]
    and then [return True]. *)
Fixpoint all_exist (obj_files : list (Z * string)) : M bool :=
  match obj_files with
  | [] => mret true
  | (_, obj_path) :: rest =>
      path_exists obj_path ≫= λ found : bool,
      if found then all_exist rest else mret false
  end.

(** The same loop for each kind of value that may sit under
    ["obj_files"]: a string is iterated character by character and a
    character does not unpack into two; other values are not iterable. *)
Definition check_obj_files (v : pyval) : M bool :=
  match v with
  | PyPairs l => all_exist l
  | PyStr s =>
      if decide (s = EmptyString) then mret true
      else raise (ValueError "not enough values to unpack (expected 2, got 1)")
  | PyInt _ => raise (TypeError "'int' object is not iterable")
  | PyNone => raise (TypeError "'NoneType' object is not iterable")
  end.

Definition is_cached `{Md5} (self : t) (image_path : string) : M bool :=
  key ← _get_hash image_path;
  cache_data ← get_index;
  match cache_data !! key with
  | None => mret false
  | Some entry =>
      d ← deref entry;
      check_obj_files (default (PyPairs []) (d !! "obj_files"))
  end.

(** [get] returns the entry object itself, or [None]. *)
Definition get `{Md5} (self : t) (image_path : string) : M (option loc) :=
  key ← _get_hash image_path;
  cache_data ← get_index;
  mret (cache_data !! key).

(** What [json.dump] sees of [self.cache_data]: every entry with its
    current contents. *)
Definition resolve (h : gmap loc pydict) (cache_data : gmap string loc)
    : gmap string pydict :=
  (λ r, default ∅ (h !! r)) <$> cache_data.

Definition save `{Md5} `{JsonDump (gmap string pydict)} (self : t)
    (image_path : string) (result : loc) : M unit :=
  key ← _get_hash image_path;
  stamp ← datetime_now_isoformat;
  setitem result "timestamp" (PyStr stamp) ;;
  cache_data ← get_index;
  set_index (<[key := result]> cache_data) ;;
  h ← get_heap;
  cache_data ← get_index;
  write_file (cache_file self) (json_dump (resolve h cache_data)).

(** [clear] *)
Definition clear `{JsonDump (gmap string pydict)} (self : t) : M unit :=
  set_index ∅ ;;
  write_file (cache_file self) (json_dump (∅ : gmap string pydict)).
End PredictionCache.

(** ** Strings and paths *)

(** [os.path.basename] (POSIX): what follows the last slash. *)
Fixpoint has_slash (s : string) : bool :=
  match s with
  | EmptyString => false
  | String c rest => Ascii.eqb c "/"%char || has_slash rest
  end.

Fixpoint basename (s : string) : string :=
  match s with
  | EmptyString => EmptyString
  | String c rest =>
      if Ascii.eqb c "/"%char then basename rest
      else if has_slash rest then basename rest else s
  end.

(** [s.replace(old, '')] for a non-empty [old]: occurrences are removed
    from left to right, [skip] counting the characters of an occurrence
    still to drop. *)
Fixpoint remove_all_go (old : string) (skip : nat) (s : string) : string :=
  match s with
  | EmptyString => EmptyString
  | String c rest =>
      match skip with
      | S k => remove_all_go old k rest
      | O =>
          if String.prefix old s then remove_all_go old (String.length old - 1) rest
          else String c (remove_all_go old O rest)
      end
  end.

Definition remove_all (old s : string) : string := remove_all_go old O s.

Definition ends_with_slash (s : string) : bool :=
  match String.length s with
  | O => false
  | S n => bool_decide (String.get n s = Some "/"%char)
  end.

(** [os.path.join(a, b)] (POSIX). *)
Definition path_join (a b : string) : string :=
  if String.prefix "/" b then b
  else if bool_decide (a = EmptyString) || ends_with_slash a then a +:+ b
  else a +:+ "/" +:+ b.

(** ** [engine.py] *)

(** [config.ORGAN_LABELS] *)
Definition ORGAN_LABELS : gmap Z string :=
  list_to_map
    [ (0, "background"); (1, "spleen"); (2, "kidneys"); (3, "pancreas");
      (4, "stomach"); (5, "heart"); (6, "duodenum"); (7, "tumsomething");
      (8, "liver"); (9, "tumor") ].

(** [np.unique(data)]: the distinct values of the array, ascending. *)
Definition np_unique (sh : nat * nat * nat) (data : voxel → Z) : list Z :=
  merge_sort Z.le (remove_dups (data <$> indices sh)).

(** The surface and mesh libraries ([skimage.measure], [trimesh]): each
    call returns or raises; [export_obj] gives the text written to the
    file and the exception that cut it short, if any. *)
Class MeshLib : Type := {
  Surface : Type;
  Mesh : Type;
  marching_cubes : nat * nat * nat → (voxel → bool) → Qc * Qc * Qc → result Surface;
  Trimesh : Surface → result Mesh;
  filter_laplacian : Mesh → Z → result Mesh;
  export_obj : Mesh → list byte * option exn;
}.

(** [os.makedirs(path, exist_ok=True)] *)
Definition makedirs (path : string) : M unit :=
  o ← next_outcome;
  match o with
  | IoDone => mret tt
  | IoFails e _ => raise e
  end.

Module MeshGenerator.
Record t : Type := Build { smooth : bool; smooth_iterations : Z }.

Definition __init__ : t := Build true 2.

Definition organ_name_of (label_int : Z) : string :=
  default ("organ_" +:+ pretty label_int) (ORGAN_LABELS !! label_int).

Definition base_name_of (nifti_path : string) : string :=
  remove_all ".nii" (remove_all ".nii.gz" (basename nifti_path)).

Definition out_path_of (output_dir base_name : string) (label_int : Z) : string :=
  path_join output_dir (base_name +:+ "_" +:+ organ_name_of label_int +:+ ".obj").

Definition created_msg (label_int : Z) : string :=
  "  " +:+ organ_name_of label_int +:+ " mesh created".
Definition skipped_msg (label_int : Z) (e : exn) : string :=
  "  Label " +:+ pretty label_int +:+ " skipped: " +:+ exn_str e.

(** The [try] block up to and including [mesh.export]. *)
Definition build_mesh `{MeshLib} (self : t) (nii : nifti) (label : Z) : result Mesh :=
  let mask := λ p, bool_decide (get_fdata nii p = label) in
  match marching_cubes (shape nii) mask (get_zooms nii) with
  | Raise e => Raise e
  | Ok surface =>
      match Trimesh surface with
      | Raise e => Raise e
      | Ok mesh => if smooth self then filter_laplacian mesh (smooth_iterations self)
                   else Ok mesh
      end
  end.

Definition export_label `{MeshLib} (self : t) (nii : nifti)
    (output_dir base_name : string) (label : Z) : M unit :=
  mesh ← lift (build_mesh self nii label);
  store_file (out_path_of output_dir base_name label) (export_obj mesh).

(** One iteration of [for label in labels], on the list [obj_files].  The
    [try] block is the extraction, the export, [obj_files.append] and the
    log call; an exception raised after the append reaches the handler with
    the pair already appended.  The handler logs the skip; an exception
    raised by that log call is not caught again. *)
Definition generate_label `{MeshLib} (self : t) (nii : nifti)
    (output_dir base_name : string) (log_callback : option callback)
    (obj_files : list (Z * string)) (label : Z) : M (list (Z * string)) :=
  let label_int := label in
  let skipped acc e :=
    log log_callback (skipped_msg label_int e) "warning" ;; mret acc in
  exported ← attempt (export_label self nii output_dir base_name label);
  match exported with
  | Raise e => skipped obj_files e
  | Ok _ =>
      let appended := obj_files ++ [(label_int, out_path_of output_dir base_name label_int)] in
      try_except
        (log log_callback (created_msg label_int) "info" ;; mret appended)
        (skipped appended)
  end.

Fixpoint generate_loop `{MeshLib} (self : t) (nii : nifti)
    (output_dir base_name : string) (log_callback : option callback)
    (obj_files : list (Z * string)) (labels : list Z) : M (list (Z * string)) :=
  match labels with
  | [] => mret obj_files
  | label :: rest =>
      acc ← generate_label self nii output_dir base_name log_callback obj_files label;
      generate_loop self nii output_dir base_name log_callback acc rest
  end.

(** [labels = np.unique(data); labels = labels[labels != 0]] *)
Definition labels_of (nii : nifti) : list Z :=
  filter (λ v, v ≠ 0) (np_unique (shape nii) (get_fdata nii)).

Definition generate `{Nibabel} `{MeshLib} (self : t) (nifti_path output_dir : string)
    (log_callback : option callback) : M (list (Z * string)) :=
  makedirs output_dir ;;
  nii ← lift (nib_load nifti_path);
  generate_loop self nii output_dir (base_name_of nifti_path) log_callback []
                (labels_of nii).
End MeshGenerator.

(** ** [app.py]: the name of the prediction file *)

(** [s.replace(old, new)] for a non-empty [old]: occurrences are replaced
    from left to right, [skip] counting the characters of an occurrence
    still to drop. *)
Fixpoint replace_all_go (old new : string) (skip : nat) (s : string) : string :=
  match s with
  | EmptyString => EmptyString
  | String c rest =>
      match skip with
      | S k => replace_all_go old new k rest
      | O =>
          if String.prefix old s
          then new +:+ replace_all_go old new (String.length old - 1) rest
          else String c (replace_all_go old new O rest)
      end
  end.

Definition replace_all (old new s : string) : string := replace_all_go old new O s.

(** [InferenceApp._run_full_prediction]: [output_name], the file name that
    is joined to the output directory and handed to [predict]. *)
Definition output_name_of (input_file : string) : string :=
  replace_all ".nii" "_pred.nii" (replace_all ".nii.gz" "_pred.nii" (basename input_file)).

(** ** A JSON encoder for concrete payloads *)

(** Trees of [None], booleans, integers, strings, lists and dicts with
    string keys (in insertion order), and their [json.dumps] text with the
    default separators and [ensure_ascii=False]. *)
#[local] Unset Elimination Schemes.
Inductive json : Type :=
| JNull
| JBool (b : bool)
| JInt (z : Z)
| JStr (s : string)
| JList (l : list json)
| JDict (l : list (string * json)).
#[local] Set Elimination Schemes.

Definition hex_digit (n : N) : ascii :=
  match n with
  | 0%N => "0" | 1%N => "1" | 2%N => "2" | 3%N => "3" | 4%N => "4" | 5%N => "5"
  | 6%N => "6" | 7%N => "7" | 8%N => "8" | 9%N => "9" | 10%N => "a" | 11%N => "b"
  | 12%N => "c" | 13%N => "d" | 14%N => "e" | _ => "f"
  end%char.

Definition json_escape_char (c : ascii) : string :=
  let n := N_of_ascii c in
  if (n =? 34)%N then "\" +:+ String c EmptyString
  else if (n =? 92)%N then "\\"
  else if (n =? 10)%N then "\n"
  else if (n =? 13)%N then "\r"
  else if (n =? 9)%N then "\t"
  else if (n =? 8)%N then "\b"
  else if (n =? 12)%N then "\f"
  else if (n <? 32)%N then
    "\u00" +:+ String (hex_digit (n / 16)) (String (hex_digit (n mod 16)) EmptyString)
  else String c EmptyString.

Fixpoint json_escape (s : string) : string :=
  match s with
  | EmptyString => EmptyString
  | String c rest => json_escape_char c +:+ json_escape rest
  end.

Definition json_quote (s : string) : string :=
  String "034"%char (json_escape s +:+ String "034"%char EmptyString).

Fixpoint comma_join (parts : list string) : string :=
  match parts with
  | [] => EmptyString
  | [p] => p
  | p :: rest => p +:+ ", " +:+ comma_join rest
  end.

Fixpoint dumps (j : json) : string :=
  match j with
  | JNull => "null"
  | JBool true => "true"
  | JBool false => "false"
  | JInt z => pretty z
  | JStr s => json_quote s
  | JList l => "[" +:+ comma_join (List.map dumps l) +:+ "]"
  | JDict l =>
      "{" +:+ comma_join (List.map (λ '(k, v), json_quote k +:+ ": " +:+ dumps v) l) +:+ "}"
  end.

#[export] Instance json_encoder : JsonEncoder json :=
  λ j, Ok (String.list_byte_of_string (dumps j)).

(* ===================================================================== *)
(** * Part II: specification vocabulary and concrete worlds              *)
(* ===================================================================== *)

(** ** Components of a graph *)

Section labelling_spec.
Context `{Countable A}.
Variable nbrs : A → list A.
Variable rank : A → nat.
Variable fg : list A.

(** One step between neighbouring foreground nodes, and its closure. *)
Definition cc_adj (p q : A) : Prop := p ∈ fg ∧ q ∈ fg ∧ q ∈ nbrs p.

Definition cc_conn : relation A := rtc cc_adj.

Record cc_inv (L : gmap A nat) : Prop := {
  inv_dom p : is_Some (L !! p) ↔ p ∈ fg;
  inv_val p l : L !! p = Some l → ∃ r, r ∈ fg ∧ cc_conn p r ∧ rank r = l;
  inv_le p l : L !! p = Some l → (l ≤ rank p)%nat;
}.

Definition cc_total (L : gmap A nat) : nat :=
  sum_list ((λ p, default O (L !! p)) <$> fg).
End labelling_spec.

(** ** Delivery, volumes, cache and meshes *)

Definition u32 (n : Z) : Prop := 0 ≤ n < 2 ^ 32.

(** [sends w w' bs]: between [w] and [w'] exactly [bs] went out and the
    file system was left alone. *)
Definition sends (w w' : world) (bs : list byte) : Prop :=
  wire w' = wire w ++ bs ∧ files w' = files w.

(** The frame of one mesh asset: label, byte length, raw bytes. *)
Definition mesh_frame (organ_label : Z) (contents : list byte) : list byte :=
  be32 organ_label ++ be32 (UnityClient.len contents) ++ contents.

Definition mesh_frames (obj_files : list (Z * string)) (contents : list (list byte))
    : list byte :=
  concat (zip_with (λ item c, mesh_frame item.1 c) obj_files contents).

(** The whole stream of one delivery. *)
Definition delivery_stream (json : list byte) (obj_files : list (Z * string))
    (contents : list (list byte)) : list byte :=
  be32 (UnityClient.len json) ++ json ++
  be32 (UnityClient.len obj_files) ++ mesh_frames obj_files contents.

(** A log callback that returns normally whenever it is called (and the
    absent callback [None]). *)
Definition callback_quiet (log_callback : option callback) : Prop :=
  ∀ f, log_callback = Some f → ∀ msg tag, f msg tag = None.

(** The lines the handler of [send] hands to the callback for [e]. *)
Definition handler_lines (log_callback : option callback) (e : exn)
    : list (string * string) :=
  match log_callback with
  | None => []
  | Some _ =>
      match e with
      | ConnectionRefusedError =>
          [ (UnityClient.refused_msg, "error");
            ("   Make sure Unity is running.", "warning") ]
      | _ => [ (UnityClient.error_msg e, "error") ]
      end
  end.

(** The peer refuses the connection: nothing listens at the endpoint. *)
Definition nothing_listening (w : world) : Prop :=
  ∃ k s, script w = IoFails ConnectionRefusedError k :: s.

Definition dist (a b : nat) : nat := ((a - b) + (b - a))%nat.

(** Two voxels share a face: they differ by one step along one axis. *)
Definition face_adjacent (p q : voxel) : Prop :=
  let '(i, j, k) := p in
  let '(i', j', k') := q in
  (dist i i' + dist j j' + dist k k' = 1)%nat.

(** The voxels carrying [label], in raster order. *)
Definition voxels_with (nii : nifti) (label : Z) : list voxel :=
  filter (λ p, get_fdata nii p = label) (indices (shape nii)).

(** Voxels of [T] joined by a chain of face-adjacent voxels of [T]. *)
Definition same_component (T : list voxel) : relation voxel :=
  rtc (λ p q, p ∈ T ∧ q ∈ T ∧ face_adjacent p q).

(** Step 1 of the computation: mm³ of one voxel, in ml. *)
Definition voxel_volume_ml (nii : nifti) : Qc :=
  let '(sx, sy, sz) := get_zooms nii in (sx * sy * sz / Qc_of_Z 1000)%Qc.

(** The array [labeled_tumors] and the first voxels of its components. *)
Definition tumor_labels (nii : nifti) (tumor_label : Z) : voxel → nat :=
  cc_label ndimage.face_neighbours (raster (shape nii)) (voxels_with nii tumor_label).

Definition tumor_firsts (nii : nifti) (tumor_label : Z) : list voxel :=
  cc_roots ndimage.face_neighbours (raster (shape nii)) (voxels_with nii tumor_label).

(** The volume reported for the component numbered [i]. *)
Definition component_volume (nii : nifti) (tumor_label : Z) (i : nat) : Qc :=
  round2 (VolumeCalculator.Qc_of_nat
            (VolumeCalculator.count_eq (shape nii) (tumor_labels nii tumor_label) i)
          * voxel_volume_ml nii).


Definition single_file (path : string) (nii : nifti) : Nibabel :=
  λ p, if decide (p = path) then Ok nii else Raise (FileNotFoundError p).

(** A 2x2x2 volume with two tumor voxels meeting only at an edge, and a
    liver voxel. *)
Definition two_blobs : nifti :=
  Nifti (2, 2, 2)%nat (array3 [[[9; 0]; [0; 8]]; [[0; 0]; [9; 0]]]) (1, 1, 1)%Qc.

(** Some component of the spacing is zero or negative. *)
Definition nonpositive_spacing (nii : nifti) : Prop :=
  let '(sx, sy, sz) := get_zooms nii in (sx ≤ 0 ∨ sy ≤ 0 ∨ sz ≤ 0)%Qc.

(** One liver voxel with a zero and a negative spacing component. *)
Definition flat_volume : nifti :=
  Nifti (1, 1, 1)%nat (λ _, LIVER_LABEL) (0, -1, 1)%Qc.

(** A single liver voxel of 1 mm³. *)
Definition one_liver_voxel : nifti :=
  Nifti (1, 1, 1)%nat (λ _, LIVER_LABEL) (1, 1, 1)%Qc.

(** The time [save] reads off the clock. *)
Definition current_time (w : world) : string :=
  match clock w with [] => "1970-01-01T00:00:00" | t :: _ => t end.

(** Stand-ins for the digest and the serialiser in concrete runs; every
    statement below that mentions them holds for any other choice. *)
Definition length_digest : Md5 := λ bs, pretty (length bs).

Definition blank_dump : JsonDump (gmap string pydict) := λ _, ([], None).

Definition the_cache : PredictionCache.t :=
  PredictionCache.Build "prediction_cache" "prediction_cache/cache_index.json".

(** The entry the application saves: prediction path and mesh list. *)
Definition liver_entry : pydict :=
  <["prediction_path" := PyStr "predictions/scan_seg.nii.gz"]>
    (<["obj_files" := PyPairs [(8, "unity_assets/scan_seg_liver.obj")]]> ∅).

Definition disk_world : world :=
  World [] []
        (<["scan.nii.gz" := [x01; x02; x03]]>
           (<["unity_assets/scan_seg_liver.obj" := [x6f]]> ∅))
        [] (<[O := liver_entry]> ∅) ["2026-01-01T12:00:00"] ∅.

(** The same disk with a copy of the scan under another name, and a clock
    that has two readings left. *)
Definition mirror_world : world :=
  World [] []
        (<["backup/copy.nii.gz" := [x01; x02; x03]]>
           (<["scan.nii.gz" := [x01; x02; x03]]>
              (<["unity_assets/scan_seg_liver.obj" := [x6f]]> ∅)))
        [] (<[O := liver_entry]> ∅)
        ["2026-01-01T12:00:00"; "2026-01-01T12:00:05"] ∅.

(** The disk once the scan has been saved: its hash is in the index. *)
Definition indexed_world : world :=
  World [] []
        (<["scan.nii.gz" := [x01; x02; x03]]>
           (<["unity_assets/scan_seg_liver.obj" := [x6f]]> ∅))
        [] (<[O := liver_entry]> ∅) [] (<["3" := O]> ∅).

(** An index whose only entry has no mesh list. *)
Definition bare_world : world :=
  World [] [] (<["scan.nii.gz" := [x01; x02; x03]]> ∅) []
        (<[O := <["prediction_path" := PyStr "predictions/scan_seg.nii.gz"]> ∅]> ∅)
        [] (<["3" := O]> ∅).

(** An entry that lists the scan itself among its mesh files. *)
Definition self_listing_world : world :=
  World [] [] (<["scan.nii.gz" := [x01; x02; x03]]> ∅) []
        (<[O := <["obj_files" := PyPairs [(8, "scan.nii.gz")]]> ∅]> ∅) [] ∅.

(** How the extraction of one label ends: [None] when the mesh was built
    and exported, otherwise the exception. *)
Definition label_failure `{MeshLib} (self : MeshGenerator.t) (nii : nifti) (label : Z)
    : option exn :=
  match MeshGenerator.build_mesh self nii label with
  | Raise e => Some e
  | Ok mesh => (export_obj mesh).2
  end.

(** The pair contributed by a label, and the line logged for it. *)
Definition label_pair `{MeshLib} (self : MeshGenerator.t) (nii : nifti)
    (output_dir base_name : string) (label : Z) : option (Z * string) :=
  match label_failure self nii label with
  | None => Some (label, MeshGenerator.out_path_of output_dir base_name label)
  | Some _ => None
  end.

Definition label_line `{MeshLib} (self : MeshGenerator.t) (nii : nifti) (label : Z)
    : string * string :=
  match label_failure self nii label with
  | None => (MeshGenerator.created_msg label, "info")
  | Some e => (MeshGenerator.skipped_msg label e, "warning")
  end.

(** No failure is scheduled for the next environment-decided I/O call. *)
Definition next_io_ok (w : world) : Prop :=
  match script w with
  | IoFails _ _ :: _ => False
  | _ => True
  end.

(** A log callback that raises whenever it is called. *)
Definition closed_log : callback := λ _ _, Some (RuntimeError "log window closed").

(** A log callback that records and returns. *)
Definition open_log : callback := λ _ _, None.

(** A surface library for concrete runs: a mask of fewer than two voxels
    has no surface; a mesh is represented by its voxel count. *)
Definition counting_meshes : MeshLib := {|
  Surface := nat;
  Mesh := nat;
  marching_cubes sh mask _ :=
    let n := length (filter (λ p, mask p = true) (indices sh)) in
    if decide (n < 2)%nat
    then Raise (RuntimeError "No surface found at the given iso value.")
    else Ok n;
  Trimesh := Ok;
  filter_laplacian mesh _ := Ok mesh;
  export_obj mesh := ([x6f], None);
|}.

Definition empty_world : world := World [] [] ∅ [] ∅ [] ∅.

Definition liver_payload : json :=
  JDict [ ("patient", JDict [("name", JStr "A. Patient"); ("age", JInt 52)]);
          ("analysis", JDict [("tumor_count", JInt 0); ("tumors", JList [])]) ].

(** Nothing listens at the endpoint. *)
Definition refusing_world : world :=
  World [IoFails ConnectionRefusedError 0] [] ∅ [] ∅ [] ∅.

(** ** The receiving side of the wire protocol *)

(** Read one unsigned big-endian 32-bit field. *)
Definition read_u32 (bs : list byte) : option (Z * list byte) :=
  n ← be32_decode (take 4 bs); Some (n, drop 4 bs).

(** Read [count] mesh frames: label, length, that many bytes. *)
Fixpoint read_frames (count : nat) (bs : list byte)
    : option (list (Z * list byte) * list byte) :=
  match count with
  | O => Some ([], bs)
  | S count' =>
      '(label, bs1) ← read_u32 bs;
      '(size, bs2) ← read_u32 bs1;
      if decide (Z.to_nat size ≤ length bs2)%nat then
        '(frames, rest) ← read_frames count' (drop (Z.to_nat size) bs2);
        Some ((label, take (Z.to_nat size) bs2) :: frames, rest)
      else None
  end.

(** Read a whole delivery: the JSON text and the meshes; nothing may be
    left over. *)
Definition read_delivery (bs : list byte) : option (list byte * list (Z * list byte)) :=
  '(size, bs1) ← read_u32 bs;
  if decide (Z.to_nat size ≤ length bs1)%nat then
    '(count, bs2) ← read_u32 (drop (Z.to_nat size) bs1);
    '(frames, rest) ← read_frames (Z.to_nat count) bs2;
    if decide (rest = []) then Some (take (Z.to_nat size) bs1, frames) else None
  else None.

(** The network answers every call without failure. *)
Definition calm (w : world) : Prop := Forall (λ o, o = IoDone) (script w).

(** [runs m a w w' bs]: [m] returns [a] from [w], having sent [bs] and
    left a calm network. *)
Definition runs {A} (m : M A) (a : A) (w w' : world) (bs : list byte) : Prop :=
  m w = (Ok a, w') ∧ calm w' ∧ sends w w' bs.

(** A computation that leaves the file system, the dict objects and the
    cache index as they were, however it ends. *)
Definition keeps_store {A} (m : M A) : Prop :=
  ∀ w r w', m w = (r, w') →
    files w' = files w ∧ heap w' = heap w ∧ index w' = index w.

(** No file of [w] is missing from [w']. *)
Definition grows (w w' : world) : Prop :=
  ∀ p, is_Some (files w !! p) → is_Some (files w' !! p).

(** A volume without any label, and a world holding the dict that the
    application caches for the two-blob segmentation. *)
Definition clear_scan : nifti := Nifti (2, 2, 2)%nat (λ _, 0) (1, 1, 1)%Qc.

Definition mesh_world : world :=
  World [] [] (<["scan.nii.gz" := [x01; x02; x03]]> ∅) []
        (<[O := <["prediction_path" := PyStr "seg.nii.gz"]>
                  (<["obj_files" := PyPairs [(9, "unity_assets/seg_tumor.obj")]]> ∅)]> ∅)
        ["2026-01-01T12:00:00"] ∅.

(** A file stem made of characters other than the dot and the slash. *)
Fixpoint plain (s : string) : Prop :=
  match s with
  | EmptyString => True
  | String c rest => c ≠ "."%char ∧ c ≠ "/"%char ∧ plain rest
  end.

(** [emits fs m bs Q]: run on the files [fs], [m] leaves them alone and puts
    a prefix of [bs] on the wire, all of [bs] when it returns, and then its
    result satisfies [Q]. *)
Definition emits {A} (fs : gmap string (list byte)) (m : M A) (bs : list byte)
    (Q : A → Prop) : Prop :=
  ∀ w r w', files w = fs → m w = (r, w') →
    files w' = fs ∧
    ∃ sent, wire w' = wire w ++ sent ∧ sent `prefix_of` bs ∧
            ∀ a, r = Ok a → sent = bs ∧ Q a.

(** The connection is accepted and the length header goes out; the peer
    goes away while the JSON text is being sent, five bytes of it still
    leave. *)
Definition flaky_world : world :=
  World [IoDone; IoDone; IoFails (OSError "[Errno 32] Broken pipe") 5] []
        (<["unity_assets/scan_seg_liver.obj" := [x6f]]> ∅) [] ∅ [] ∅.

(** ** Volumes over any arithmetic *)

(** Exact rational arithmetic, for concrete runs on values that binary
    floating point represents and rounds alike. *)
Definition exact_scalars : Scalars Qc := {|
  fzoom := id;
  fcount := VolumeCalculator.Qc_of_nat;
  fzero := 0%Qc;
  fthousand := Qc_of_Z 1000;
  fmul := Qcmult;
  fdiv := Qcdiv;
  fadd := Qcplus;
  fround2 := round2;
|}.

(** [voxel_volume_ml] of the source. *)
Definition voxel_volume `{Scalars F} (nii : nifti) : F :=
  let '(sx, sy, sz) := get_zooms nii in
  fdiv (fmul (fmul (fzoom sx) (fzoom sy)) (fzoom sz)) fthousand.

(** The number of voxels of each tumor, in the order of the tumor ids. *)
Definition component_sizes (nii : nifti) (tumor_label : Z) : list nat :=
  (λ i, VolumeCalculator.count_eq (shape nii) (tumor_labels nii tumor_label) i)
    <$> seq 1 (length (tumor_firsts nii tumor_label)).

(** The volume reported for a tumor of [c] voxels. *)
Definition rounded_volume `{Scalars F} (nii : nifti) (c : nat) : F :=
  fround2 (fmul (fcount c) (voxel_volume nii)).

(** [x += v] for each [v] in turn. *)
Definition running_total `{Scalars F} (vs : list F) : F := foldl fadd fzero vs.

(** The two-blob volume with slices 6 mm apart: one voxel is 0.006 ml. *)
Definition thick_slices : nifti :=
  Nifti (2, 2, 2)%nat (array3 [[[9; 0]; [0; 8]]; [[0; 0]; [9; 0]]]) (1%Qc, 1%Qc, Qc_of_Z 6).
(* ===================================================================== *)
(** * Part III: properties                                                *)
(* ===================================================================== *)

(** ** The exception monad *)

Lemma bind_Ok {A B} (m : M A) (k : A → M B) w b w' :
  (m ≫= k) w = (Ok b, w') →
  ∃ a w1, m w = (Ok a, w1) ∧ k a w1 = (Ok b, w').
Proof.
  unfold mbind, M_bind, bind. destruct (m w) as [[a|e] w1]; [eauto | discriminate].
Qed.

Lemma bind_run {A B} (m : M A) (k : A → M B) w a w1 :
  m w = (Ok a, w1) → (m ≫= k) w = k a w1.
Proof. unfold mbind, M_bind, bind. by intros ->. Qed.

Lemma bind_raise {A B} (m : M A) (k : A → M B) w e w1 :
  m w = (Raise e, w1) → (m ≫= k) w = (Raise e, w1).
Proof. unfold mbind, M_bind, bind. by intros ->. Qed.

Lemma lift_Ok {A} (r : result A) w a w' :
  lift r w = (Ok a, w') → r = Ok a ∧ w' = w.
Proof. unfold lift. by intros [= -> ->]. Qed.

(** ** Big-endian fields *)

Lemma pack_I_Ok n bs : struct.pack_I n = Ok bs → u32 n ∧ bs = be32 n.
Proof.
  unfold struct.pack_I, u32.
  case_decide; [by intros [= <-] | case_decide; discriminate].
Qed.

Lemma pack_I_u32 n : u32 n → struct.pack_I n = Ok (be32 n).
Proof. unfold struct.pack_I, u32. intros. by rewrite decide_True. Qed.

Lemma Z_of_byte_of_Z z : Z_of_byte (byte_of_Z z) = z `mod` 256.
Proof.
  unfold Z_of_byte, byte_of_Z.
  assert (Hlt : (Z.to_N (z `mod` 256) < 256)%N).
  { pose proof (Z.mod_pos_bound z 256). lia. }
  destruct (Byte.of_N (Z.to_N (z `mod` 256))) as [b|] eqn:Hb.
  - simpl. apply Byte.to_of_N in Hb. rewrite Hb.
    pose proof (Z.mod_pos_bound z 256). lia.
  - apply Byte.of_N_None_iff in Hb. lia.
Qed.

Lemma length_be32 n : length (be32 n) = 4%nat.
Proof. done. Qed.

Lemma lor_shiftl_small a b k :
  0 ≤ k → 0 ≤ b < 2 ^ k → Z.lor (Z.shiftl a k) b = a * 2 ^ k + b.
Proof.
  intros Hk Hb.
  assert (Hland : Z.land (Z.shiftl a k) b = 0).
  { apply Z.bits_inj'. intros i Hi. rewrite Z.land_spec, Z.bits_0.
    destruct (decide (i < k)) as [Hlt|Hge].
    - by rewrite Z.shiftl_spec_low.
    - destruct (decide (b = 0)) as [->|Hb0]; [by rewrite Z.bits_0, andb_false_r|].
      rewrite (Z.bits_above_log2 b i), andb_false_r; [done|lia|].
      apply Z.log2_lt_pow2; [lia|].
      eapply Z.lt_le_trans; [apply Hb|]. apply Z.pow_le_mono_r; lia. }
  rewrite <- Z.lxor_lor, <- Z.add_nocarry_lxor by done.
  by rewrite Z.shiftl_mul_pow2.
Qed.

(** A receiver that reads the four bytes most-significant first recovers
    the number: the field is an unsigned big-endian 32-bit integer. *)
Lemma be32_decode_be32 n : u32 n → be32_decode (be32 n) = Some n.
Proof.
  unfold u32. intros Hn. unfold be32, be32_decode. f_equal.
  rewrite !Z_of_byte_of_Z, !Z.shiftr_div_pow2 by lia.
  change (2 ^ 24) with 16777216. change (2 ^ 16) with 65536. change (2 ^ 8) with 256.
  change (2 ^ 32) with 4294967296 in Hn.
  rewrite (lor_shiftl_small _ (n `mod` 256) 8) by (pose proof (Z.mod_pos_bound n 256); lia).
  rewrite (lor_shiftl_small _ _ 16).
  2: lia.
  2: { pose proof (Z.mod_pos_bound n 256). pose proof (Z.mod_pos_bound (n `div` 256) 256).
       change (2 ^ 8) with 256. change (2 ^ 16) with 65536. lia. }
  rewrite (lor_shiftl_small _ _ 24).
  2: lia.
  2: { pose proof (Z.mod_pos_bound n 256). pose proof (Z.mod_pos_bound (n `div` 256) 256).
       pose proof (Z.mod_pos_bound (n `div` 65536) 256).
       change (2 ^ 8) with 256. change (2 ^ 16) with 65536. change (2 ^ 24) with 16777216. lia. }
  change (2 ^ 8) with 256. change (2 ^ 16) with 65536. change (2 ^ 24) with 16777216.
  replace (n `div` 65536) with ((n `div` 256) `div` 256)
    by (rewrite Z.div_div by lia; done).
  replace (n `div` 16777216) with (((n `div` 256) `div` 256) `div` 256)
    by (rewrite !Z.div_div by lia; done).
  Z.div_mod_to_equations. lia.
Qed.

(** ** Delivery: what a run puts on the wire *)

Lemma sends_nil w : sends w w [].
Proof. split; [by rewrite app_nil_r | done]. Qed.

Lemma sends_app w w1 w2 a b : sends w w1 a → sends w1 w2 b → sends w w2 (a ++ b).
Proof.
  intros [Ha Hfa] [Hb Hfb]. split; [|congruence].
  by rewrite Hb, Ha, (assoc_L (++)).
Qed.

Lemma next_outcome_Ok w o w1 : next_outcome w = (Ok o, w1) → sends w w1 [].
Proof.
  unfold next_outcome.
  destruct (script w); intros [= <- <-]; split; simpl; by rewrite ?app_nil_r.
Qed.

Lemma next_outcome_total w : ∃ o w1, next_outcome w = (Ok o, w1) ∧ trace w1 = trace w.
Proof. unfold next_outcome. destruct (script w); eauto. Qed.

Lemma sendall_Ok data w w1 : socket.sendall data w = (Ok tt, w1) → sends w w1 data.
Proof.
  unfold socket.sendall. intros (o & w0 & Ho & Hk)%bind_Ok.
  apply next_outcome_Ok in Ho. destruct o as [|e k].
  - unfold transmit in Hk. injection Hk as <-.
    destruct Ho as [Hw Hf]. split; simpl; [|done].
    by rewrite Hw, app_nil_r.
  - apply bind_Ok in Hk as (? & ? & _ & Hr). discriminate Hr.
Qed.

Lemma log_Ok cb msg tag w w1 : log cb msg tag w = (Ok tt, w1) → sends w w1 [].
Proof.
  unfold log. destruct cb as [f|].
  - destruct (f msg tag); intros [= <-]. split; simpl; [by rewrite app_nil_r | done].
  - intros [= <-]. apply sends_nil.
Qed.

Lemma read_file_Ok path w bs w1 :
  read_file path w = (Ok bs, w1) → files w !! path = Some bs ∧ w1 = w.
Proof. unfold read_file. destruct (files w !! path); by intros [= <- <-]. Qed.

Lemma connect_Ok host port w w1 :
  socket.connect host port w = (Ok tt, w1) → sends w w1 [].
Proof.
  unfold socket.connect. case_decide; [|discriminate].
  intros (o & w0 & Ho & Hk)%bind_Ok. apply next_outcome_Ok in Ho.
  destruct o; [by injection Hk as <- | discriminate].
Qed.

Lemma close_Ok w w1 : socket.close w = (Ok tt, w1) → sends w w1 [].
Proof.
  unfold socket.close. intros (o & w0 & Ho & Hk)%bind_Ok.
  apply next_outcome_Ok in Ho.
  destruct o; [by injection Hk as <- | discriminate].
Qed.

Lemma settimeout_Ok t w w1 : socket.settimeout t w = (Ok tt, w1) → w1 = w.
Proof. unfold socket.settimeout. case_decide; [discriminate | by intros [= <-]]. Qed.

Lemma send_mesh_Ok item w w1 :
  UnityClient.send_mesh item w = (Ok tt, w1) →
  ∃ c, files w !! item.2 = Some c ∧ u32 item.1 ∧ u32 (UnityClient.len c) ∧
       sends w w1 (mesh_frame item.1 c).
Proof.
  destruct item as [organ_label obj_path]. unfold UnityClient.send_mesh.
  intros (hdr & w2 & [[Hl ->]%pack_I_Ok ->]%lift_Ok & H)%bind_Ok.
  apply bind_Ok in H as ([] & w3 & Hs1%sendall_Ok & H).
  apply bind_Ok in H as (data & w4 & [Hf ->]%read_file_Ok & H).
  apply bind_Ok in H as (sz & w5 & [[Hsz ->]%pack_I_Ok ->]%lift_Ok & H).
  apply bind_Ok in H as ([] & w6 & Hs2%sendall_Ok & Hs3%sendall_Ok).
  exists data. simpl. split_and!; [|done|done|].
  - destruct Hs1 as [_ <-]. done.
  - unfold mesh_frame. eauto using sends_app.
Qed.

Lemma for_each_send_mesh_Ok obj_files w w1 :
  for_each obj_files UnityClient.send_mesh w = (Ok tt, w1) →
  ∃ contents,
    Forall2 (λ item c, files w !! item.2 = Some c ∧ u32 item.1 ∧ u32 (UnityClient.len c))
            obj_files contents ∧
    sends w w1 (mesh_frames obj_files contents).
Proof.
  revert w. induction obj_files as [|item rest IH]; intros w; simpl.
  - intros [= <-]. exists []. split; [constructor | apply sends_nil].
  - intros ([] & w2 & (c & Hc & Hl & Hsz & Hs)%send_mesh_Ok & Hrest)%bind_Ok.
    apply IH in Hrest as (cs & Hcs & Hss).
    exists (c :: cs). split.
    + constructor; [done|].
      destruct Hs as [_ Hf]. eapply Forall2_impl; [apply Hcs|].
      intros ?? H. by rewrite <- Hf.
    + exact (sends_app _ _ _ _ _ Hs Hss).
Qed.

(** ** C1 *)

(** C1. A call of [UnityClient.send] that returns [True] has put on the wire
    exactly: the 4-byte big-endian length of the UTF-8 JSON payload, the JSON
    bytes, the 4-byte big-endian count of assets, and then, for each asset in
    the order of the input list, its 4-byte label, the 4-byte length of the
    mesh file and the file's bytes.  Every 4-byte field holds an unsigned
    32-bit value. *)
Theorem send_true_stream `{JsonEncoder P} (self : UnityClient.t)
    (obj_files : list (Z * string)) (patient_data : P)
    (log_callback : option callback) (w w' : world) :
  UnityClient.send self obj_files patient_data log_callback w = (Ok true, w') →
  ∃ json contents,
    json_dumps_utf8 patient_data = Ok json ∧
    Forall2 (λ item c, files w !! item.2 = Some c ∧ u32 item.1 ∧ u32 (UnityClient.len c))
            obj_files contents ∧
    u32 (UnityClient.len json) ∧ u32 (UnityClient.len obj_files) ∧
    wire w' = wire w ++ delivery_stream json obj_files contents.
Proof.
  unfold UnityClient.send, try_except.
  destruct (UnityClient.send_body _ _ _ _ w) as [[b|e] w1] eqn:Hbody.
  - intros [= -> ->]. unfold UnityClient.send_body in Hbody.
    apply bind_Ok in Hbody as ([] & w2 & ->%settimeout_Ok & Hb).
    apply bind_Ok in Hb as ([] & w3 & Hc%connect_Ok & Hb).
    apply bind_Ok in Hb as ([] & w4 & Hl1%log_Ok & Hb).
    apply bind_Ok in Hb as ([] & w5 & Hl2%log_Ok & Hb).
    apply bind_Ok in Hb as (json & w6 & [Hjson ->]%lift_Ok & Hb).
    apply bind_Ok in Hb as (hdr & w7 & [[Hjl ->]%pack_I_Ok ->]%lift_Ok & Hb).
    apply bind_Ok in Hb as ([] & w8 & Hs1%sendall_Ok & Hb).
    apply bind_Ok in Hb as ([] & w9 & Hs2%sendall_Ok & Hb).
    apply bind_Ok in Hb as ([] & w10 & Hl3%log_Ok & Hb).
    apply bind_Ok in Hb as ([] & w11 & Hl4%log_Ok & Hb).
    apply bind_Ok in Hb as (cnt & w12 & [[Hn ->]%pack_I_Ok ->]%lift_Ok & Hb).
    apply bind_Ok in Hb as ([] & w13 & Hs3%sendall_Ok & Hb).
    apply bind_Ok in Hb as ([] & w14 & (cs & Hcs & Hs4)%for_each_send_mesh_Ok & Hb).
    apply bind_Ok in Hb as ([] & w15 & Hcl%close_Ok & [= <-]).
    pose proof (sends_app _ _ _ _ _ Hc Hl1) as S1.
    pose proof (sends_app _ _ _ _ _ S1 Hl2) as S2.
    pose proof (sends_app _ _ _ _ _ S2 Hs1) as S3.
    pose proof (sends_app _ _ _ _ _ S3 Hs2) as S4.
    pose proof (sends_app _ _ _ _ _ S4 Hl3) as S5.
    pose proof (sends_app _ _ _ _ _ S5 Hl4) as S6.
    pose proof (sends_app _ _ _ _ _ S6 Hs3) as S7.
    pose proof (sends_app _ _ _ _ _ S7 Hs4) as S8.
    pose proof (sends_app _ _ _ _ _ S8 Hcl) as [S9 _].
    exists json, cs. split_and!; [done| |done|done|].
    + destruct S7 as [_ Hf]. eapply Forall2_impl; [apply Hcs|].
      intros ?? Hx. by rewrite <- Hf.
    + rewrite S9. f_equal. unfold delivery_stream.
      rewrite !app_nil_l, !app_nil_r. by rewrite <- !(assoc_L (++)).
  - destruct e; simpl; intros Hh.
    all: repeat (apply bind_Ok in Hh as (? & ? & _ & Hh)); discriminate Hh.
Qed.

(** ** C6 *)

Lemma log_quiet cb msg tag w :
  callback_quiet cb →
  ∃ w1, log cb msg tag w = (Ok tt, w1) ∧ wire w1 = wire w ∧
        trace w1 = trace w ++ (if cb is Some _ then [(msg, tag)] else []).
Proof.
  intros Hq. unfold log. destruct cb as [f|].
  - rewrite (Hq f eq_refl). eauto.
  - eexists. split_and!; [done..|]. by rewrite app_nil_r.
Qed.

Lemma send_handler_quiet cb e w :
  callback_quiet cb →
  ∃ w', UnityClient.send_handler cb e w = (Ok false, w') ∧ wire w' = wire w ∧
        trace w' = trace w ++ handler_lines cb e.
Proof.
  intros Hq. unfold UnityClient.send_handler, handler_lines.
  destruct e.
  1: { destruct (log_quiet cb UnityClient.refused_msg "error" w Hq) as (w1 & H1 & Hw1 & Ht1).
       destruct (log_quiet cb "   Make sure Unity is running." "warning" w1 Hq)
         as (w2 & H2 & Hw2 & Ht2).
       exists w2. rewrite (bind_run _ _ _ _ _ H1), (bind_run _ _ _ _ _ H2).
       split_and!; [done|congruence|].
       rewrite Ht2, Ht1. destruct cb; simpl; by rewrite <- ?(assoc_L (++)), ?app_nil_r. }
  all: match goal with |- context [UnityClient.error_msg ?e] =>
         destruct (log_quiet cb (UnityClient.error_msg e) "error" w Hq)
           as (w1 & H1 & Hw1 & Ht1) end;
       exists w1; rewrite (bind_run _ _ _ _ _ H1);
       split_and!; [done|done|]; rewrite Ht1; by destruct cb.
Qed.

Lemma refused_msg_distinct e : UnityClient.refused_msg ≠ UnityClient.error_msg e.
Proof. unfold UnityClient.refused_msg, UnityClient.error_msg. simpl. discriminate. Qed.

Lemma send_body_refused `{JsonEncoder P} (self : UnityClient.t)
    (obj_files : list (Z * string)) (patient_data : P) cb w :
  nothing_listening w → 0 ≤ UnityClient.timeout self →
  0 ≤ UnityClient.port self ≤ 65535 →
  ∃ w1, UnityClient.send_body self obj_files patient_data cb w
          = (Raise ConnectionRefusedError, w1) ∧
        wire w1 = wire w ∧ trace w1 = trace w.
Proof.
  intros (k & s & Hs) Ht Hp. unfold UnityClient.send_body.
  eexists. split.
  - erewrite bind_run; last first.
    { unfold socket.settimeout. rewrite decide_False by lia. done. }
    apply bind_raise. unfold socket.connect. rewrite decide_True by done.
    erewrite bind_run; last first.
    { unfold next_outcome. rewrite Hs. done. }
    done.
  - done.
Qed.

(** C6, amended. With a log callback that itself returns normally (or none),
    [UnityClient.send] always returns a boolean, whatever the endpoint, the
    network and the file system do.  Whenever the body fails with [e] the
    result is [False], nothing more is transmitted, and the callback receives
    the refusal lines for [ConnectionRefusedError] and the generic error line
    for every other exception; the two messages differ.  In particular an
    endpoint with nothing listening yields [False], an empty transmission and
    the refusal lines. *)
Theorem send_never_raises `{JsonEncoder P} (self : UnityClient.t)
    (obj_files : list (Z * string)) (patient_data : P)
    (log_callback : option callback) (w : world) :
  callback_quiet log_callback →
  ∃ b w',
    UnityClient.send self obj_files patient_data log_callback w = (Ok b, w') ∧
    (∀ e w1,
       UnityClient.send_body self obj_files patient_data log_callback w = (Raise e, w1) →
       b = false ∧ wire w' = wire w1 ∧
       trace w' = trace w1 ++ handler_lines log_callback e) ∧
    (∀ e, UnityClient.refused_msg ≠ UnityClient.error_msg e) ∧
    (nothing_listening w → 0 ≤ UnityClient.timeout self →
     0 ≤ UnityClient.port self ≤ 65535 →
     b = false ∧ wire w' = wire w ∧
     trace w' = trace w ++ handler_lines log_callback ConnectionRefusedError).
Proof.
  intros Hq. unfold UnityClient.send, try_except.
  destruct (UnityClient.send_body self obj_files patient_data log_callback w)
    as [[b|e] w1] eqn:Hbody.
  - exists b, w1. split_and!; [done| |apply refused_msg_distinct|].
    + intros ?? [=].
    + intros Hn Ht Hp.
      destruct (send_body_refused self obj_files patient_data log_callback w Hn Ht Hp)
        as (? & Hr & _). congruence.
  - destruct (send_handler_quiet log_callback e w1 Hq) as (w' & Hh & Hw & Htr).
    exists false, w'. split_and!; [done| |apply refused_msg_distinct|].
    + by intros ?? [= <- <-].
    + intros Hn Ht Hp.
      destruct (send_body_refused self obj_files patient_data log_callback w Hn Ht Hp)
        as (w2 & Hr & Hw2 & Ht2).
      rewrite Hbody in Hr. injection Hr as -> ->.
      split_and!; [done|congruence|]. by rewrite Htr, Ht2.
Qed.

(** ** Connected-component labelling *)

Lemma sum_list_fmap_lt {A} (f g : A → nat) (l : list A) :
  Forall (λ x, f x ≤ g x)%nat l → Exists (λ x, f x < g x)%nat l →
  (sum_list (f <$> l) < sum_list (g <$> l))%nat.
Proof.
  induction 1 as [|x l Hx Hl IH]; intros Hex; inversion_clear Hex; csimpl.
  - assert (sum_list (f <$> l) ≤ sum_list (g <$> l))%nat; [|lia].
    clear IH. induction Hl; csimpl; lia.
  - specialize (IH ltac:(done)). lia.
Qed.

Lemma StronglySorted_filter {A} (R : relation A) (P : A → Prop)
    `{∀ x, Decision (P x)} (l : list A) :
  StronglySorted R l → StronglySorted R (filter P l).
Proof.
  induction 1 as [|x l _ IH Hx]; [constructor|].
  rewrite filter_cons. case_decide; [|done].
  constructor; [done|]. rewrite Forall_forall in *.
  intros y [_ Hy]%list_elem_of_filter. by apply Hx.
Qed.

Lemma sorted_rank_inj {A} (rank : A → nat) (l : list A) :
  StronglySorted (λ p q, rank p < rank q)%nat l →
  ∀ p q, p ∈ l → q ∈ l → rank p = rank q → p = q.
Proof.
  induction 1 as [|x l _ IH Hx]; intros p q; [by intros ?%elem_of_nil|].
  rewrite Forall_forall in Hx.
  intros [->|Hp]%elem_of_cons [->|Hq]%elem_of_cons Hr; [done| | |by apply IH].
  - apply Hx in Hq. lia.
  - apply Hx in Hp. lia.
Qed.

Lemma sorted_rank_NoDup {A} (rank : A → nat) (l : list A) :
  StronglySorted (λ p q, rank p < rank q)%nat l → NoDup l.
Proof.
  induction 1 as [|x l _ IH Hx]; constructor; [|done].
  rewrite Forall_forall in Hx. intros ?%Hx. lia.
Qed.

Section labelling_correct.
Context `{Countable A}.
Variable nbrs : A → list A.
Variable rank : A → nat.
Variable fg : list A.

(** Adjacency is symmetric and the foreground is listed in raster order. *)
Hypothesis nbrs_sym : ∀ p q, q ∈ nbrs p → p ∈ nbrs q.
Hypothesis fg_sorted : StronglySorted (λ p q, rank p < rank q)%nat fg.

Lemma cc_adj_sym p q : cc_adj nbrs fg p q → cc_adj nbrs fg q p.
Proof. intros (?&?&?). split_and!; auto. Qed.

Lemma cc_conn_sym p q : cc_conn nbrs fg p q → cc_conn nbrs fg q p.
Proof.
  induction 1 as [|p q r Hpq _ IH]; [done|].
  eapply rtc_r; [apply IH | by apply cc_adj_sym].
Qed.

Lemma cc_conn_fg p q : cc_conn nbrs fg p q → p ∈ fg → q ∈ fg.
Proof. induction 1 as [|p q r (?&?&?) _ IH]; auto. Qed.

Lemma rank_inj p q : p ∈ fg → q ∈ fg → rank p = rank q → p = q.
Proof. by apply sorted_rank_inj. Qed.

Lemma fg_NoDup : NoDup fg.
Proof. by eapply sorted_rank_NoDup. Qed.

(** *** The relaxation step *)

Lemma cc_relax_le_self L p l : (cc_relax nbrs L p l ≤ l)%nat.
Proof.
  unfold cc_relax. induction (nbrs p) as [|q ns IH]; simpl; [done|].
  destruct (L !! q); lia.
Qed.

Lemma cc_relax_le_nbr L p l q m :
  q ∈ nbrs p → L !! q = Some m → (cc_relax nbrs L p l ≤ m)%nat.
Proof.
  unfold cc_relax. induction (nbrs p) as [|q' ns IH]; simpl.
  - by intros ?%elem_of_nil.
  - intros [->|Hq]%elem_of_cons Hm.
    + rewrite Hm. lia.
    + specialize (IH Hq Hm). destruct (L !! q'); lia.
Qed.

Lemma cc_relax_cases L p l :
  cc_relax nbrs L p l = l ∨
  ∃ q, q ∈ nbrs p ∧ L !! q = Some (cc_relax nbrs L p l).
Proof.
  unfold cc_relax. induction (nbrs p) as [|q ns IH]; simpl; [by left|].
  destruct IH as [IH|(q' & Hq' & IH)].
  - rewrite IH. destruct (L !! q) as [m|] eqn:Hm; [|by left].
    destruct (Nat.min_spec m l) as [[_ ->]|[_ ->]]; [|by left].
    right. exists q. split; [left|done].
  - destruct (L !! q) as [m|] eqn:Hm.
    + destruct (Nat.min_spec m (foldr
        (λ q acc, match L !! q with Some m => m `min` acc | None => acc end)%nat l ns))
        as [[_ ->]|[_ ->]].
      * right. exists q. split; [left|done].
      * right. exists q'. split; [by right|done].
    + right. exists q'. split; [by right|done].
Qed.

Lemma lookup_cc_step L p :
  cc_step nbrs L !! p = cc_relax nbrs L p <$> L !! p.
Proof. unfold cc_step. rewrite map_lookup_imap. by destruct (L !! p). Qed.

(** *** Invariants of the propagation *)

Lemma lookup_cc_init p :
  cc_init rank fg !! p = if decide (p ∈ fg) then Some (rank p) else None.
Proof.
  unfold cc_init. case_decide as Hp.
  - apply elem_of_list_to_map_1.
    + rewrite <- list_fmap_compose. simpl.
      change (fst ∘ (λ p, (p, rank p))) with (@id A). rewrite list_fmap_id.
      apply fg_NoDup.
    + apply list_elem_of_fmap. eauto.
  - apply not_elem_of_list_to_map_1.
    rewrite <- list_fmap_compose.
    change (fst ∘ (λ p, (p, rank p))) with (@id A). by rewrite list_fmap_id.
Qed.

Lemma cc_init_inv : cc_inv nbrs rank fg (cc_init rank fg).
Proof.
  split.
  - intros p. rewrite lookup_cc_init.
    case_decide; split; try done; try (intros _; by eexists); by intros [? ?].
  - intros p l. rewrite lookup_cc_init. case_decide; [|done].
    intros [= <-]. exists p. split_and!; [done|apply rtc_refl|done].
  - intros p l. rewrite lookup_cc_init. case_decide; [|done]. by intros [= <-].
Qed.

Lemma cc_step_inv L : cc_inv nbrs rank fg L → cc_inv nbrs rank fg (cc_step nbrs L).
Proof.
  intros [Hdom Hval Hle]. split; intros p; rewrite lookup_cc_step.
  - rewrite fmap_is_Some. apply Hdom.
  - intros l Hl. destruct (L !! p) as [l0|] eqn:Hp; simplify_eq/=.
    destruct (cc_relax_cases L p l0) as [->|(q & Hq & Hlq)]; [by apply Hval|].
    destruct (Hval q _ Hlq) as (r & Hr & Hqr & Hrank).
    exists r. split_and!; [done| |done].
    eapply rtc_l; [|apply Hqr]. split_and!; [|apply Hdom; eauto|done].
    apply Hdom. eauto.
  - intros l Hl. destruct (L !! p) as [l0|] eqn:Hp; simplify_eq/=.
    pose proof (cc_relax_le_self L p l0). specialize (Hle p l0 Hp). lia.
Qed.

Lemma cc_settle_inv fuel L : cc_inv nbrs rank fg L → cc_inv nbrs rank fg (cc_settle nbrs fuel L).
Proof.
  revert L. induction fuel as [|fuel IH]; intros L HL; simpl; [done|].
  case_decide; [done|]. by apply IH, cc_step_inv.
Qed.

(** *** Termination: the sum of the labels decreases *)

Lemma cc_step_total L :
  cc_inv nbrs rank fg L → cc_step nbrs L ≠ L → (cc_total fg (cc_step nbrs L) < cc_total fg L)%nat.
Proof.
  intros HL Hne. apply sum_list_fmap_lt.
  - apply Forall_forall. intros p _. rewrite lookup_cc_step.
    destruct (L !! p) as [l|]; simpl; [apply cc_relax_le_self | done].
  - destruct (decide (Forall (λ p, cc_step nbrs L !! p = L !! p) fg)) as [Hall|Hex].
    + destruct Hne. apply map_eq. intros p.
      destruct (decide (p ∈ fg)) as [Hp|Hp].
      * rewrite Forall_forall in Hall. by apply Hall.
      * rewrite lookup_cc_step.
        destruct (L !! p) as [l|] eqn:Hl; [|done].
        destruct Hp. apply (inv_dom _ _ _ L HL). eauto.
    + apply not_Forall_Exists in Hex; [|intros x; apply _].
      eapply Exists_impl; [apply Hex|].
      intros p Hp. simpl in Hp. rewrite lookup_cc_step in *.
      destruct (L !! p) as [l|]; simpl in *; [|done].
      pose proof (cc_relax_le_self L p l).
      destruct (decide (cc_relax nbrs L p l = l)) as [Heq|?]; [|lia].
      by rewrite Heq in Hp.
Qed.

Lemma cc_settle_stable fuel L :
  cc_inv nbrs rank fg L → (cc_total fg L < fuel)%nat →
  cc_step nbrs (cc_settle nbrs fuel L) = cc_settle nbrs fuel L.
Proof.
  revert L. induction fuel as [|fuel IH]; intros L HL Hlt; [lia|]. simpl.
  case_decide as Hst; [done|].
  apply IH; [by apply cc_step_inv|].
  pose proof (cc_step_total L HL Hst). lia.
Qed.

Lemma cc_total_init : (cc_total fg (cc_init rank fg) < cc_fuel rank fg)%nat.
Proof.
  unfold cc_total, cc_fuel.
  assert (Heq : Forall (λ p, default O (cc_init rank fg !! p) = rank p) fg).
  { apply Forall_forall. intros p Hp. rewrite lookup_cc_init. by rewrite decide_True. }
  rewrite (proj1 (Forall_fmap_ext _ _ _) Heq). lia.
Qed.
(** *** The settled labels *)

Lemma cc_final_inv : cc_inv nbrs rank fg (cc_final nbrs rank fg).
Proof. apply cc_settle_inv, cc_init_inv. Qed.

Lemma cc_final_stable :
  cc_step nbrs (cc_final nbrs rank fg) = cc_final nbrs rank fg.
Proof. apply cc_settle_stable; [apply cc_init_inv | apply cc_total_init]. Qed.

Lemma cc_final_adj p q a b :
  cc_adj nbrs fg p q → cc_final nbrs rank fg !! p = Some a →
  cc_final nbrs rank fg !! q = Some b → (a ≤ b)%nat.
Proof.
  intros (_ & _ & Hq) Ha Hb.
  pose proof (lookup_cc_step (cc_final nbrs rank fg) p) as Hst.
  rewrite cc_final_stable, Ha in Hst. injection Hst as Hst.
  rewrite Hst. by eapply cc_relax_le_nbr.
Qed.

Lemma cc_final_conn p q :
  cc_conn nbrs fg p q → cc_final nbrs rank fg !! p = cc_final nbrs rank fg !! q.
Proof.
  induction 1 as [|p q r Hpq _ IH]; [done|]. rewrite <- IH.
  pose proof Hpq as (Hp & Hq & _).
  apply (inv_dom _ _ _ _ cc_final_inv) in Hp as [a Ha].
  apply (inv_dom _ _ _ _ cc_final_inv) in Hq as [b Hb].
  pose proof (cc_final_adj _ _ _ _ Hpq Ha Hb).
  pose proof (cc_final_adj _ _ _ _ (cc_adj_sym _ _ Hpq) Hb Ha).
  rewrite Ha, Hb. f_equal. lia.
Qed.

Lemma cc_final_same p q :
  p ∈ fg → q ∈ fg →
  cc_final nbrs rank fg !! p = cc_final nbrs rank fg !! q → cc_conn nbrs fg p q.
Proof.
  intros Hp Hq Heq.
  apply (inv_dom _ _ _ _ cc_final_inv) in Hp as [a Ha].
  apply (inv_dom _ _ _ _ cc_final_inv) in Hq as [b Hb].
  destruct (inv_val _ _ _ _ cc_final_inv _ _ Ha) as (r & Hr & Hpr & Hra).
  destruct (inv_val _ _ _ _ cc_final_inv _ _ Hb) as (r' & Hr' & Hqr & Hrb).
  assert (r = r') as <-.
  { apply rank_inj; [done..|]. rewrite Ha, Hb in Heq. congruence. }
  etrans; [apply Hpr | by apply cc_conn_sym].
Qed.

(** *** Roots: the first node of each component *)

Lemma elem_of_cc_roots r :
  r ∈ cc_roots nbrs rank fg ↔
  r ∈ fg ∧ cc_final nbrs rank fg !! r = Some (rank r).
Proof. unfold cc_roots. rewrite list_elem_of_filter. tauto. Qed.

Lemma cc_root_exists p :
  p ∈ fg →
  ∃ r, r ∈ cc_roots nbrs rank fg ∧ cc_conn nbrs fg r p ∧
       cc_final nbrs rank fg !! p = Some (rank r).
Proof.
  intros Hp. pose proof Hp as [a Ha]%(inv_dom _ _ _ _ cc_final_inv).
  destruct (inv_val _ _ _ _ cc_final_inv _ _ Ha) as (r & Hr & Hpr & <-).
  exists r. split_and!; [|by apply cc_conn_sym|done].
  apply elem_of_cc_roots. split; [done|].
  by rewrite <- (cc_final_conn _ _ Hpr).
Qed.


Lemma cc_root_unique r r' p :
  r ∈ cc_roots nbrs rank fg → r' ∈ cc_roots nbrs rank fg →
  cc_conn nbrs fg r p → cc_conn nbrs fg r' p → r = r'.
Proof.
  intros Hr Hr' Hrp Hr'p.
  pose proof Hr as [Hfg Hl]%elem_of_cc_roots.
  pose proof Hr' as [Hfg' Hl']%elem_of_cc_roots.
  apply rank_inj; [done..|].
  rewrite (cc_final_conn _ _ Hrp), <- (cc_final_conn _ _ Hr'p), Hl' in Hl.
  congruence.
Qed.

Lemma cc_roots_sorted :
  StronglySorted (λ p q, rank p < rank q)%nat (cc_roots nbrs rank fg).
Proof. apply StronglySorted_filter, fg_sorted. Qed.

Lemma cc_roots_NoDup : NoDup (cc_roots nbrs rank fg).
Proof. eapply sorted_rank_NoDup, cc_roots_sorted. Qed.

(** *** The numbers written by the labelling *)

Lemma cc_label_bg p : p ∉ fg → cc_label nbrs rank fg p = O.
Proof.
  intros Hp. unfold cc_label.
  destruct (cc_final nbrs rank fg !! p) as [l|] eqn:Hl; [|done].
  destruct Hp. apply (inv_dom _ _ _ _ cc_final_inv). eauto.
Qed.

Lemma cc_label_of_root p r i :
  r ∈ fg → cc_roots nbrs rank fg !! i = Some r →
  cc_final nbrs rank fg !! p = Some (rank r) →
  cc_label nbrs rank fg p = S i.
Proof.
  intros Hfg Hi Hl. unfold cc_label. rewrite Hl.
  assert (Hfind : list_find (λ r', rank r' = rank r) (cc_roots nbrs rank fg)
                  = Some (i, r)).
  { apply list_find_Some. split_and!; [done..|].
    intros j y Hj Hlt Hrank.
    assert (y = r) as ->.
    { apply rank_inj; [|done..].
      eapply elem_of_cc_roots, list_elem_of_lookup_2, Hj. }
    pose proof (NoDup_lookup _ _ _ _ cc_roots_NoDup Hj Hi). lia. }
  by rewrite Hfind.
Qed.

Lemma cc_label_fg p i :
  p ∈ fg →
  cc_label nbrs rank fg p = S i ↔
  ∃ r, cc_roots nbrs rank fg !! i = Some r ∧ cc_conn nbrs fg r p.
Proof.
  intros Hp. destruct (cc_root_exists p Hp) as (r0 & Hr0 & Hconn & Hl).
  pose proof Hr0 as [i0 Hi0]%list_elem_of_lookup_1.
  pose proof Hr0 as [Hfg0 _]%elem_of_cc_roots.
  rewrite (cc_label_of_root p r0 i0 Hfg0 Hi0 Hl). split.
  - intros [= <-]. eauto.
  - intros (r & Hi & Hrp).
    assert (r = r0) as ->.
    { eapply cc_root_unique; [|done..]. by eapply list_elem_of_lookup_2. }
    f_equal. eapply NoDup_lookup; [apply cc_roots_NoDup|done..].
Qed.

Lemma cc_label_pos p :
  p ∈ fg → ∃ i, cc_label nbrs rank fg p = S i ∧ (i < length (cc_roots nbrs rank fg))%nat.
Proof.
  intros Hp. destruct (cc_root_exists p Hp) as (r0 & Hr0 & Hconn & Hl).
  pose proof Hr0 as [i0 Hi0]%list_elem_of_lookup_1.
  exists i0. split; [|by eapply lookup_lt_Some].
  apply cc_label_fg; eauto.
Qed.
End labelling_correct.

(** ** Arrays in raster order *)

Lemma elem_of_indices nx ny nz i j k :
  (i, j, k) ∈ indices (nx, ny, nz) ↔ (i < nx ∧ j < ny ∧ k < nz)%nat.
Proof.
  unfold indices. rewrite list_elem_of_bind. split.
  - intros (i' & (j' & (k' & Hk%list_elem_of_singleton & Hk')%list_elem_of_bind
                  & Hj')%list_elem_of_bind & Hi').
    simplify_eq. apply elem_of_seq in Hi', Hj', Hk'. lia.
  - intros (Hi & Hj & Hk). exists i. split; [|apply elem_of_seq; lia].
    apply list_elem_of_bind. exists j. split; [|apply elem_of_seq; lia].
    apply list_elem_of_bind. exists k. split; [|apply elem_of_seq; lia].
    by apply list_elem_of_singleton.
Qed.

Lemma fmap_bind_seq {A} (f : A → nat) (g : nat → list A) (a m n : nat) :
  (∀ j, j < n → f <$> g j = seq (a + j * m) m)%nat →
  f <$> (seq 0 n ≫= g) = seq a (n * m).
Proof.
  induction n as [|n IH]; intros Hg; [done|].
  rewrite seq_S, bind_app, fmap_app, IH by (intros; apply Hg; lia).
  cbn [mbind list_bind]. rewrite app_nil_r, Nat.add_0_l, Hg by lia.
  replace (S n * m)%nat with (n * m + m)%nat by lia.
  by rewrite seq_app.
Qed.

Lemma indices_raster nx ny nz :
  raster (nx, ny, nz) <$> indices (nx, ny, nz) = seq 0 (nx * (ny * nz)).
Proof.
  unfold indices. apply fmap_bind_seq. intros i _.
  replace (0 + i * (ny * nz))%nat with (i * ny * nz)%nat by lia.
  apply fmap_bind_seq. intros j _.
  replace (i * ny * nz + j * nz)%nat with ((i * ny + j) * nz)%nat by lia.
  etrans; [apply (fmap_bind_seq _ _ ((i * ny + j) * nz) 1 nz)|by rewrite Nat.mul_1_r].
  intros k _. simpl. do 2 f_equal. lia.
Qed.

Lemma sorted_of_fmap_seq {A} (f : A → nat) (l : list A) (a n : nat) :
  f <$> l = seq a n → StronglySorted (λ p q, f p < f q)%nat l.
Proof.
  revert a n. induction l as [|x l IH]; intros a n Hl; [constructor|].
  destruct n as [|n]; [done|]. rewrite fmap_cons in Hl. injection Hl as Hx Hl.
  constructor; [by eapply IH|].
  assert (Hall : Forall (λ y, a < y)%nat (f <$> l)).
  { rewrite Hl. apply Forall_seq. intros; lia. }
  rewrite Forall_fmap in Hall. eapply Forall_impl; [apply Hall|].
  simpl. intros; lia.
Qed.

Lemma indices_sorted sh :
  StronglySorted (λ p q, raster sh p < raster sh q)%nat (indices sh).
Proof. destruct sh as [[nx ny] nz]. eapply sorted_of_fmap_seq, indices_raster. Qed.

(** ** Face adjacency *)

Lemma face_neighbours_spec p q : q ∈ ndimage.face_neighbours p ↔ face_adjacent p q.
Proof.
  destruct p as [[i j] k], q as [[i' j'] k'].
  unfold ndimage.face_neighbours, face_adjacent, dist.
  rewrite !elem_of_app, !elem_of_cons. split.
  - intros [[?|[?|[?|?%elem_of_nil]]]|[?|[?|?]]]; simplify_eq; try lia; try done.
    + destruct i; [by apply elem_of_nil in H|].
      apply list_elem_of_singleton in H. simplify_eq. lia.
    + destruct j; [by apply elem_of_nil in H|].
      apply list_elem_of_singleton in H. simplify_eq. lia.
    + destruct k; [by apply elem_of_nil in H|].
      apply list_elem_of_singleton in H. simplify_eq. lia.
  - intros Hd.
    assert ((i' = S i ∧ j' = j ∧ k' = k) ∨ (i' = i ∧ j' = S j ∧ k' = k) ∨
            (i' = i ∧ j' = j ∧ k' = S k) ∨ (i = S i' ∧ j' = j ∧ k' = k) ∨
            (i' = i ∧ j = S j' ∧ k' = k) ∨ (i' = i ∧ j' = j ∧ k = S k'))%nat
      as [?|[?|[?|[?|[?|?]]]]] by lia; destruct_and!; subst.
    + left. by left.
    + left. right. by left.
    + left. do 2 right. by left.
    + right. left. by apply list_elem_of_singleton.
    + right. right. left. by apply list_elem_of_singleton.
    + right. right. right. by apply list_elem_of_singleton.
Qed.

Lemma face_adjacent_sym p q : face_adjacent p q → face_adjacent q p.
Proof.
  destruct p as [[i j] k], q as [[i' j'] k']. unfold face_adjacent, dist. lia.
Qed.

Lemma face_neighbours_sym p q :
  q ∈ ndimage.face_neighbours p → p ∈ ndimage.face_neighbours q.
Proof. rewrite !face_neighbours_spec. apply face_adjacent_sym. Qed.

(** ** Volume metrics *)

Lemma foreground_voxels_with nii tumor_label :
  ndimage.foreground (shape nii) (λ p, bool_decide (get_fdata nii p = tumor_label))
  = voxels_with nii tumor_label.
Proof.
  unfold ndimage.foreground, voxels_with. apply list_filter_iff.
  intros p. apply bool_decide_eq_true.
Qed.

Lemma voxels_with_sorted nii label :
  StronglySorted (λ p q, raster (shape nii) p < raster (shape nii) q)%nat
                 (voxels_with nii label).
Proof. apply StronglySorted_filter, indices_sorted. Qed.

Lemma cc_conn_same_component T p q :
  cc_conn ndimage.face_neighbours T p q ↔ same_component T p q.
Proof.
  unfold cc_conn, same_component, cc_adj.
  split; apply rtc_subrel; intros x y (?&?&?); split_and!; try done;
    by apply face_neighbours_spec.
Qed.

Lemma tumor_loop sh labeled vv (acc : list VolumeCalculator.tumor * Qc) a n :
  foldl (VolumeCalculator.tumor_step sh labeled vv) acc (seq a n) =
  (acc.1 ++ ((λ i, VolumeCalculator.Tumor i
                (round2 (VolumeCalculator.Qc_of_nat
                           (VolumeCalculator.count_eq sh labeled i) * vv))) <$> seq a n),
   foldl Qcplus acc.2
     ((λ i, round2 (VolumeCalculator.Qc_of_nat
                      (VolumeCalculator.count_eq sh labeled i) * vv)) <$> seq a n)).
Proof.
  revert acc a. induction n as [|n IH]; intros [ts tot] a; simpl.
  - by rewrite app_nil_r.
  - rewrite IH. unfold VolumeCalculator.tumor_step at 1 2. simpl.
    by rewrite <- (assoc_L (++)).
Qed.

(** The result of [metrics], field by field. *)
Lemma metrics_fields nii liver_label tumor_label :
  let m := VolumeCalculator.metrics nii liver_label tumor_label in
  let n := length (tumor_firsts nii tumor_label) in
  VolumeCalculator.liver_volume_ml m =
    round2 (VolumeCalculator.Qc_of_nat (length (voxels_with nii liver_label))
            * voxel_volume_ml nii) ∧
  VolumeCalculator.tumor_count m = n ∧
  VolumeCalculator.tumors m =
    (λ i, VolumeCalculator.Tumor i (component_volume nii tumor_label i)) <$> seq 1 n ∧
  VolumeCalculator.total_tumor_volume_ml m =
    (if decide (voxels_with nii tumor_label = []) then 0%Qc
     else round2 (foldl Qcplus 0%Qc
                    (VolumeCalculator.volume_ml <$> VolumeCalculator.tumors m))).
Proof.
  unfold VolumeCalculator.metrics, component_volume, voxel_volume_ml, tumor_firsts,
    tumor_labels.
  destruct (get_zooms nii) as [[sx sy] sz].
  unfold ndimage.label. rewrite foreground_voxels_with.
  change (VolumeCalculator.count_eq (shape nii)
            (λ p, bool_decide (get_fdata nii p = tumor_label)) true)
    with (length (ndimage.foreground (shape nii)
            (λ p, bool_decide (get_fdata nii p = tumor_label)))).
  rewrite foreground_voxels_with.
  case_decide as Hcnt.
  - rewrite tumor_loop. simpl.
    rewrite decide_False by (intros Hnil; rewrite Hnil in Hcnt; simpl in Hcnt; lia).
    split_and!; [done..|]. by rewrite <- list_fmap_compose.
  - assert (Hnil : voxels_with nii tumor_label = []).
    { destruct (voxels_with nii tumor_label); [done|simpl in Hcnt; lia]. }
    rewrite Hnil. by split_and!.
Qed.

(** *** Components in raster order *)


Lemma tumor_labels_component nii tumor_label i r :
  tumor_firsts nii tumor_label !! i = Some r →
  ∀ p, p ∈ filter (λ p, tumor_labels nii tumor_label p = S i) (indices (shape nii))
       ↔ same_component (voxels_with nii tumor_label) r p.
Proof.
  pose proof (voxels_with_sorted nii tumor_label) as Hs.
  pose proof face_neighbours_sym as Hsym.
  intros Hi p. rewrite list_elem_of_filter, <- cc_conn_same_component.
  unfold tumor_labels, tumor_firsts in *.
  assert (Hr : r ∈ voxels_with nii tumor_label).
  { eapply elem_of_cc_roots, list_elem_of_lookup_2, Hi. }
  split.
  - intros [Hl Hp].
    destruct (decide (p ∈ voxels_with nii tumor_label)) as [HT|HT].
    + apply (cc_label_fg _ _ _ Hsym Hs p i HT) in Hl as (r' & Hi' & Hc). congruence.
    + by rewrite (cc_label_bg _ _ _ Hs p HT) in Hl.
  - intros Hc. pose proof (cc_conn_fg _ _ _ _ Hc Hr) as HT. split.
    + apply (cc_label_fg _ _ _ Hsym Hs p i HT). eauto.
    + unfold voxels_with in HT. by apply list_elem_of_filter in HT as [_ ?].
Qed.




(** *** Counting the voxels of each tumor *)

Lemma length_filter_or {A} (P Q R : A → Prop) `{∀ x, Decision (P x)}
    `{∀ x, Decision (Q x)} `{∀ x, Decision (R x)} (l : list A) :
  (∀ x, R x ↔ P x ∨ Q x) → (∀ x, P x → Q x → False) →
  length (filter R l) = (length (filter P l) + length (filter Q l))%nat.
Proof.
  intros HR Hdis. induction l as [|x l IH]; [done|].
  rewrite !filter_cons.
  destruct (decide (P x)) as [HP|HP], (decide (Q x)) as [HQ|HQ];
    [by destruct (Hdis x)|..];
    (destruct (decide (R x)) as [Hx|Hx];
       [|try (destruct Hx; apply HR; tauto)]);
    try (apply HR in Hx; tauto); simpl; lia.
Qed.

(** The voxels numbered [a], [a+1], ... [a+n-1], counted number by number. *)
Lemma count_partition {A} (f : A → nat) (l : list A) (a n : nat) :
  sum_list ((λ i, length (filter (λ p, f p = i) l)) <$> seq a n)
  = length (filter (λ p, a ≤ f p < a + n)%nat l).
Proof.
  revert a. induction n as [|n IH]; intros a.
  - simpl. induction l as [|x l IHl]; [done|].
    rewrite filter_cons_False by lia. done.
  - cbn [seq fmap list_fmap sum_list]. rewrite IH.
    symmetry. apply length_filter_or; intros x; lia.
Qed.

Lemma filter_ext_in {A} (P Q : A → Prop) `{∀ x, Decision (P x)}
    `{∀ x, Decision (Q x)} (l : list A) :
  (∀ x, x ∈ l → P x ↔ Q x) → filter P l = filter Q l.
Proof.
  induction l as [|x l IH]; intros Hext; [done|].
  rewrite !filter_cons, IH by (intros y Hy; apply Hext; by right).
  destruct (decide (P x)) as [HP|HP], (decide (Q x)) as [HQ|HQ]; try done;
    destruct (Hext x); try (by left); tauto.
Qed.

Lemma tumor_voxels_numbered nii tumor_label :
  filter (λ p, 1 ≤ tumor_labels nii tumor_label p
               < 1 + length (tumor_firsts nii tumor_label))%nat (indices (shape nii))
  = voxels_with nii tumor_label.
Proof.
  pose proof (voxels_with_sorted nii tumor_label) as Hs.
  pose proof face_neighbours_sym as Hsym.
  unfold voxels_with. apply filter_ext_in. intros p Hp.
  fold (voxels_with nii tumor_label) in *.
  unfold tumor_labels, tumor_firsts.
  destruct (decide (p ∈ voxels_with nii tumor_label)) as [HT|HT].
  - destruct (cc_label_pos _ _ _ Hsym Hs p HT) as (i & -> & Hi).
    apply list_elem_of_filter in HT as [HT _]. split; [done|lia].
  - rewrite (cc_label_bg _ _ _ Hs p HT). split; [lia|].
    intros Hd. destruct HT. by apply list_elem_of_filter.
Qed.

(** Every tumor voxel is counted in exactly one tumor. *)
Lemma tumor_counts_add_up nii tumor_label :
  sum_list ((λ i, VolumeCalculator.count_eq (shape nii) (tumor_labels nii tumor_label) i)
              <$> seq 1 (length (tumor_firsts nii tumor_label)))
  = length (voxels_with nii tumor_label).
Proof.
  unfold VolumeCalculator.count_eq.
  by rewrite (count_partition (tumor_labels nii tumor_label)), tumor_voxels_numbered.
Qed.

(** *** The computation over any arithmetic *)

Lemma tumor_loop_F `{Scalars F} sh labeled vv (acc : list (VolumeCalculatorF.tumor F) * F) a n :
  foldl (VolumeCalculatorF.tumor_step sh labeled vv) acc (seq a n) =
  (acc.1 ++ ((λ i, VolumeCalculatorF.Tumor i
                (fround2 (fmul (fcount (VolumeCalculator.count_eq sh labeled i)) vv)))
               <$> seq a n),
   foldl fadd acc.2
     ((λ i, fround2 (fmul (fcount (VolumeCalculator.count_eq sh labeled i)) vv))
        <$> seq a n)).
Proof.
  revert acc a. induction n as [|n IH]; intros [ts tot] a; simpl.
  - by rewrite app_nil_r.
  - rewrite IH. unfold VolumeCalculatorF.tumor_step at 1 2. simpl.
    by rewrite <- (assoc_L (++)).
Qed.

Lemma metrics_F_fields `{Scalars F} nii liver_label tumor_label :
  let m := VolumeCalculatorF.metrics nii liver_label tumor_label in
  let sizes := component_sizes nii tumor_label in
  VolumeCalculatorF.liver_volume_ml m
    = rounded_volume nii (length (voxels_with nii liver_label)) ∧
  VolumeCalculatorF.tumor_count m = length (tumor_firsts nii tumor_label) ∧
  VolumeCalculatorF.tumors m =
    zip_with (λ i c, VolumeCalculatorF.Tumor i (rounded_volume nii c))
             (seq 1 (length sizes)) sizes ∧
  VolumeCalculatorF.total_tumor_volume_ml m =
    (if decide (voxels_with nii tumor_label = []) then fzero
     else fround2 (running_total (rounded_volume nii <$> sizes))).
Proof.
  unfold VolumeCalculatorF.metrics, rounded_volume, voxel_volume, component_sizes,
    running_total, tumor_firsts, tumor_labels.
  destruct (get_zooms nii) as [[sx sy] sz].
  unfold ndimage.label. rewrite foreground_voxels_with.
  change (VolumeCalculator.count_eq (shape nii)
            (λ p, bool_decide (get_fdata nii p = tumor_label)) true)
    with (length (ndimage.foreground (shape nii)
            (λ p, bool_decide (get_fdata nii p = tumor_label)))).
  rewrite foreground_voxels_with.
  set (n := length (cc_roots _ _ _)).
  assert (Hzip : ∀ (g : nat → F) (f : nat → nat) a k,
            zip_with (λ i c, VolumeCalculatorF.Tumor i (g c)) (seq a k) (f <$> seq a k)
            = (λ i, VolumeCalculatorF.Tumor i (g (f i))) <$> seq a k).
  { intros g f a k. revert a. induction k as [|k IH]; intros a; [done|].
    cbn [seq fmap list_fmap zip_with]. by rewrite IH. }
  rewrite length_fmap, length_seq, Hzip.
  case_decide as Hcnt.
  - rewrite tumor_loop_F. simpl.
    rewrite decide_False by (intros Hnil; rewrite Hnil in Hcnt; simpl in Hcnt; lia).
    split_and!; [done..|]. by rewrite <- list_fmap_compose.
  - assert (Hnil : voxels_with nii tumor_label = []).
    { destruct (voxels_with nii tumor_label); [done|simpl in Hcnt; lia]. }
    subst n. rewrite Hnil. by split_and!.
Qed.

(** At exact rational arithmetic the computation is [VolumeCalculator]'s. *)
Lemma metrics_exact nii liver_label tumor_label :
  let m := VolumeCalculator.metrics nii liver_label tumor_label in
  let m' := VolumeCalculatorF.metrics (H := exact_scalars) nii liver_label tumor_label in
  VolumeCalculatorF.liver_volume_ml m' = VolumeCalculator.liver_volume_ml m ∧
  VolumeCalculatorF.tumor_count m' = VolumeCalculator.tumor_count m ∧
  VolumeCalculatorF.total_tumor_volume_ml m' = VolumeCalculator.total_tumor_volume_ml m ∧
  (VolumeCalculatorF.id <$> VolumeCalculatorF.tumors m')
    = (VolumeCalculator.id <$> VolumeCalculator.tumors m) ∧
  (VolumeCalculatorF.volume_ml <$> VolumeCalculatorF.tumors m')
    = (VolumeCalculator.volume_ml <$> VolumeCalculator.tumors m).
Proof.
  unfold VolumeCalculator.metrics, VolumeCalculatorF.metrics.
  destruct (get_zooms nii) as [[sx sy] sz]. cbn zeta.
  case_decide; [|done].
  destruct (ndimage.label _ _) as [labeled n].
  rewrite tumor_loop, tumor_loop_F. simpl.
  rewrite <- !list_fmap_compose. done.
Qed.

Lemma component_sizes_positive nii tumor_label :
  Forall (λ c, 1 ≤ c)%nat (component_sizes nii tumor_label).
Proof.
  unfold component_sizes. apply Forall_fmap, Forall_forall.
  intros i [Hlo Hhi]%elem_of_seq. destruct i as [|i]; [lia|].
  destruct (lookup_lt_is_Some_2 (tumor_firsts nii tumor_label) i) as [r Hr]; [lia|].
  pose proof (tumor_labels_component nii tumor_label i r Hr r) as [_ Hin].
  specialize (Hin (rtc_refl _ _)). simpl. unfold VolumeCalculator.count_eq.
  destruct (filter _ _) as [|p l]; [by apply elem_of_nil in Hin | simpl; lia].
Qed.

Lemma component_sizes_sum nii tumor_label :
  sum_list (component_sizes nii tumor_label) = length (voxels_with nii tumor_label).
Proof. apply tumor_counts_add_up. Qed.

(** *** One image file on disk, for concrete runs *)

(** ** C5 *)



(** ** C8 *)

(** C8. In every result of [calculate], whatever arithmetic the interpreter
    uses: the tumors carry the ids 1, 2, ...; the volume of each is its voxel
    count times the voxel volume, rounded to 2 decimals; and
    [total_tumor_volume_ml] is the running total of these rounded volumes,
    added up from [0.0] in the order of the ids and then itself rounded to
    2 decimals (it stays [0.0], unrounded, when there is no tumor). *)
Theorem total_is_sum_of_rounded_parts `{Scalars F} `{Nibabel} (nifti_path : string)
    (nii : nifti) (liver_label tumor_label : Z) :
  nib_load nifti_path = Ok nii →
  ∃ m, VolumeCalculatorF.calculate nifti_path liver_label tumor_label = Ok m ∧
    let sizes := component_sizes nii tumor_label in
    let parts := VolumeCalculatorF.volume_ml <$> VolumeCalculatorF.tumors m in
    VolumeCalculatorF.id <$> VolumeCalculatorF.tumors m = seq 1 (length sizes) ∧
    parts = rounded_volume nii <$> sizes ∧
    VolumeCalculatorF.total_tumor_volume_ml m =
      match parts with
      | [] => fzero
      | _ :: _ => fround2 (running_total parts)
      end.
Proof.
  intros Hload. unfold VolumeCalculatorF.calculate. rewrite Hload.
  eexists. split; [done|]. cbn zeta.
  destruct (metrics_F_fields nii liver_label tumor_label) as (_ & Hcnt & Hts & Htot).
  cbn zeta in Hts, Htot. rewrite Htot, Hts.
  assert (Hlen : length (component_sizes nii tumor_label)
                 = length (tumor_firsts nii tumor_label)).
  { unfold component_sizes. by rewrite length_fmap, length_seq. }
  assert (Hids : ∀ (g : nat → F) (cs : list nat) a,
            VolumeCalculatorF.id <$>
              zip_with (λ i c, VolumeCalculatorF.Tumor i (g c)) (seq a (length cs)) cs
            = seq a (length cs)).
  { intros g cs. induction cs as [|c cs IH]; intros a; [done|].
    cbn [length seq zip_with fmap list_fmap]. by rewrite IH. }
  assert (Hvols : ∀ (g : nat → F) (cs : list nat) a,
            VolumeCalculatorF.volume_ml <$>
              zip_with (λ i c, VolumeCalculatorF.Tumor i (g c)) (seq a (length cs)) cs
            = g <$> cs).
  { intros g cs. induction cs as [|c cs IH]; intros a; [done|].
    cbn [length seq zip_with fmap list_fmap]. by rewrite IH. }
  rewrite Hids, Hvols. split_and!; [done|done|].
  case_decide as HT.
  - assert (component_sizes nii tumor_label = []) as ->; [|done].
    unfold component_sizes, tumor_firsts, cc_roots. by rewrite HT.
  - destruct (component_sizes nii tumor_label) as [|c cs] eqn:Hs; [|done].
    exfalso. pose proof (component_sizes_sum nii tumor_label) as Hsum.
    rewrite Hs in Hsum. simpl in Hsum.
    destruct (voxels_with nii tumor_label); [done | simpl in Hsum; lia].
Qed.

Lemma total_is_sum_of_rounded_parts_witness :
  nib_load (Nibabel := single_file "seg.nii.gz" thick_slices) "seg.nii.gz"
    = Ok thick_slices ∧
  ∃ m, VolumeCalculatorF.calculate (H := exact_scalars)
         (H0 := single_file "seg.nii.gz" thick_slices)
         "seg.nii.gz" LIVER_LABEL TUMOR_LABEL = Ok m ∧
       VolumeCalculatorF.volume_ml <$> VolumeCalculatorF.tumors m
         = [Q2Qc (1 # 100); Q2Qc (1 # 100)] ∧
       VolumeCalculatorF.total_tumor_volume_ml m = Q2Qc (2 # 100).
Proof.
  split; [reflexivity|].
  destruct (total_is_sum_of_rounded_parts (H := exact_scalars)
              (H0 := single_file "seg.nii.gz" thick_slices)
              "seg.nii.gz" thick_slices LIVER_LABEL TUMOR_LABEL eq_refl)
    as (m & Hm & _ & Hparts & Htot).
  exists m. split; [exact Hm|].
  assert (Hsizes : component_sizes thick_slices TUMOR_LABEL = [1; 1]%nat)
    by (vm_compute; reflexivity).
  rewrite Hsizes in Hparts.
  assert (Hvol : rounded_volume (H := exact_scalars) thick_slices 1 = Q2Qc (1 # 100))
    by (apply Qc_is_canon; reflexivity).
  cbn [fmap list_fmap] in Hparts. rewrite Hvol in Hparts.
  split; [exact Hparts|].
  rewrite Htot, Hparts. apply Qc_is_canon. reflexivity.
Defined.

(** ** C2 *)

(** C2, as stated, fails: a volume with zero and negative spacing is not
    rejected; [calculate] returns metrics for it. *)
Lemma nonpositive_spacing_accepted :
  nonpositive_spacing flat_volume ∧
  VolumeCalculator.calculate (H := single_file "seg.nii.gz" flat_volume)
    "seg.nii.gz" LIVER_LABEL TUMOR_LABEL
  = Ok (VolumeCalculator.metrics flat_volume LIVER_LABEL TUMOR_LABEL) ∧
  ¬ ∃ e, VolumeCalculator.calculate (H := single_file "seg.nii.gz" flat_volume)
           "seg.nii.gz" LIVER_LABEL TUMOR_LABEL = Raise e.
Proof.
  split_and!.
  - left. done.
  - reflexivity.
  - intros [e He]. discriminate He.
Qed.

(** C2, amended. [calculate] does not inspect the spacing: it raises exactly
    when loading the file raises, and otherwise returns the metrics computed
    from whatever spacing the header holds, the liver volume being the liver
    voxel count times the voxel volume (the product of the three spacings,
    divided by 1000.0), rounded to 2 decimals, in the interpreter's
    arithmetic. *)
Theorem calculate_raises_only_on_load `{Scalars F} `{Nibabel} (nifti_path : string)
    (liver_label tumor_label : Z) :
  match nib_load nifti_path with
  | Ok nii =>
      VolumeCalculatorF.calculate nifti_path liver_label tumor_label
        = Ok (VolumeCalculatorF.metrics nii liver_label tumor_label) ∧
      VolumeCalculatorF.liver_volume_ml
        (VolumeCalculatorF.metrics nii liver_label tumor_label)
        = fround2 (fmul (fcount (length (voxels_with nii liver_label)))
                        (voxel_volume nii))
  | Raise e =>
      VolumeCalculatorF.calculate nifti_path liver_label tumor_label = Raise e
  end.
Proof.
  unfold VolumeCalculatorF.calculate.
  destruct (nib_load nifti_path) as [nii|e]; [|done].
  split; [done|]. apply metrics_F_fields.
Qed.

(** ** C3 *)

(** C3, as stated, fails: the reported liver volume of one 1 mm³ voxel is
    not 0.001 ml. *)
Lemma one_liver_voxel_not_a_thousandth :
  length (voxels_with one_liver_voxel LIVER_LABEL) = 1%nat ∧
  ∃ m, VolumeCalculator.calculate (H := single_file "seg.nii.gz" one_liver_voxel)
         "seg.nii.gz" LIVER_LABEL TUMOR_LABEL = Ok m ∧
       VolumeCalculator.liver_volume_ml m ≠ Q2Qc (Qmake 1 1000).
Proof.
  split; [reflexivity|]. eexists. split; [reflexivity|].
  intros Heq. apply (f_equal this) in Heq. vm_compute in Heq. discriminate Heq.
Qed.

(** C3, amended. For a volume with exactly one liver voxel and spacing
    (1, 1, 1) mm, [calculate] returns [liver_volume_ml = 0.0]: the 0.001 ml
    of the voxel rounded to 2 decimals. *)
Theorem one_liver_voxel_rounds_to_zero `{Nibabel} (nifti_path : string) (nii : nifti)
    (liver_label tumor_label : Z) :
  nib_load nifti_path = Ok nii →
  get_zooms nii = (1, 1, 1)%Qc →
  length (voxels_with nii liver_label) = 1%nat →
  ∃ m, VolumeCalculator.calculate nifti_path liver_label tumor_label = Ok m ∧
       VolumeCalculator.liver_volume_ml m = 0%Qc.
Proof.
  intros Hload Hz Hone. unfold VolumeCalculator.calculate. rewrite Hload.
  eexists. split; [done|].
  destruct (metrics_fields nii liver_label tumor_label) as (-> & _).
  unfold voxel_volume_ml. rewrite Hz, Hone.
  apply Qc_is_canon. reflexivity.
Qed.

Lemma one_liver_voxel_rounds_to_zero_witness :
  nib_load (Nibabel := single_file "seg.nii.gz" one_liver_voxel) "seg.nii.gz"
    = Ok one_liver_voxel ∧
  get_zooms one_liver_voxel = (1, 1, 1)%Qc ∧
  length (voxels_with one_liver_voxel LIVER_LABEL) = 1%nat ∧
  ∃ m, VolumeCalculator.calculate (H := single_file "seg.nii.gz" one_liver_voxel)
         "seg.nii.gz" LIVER_LABEL TUMOR_LABEL = Ok m ∧
       VolumeCalculator.liver_volume_ml m = 0%Qc.
Proof.
  split_and!; [reflexivity..|].
  apply (one_liver_voxel_rounds_to_zero (H := single_file "seg.nii.gz" one_liver_voxel)
           "seg.nii.gz" one_liver_voxel LIVER_LABEL TUMOR_LABEL); reflexivity.
Defined.

(** ** The cache *)

(** Feeding a file to the digest in 4096-byte chunks feeds its contents. *)
Lemma read_chunks_fed fuel (fed rest : list byte) :
  (length rest ≤ fuel)%nat →
  foldl (λ fed chunk, fed ++ chunk) fed (read_chunks fuel rest) = fed ++ rest.
Proof.
  revert fed rest. induction fuel as [|fuel IH]; intros fed rest Hlen.
  - destruct rest; [by rewrite app_nil_r | simpl in Hlen; lia].
  - destruct rest as [|b rest]; [by rewrite app_nil_r|].
    change (read_chunks (S fuel) (b :: rest))
      with (take 4096 (b :: rest) :: read_chunks fuel (drop 4096 (b :: rest))).
    cbn [foldl]. rewrite IH.
    + by rewrite <- (assoc_L (++)), take_drop.
    + rewrite length_drop. simpl in *. lia.
Qed.

Lemma get_hash_Ok `{Md5} file_path content w :
  files w !! file_path = Some content →
  PredictionCache._get_hash file_path w = (Ok (md5_hexdigest content), w).
Proof.
  intros Hf. unfold PredictionCache._get_hash.
  erewrite bind_run; [|unfold read_file; by rewrite Hf].
  by rewrite read_chunks_fed.
Qed.

Lemma get_hash_missing `{Md5} file_path w :
  files w !! file_path = None →
  PredictionCache._get_hash file_path w = (Raise (FileNotFoundError file_path), w).
Proof.
  intros Hf. unfold PredictionCache._get_hash.
  apply bind_raise. unfold read_file. by rewrite Hf.
Qed.

Lemma all_exist_spec (obj_files : list (Z * string)) w :
  PredictionCache.all_exist obj_files w =
  (Ok (bool_decide (Forall (λ p, is_Some (files w !! p)) obj_files.*2)), w).
Proof.
  induction obj_files as [|[label obj_path] rest IH].
  - done.
  - cbn [PredictionCache.all_exist]. erewrite bind_run; [|reflexivity].
    destruct (decide (is_Some (files w !! obj_path))) as [Hex|Hno].
    + rewrite (bool_decide_eq_true_2 _ Hex), IH. do 2 f_equal.
      apply bool_decide_ext. rewrite fmap_cons, Forall_cons. simpl. tauto.
    + rewrite (bool_decide_eq_false_2 _ Hno).
      rewrite (bool_decide_eq_false_2 (Forall _ _)); [done|].
      rewrite fmap_cons, Forall_cons. simpl. tauto.
Qed.

(** [is_cached] on a world where the image is readable and its hash is
    known, the entry listing the pairs [l]. *)
Lemma is_cached_known `{Md5} self image_path content entry d l w :
  files w !! image_path = Some content →
  index w !! md5_hexdigest content = Some entry →
  heap w !! entry = Some d →
  default (PyPairs []) (d !! "obj_files") = PyPairs l →
  PredictionCache.is_cached self image_path w =
  (Ok (bool_decide (Forall (λ p, is_Some (files w !! p)) l.*2)), w).
Proof.
  intros Hf Hix Hh Hl. unfold PredictionCache.is_cached.
  rewrite (bind_run _ _ _ _ _ (get_hash_Ok _ _ _ Hf)).
  erewrite bind_run; [|reflexivity]. rewrite Hix.
  erewrite bind_run; [|unfold deref; by rewrite Hh].
  rewrite Hl. apply all_exist_spec.
Qed.

Lemma is_cached_unknown `{Md5} self image_path content w :
  files w !! image_path = Some content →
  index w !! md5_hexdigest content = None →
  PredictionCache.is_cached self image_path w = (Ok false, w).
Proof.
  intros Hf Hix. unfold PredictionCache.is_cached.
  rewrite (bind_run _ _ _ _ _ (get_hash_Ok _ _ _ Hf)).
  erewrite bind_run; [|reflexivity]. by rewrite Hix.
Qed.

(** What [save] has done to the objects by the time it writes the index
    file, whether or not the write then succeeds. *)
Lemma save_effect `{Md5} `{JsonDump (gmap string pydict)} self image_path
    result content d w :
  files w !! image_path = Some content →
  heap w !! result = Some d →
  ∃ r w',
    PredictionCache.save self image_path result w = (r, w') ∧
    heap w' = <[result := <["timestamp" := PyStr (current_time w)]> d]> (heap w) ∧
    index w' = <[md5_hexdigest content := result]> (index w) ∧
    (∀ p, p ≠ PredictionCache.cache_file self → files w' !! p = files w !! p) ∧
    (r = Ok tt → is_Some (files w' !! PredictionCache.cache_file self)).
Proof.
  intros Hf Hh. unfold PredictionCache.save.
  rewrite (bind_run _ _ _ _ _ (get_hash_Ok _ _ _ Hf)).
  set (stamped := <[result := <["timestamp" := PyStr (current_time w)]> d]> (heap w)).
  set (ix := <[md5_hexdigest content := result]> (index w)).
  assert (Hnow : ∃ w1, datetime_now_isoformat w = (Ok (current_time w), w1) ∧
            heap w1 = heap w ∧ index w1 = index w ∧ files w1 = files w).
  { unfold datetime_now_isoformat, current_time. destruct (clock w); eauto. }
  destruct Hnow as (w1 & Hnow & Hh1 & Hi1 & Hf1).
  rewrite (bind_run _ _ _ _ _ Hnow).
  erewrite bind_run; last first.
  { unfold setitem. erewrite bind_run; [|unfold deref; by rewrite Hh1, Hh].
    reflexivity. }
  erewrite bind_run; [|reflexivity].
  erewrite bind_run; [|reflexivity].
  erewrite bind_run; [|reflexivity].
  erewrite bind_run; [|reflexivity].
  simpl. rewrite Hh1, Hi1. fold stamped ix.
  unfold write_file.
  set (w2 := with_index ix (with_heap stamped w1)).
  destruct (next_outcome_total w2) as (o & w3 & Ho & _).
  pose proof (next_outcome_Ok _ _ _ Ho) as [_ Hf3].
  assert (Hh3 : heap w3 = stamped ∧ index w3 = ix).
  { unfold next_outcome in Ho. destruct (script w2); by injection Ho as <- <-. }
  destruct Hh3 as [Hh3 Hi3].
  rewrite (bind_run _ _ _ _ _ Ho). destruct o as [|e k].
  - unfold store_file.
    destruct (json_dump (PredictionCache.resolve stamped ix)) as [out [e|]]; simpl;
      eexists _, _; (split; [reflexivity|]); simpl;
      (split_and!; [done|done| |]).
    + intros p Hp. by rewrite lookup_insert_ne, Hf3, <- Hf1.
    + intros [=].
    + intros p Hp. by rewrite lookup_insert_ne, Hf3, <- Hf1.
    + intros _. rewrite lookup_insert_eq. by eexists.
  - eexists _, _. split; [reflexivity|]. split_and!; [done|done| |intros [=]].
    intros p _. by rewrite Hf3, <- Hf1.
Qed.

(** *** Concrete runs: a disk with one scan and one mesh *)

(** ** C9 *)

(** C9. For an image whose content hash is not a key of the index,
    [PredictionCache.get] returns [None] and does not raise, whether or not
    [is_cached] was consulted before. *)
Theorem get_unknown_returns_None `{Md5} (self : PredictionCache.t)
    (image_path : string) (content : list byte) (w : world) :
  files w !! image_path = Some content →
  index w !! md5_hexdigest content = None →
  PredictionCache.get self image_path w = (Ok None, w).
Proof.
  intros Hf Hix. unfold PredictionCache.get.
  rewrite (bind_run _ _ _ _ _ (get_hash_Ok _ _ _ Hf)).
  erewrite bind_run; [|reflexivity]. by rewrite Hix.
Qed.

Lemma get_unknown_returns_None_witness :
  files disk_world !! "scan.nii.gz" = Some [x01; x02; x03] ∧
  index disk_world !! md5_hexdigest (Md5 := length_digest) [x01; x02; x03] = None ∧
  PredictionCache.get (H := length_digest) the_cache "scan.nii.gz" disk_world
    = (Ok None, disk_world).
Proof.
  split_and!; [reflexivity..|].
  apply (get_unknown_returns_None (H := length_digest) the_cache "scan.nii.gz"
           [x01; x02; x03] disk_world); reflexivity.
Defined.

(** ** C10 *)

(** C10. [PredictionCache.save] on a readable image writes the current time
    under ["timestamp"] into the very dict object it was handed (same
    reference, every other key as before, every other object untouched) and
    puts that reference, not a copy, into the index under the content hash
    of the image; this holds whether or not writing the index file then
    succeeds. *)
Theorem save_stamps_entry_in_place `{Md5} `{JsonDump (gmap string pydict)}
    (self : PredictionCache.t) (image_path : string) (result : loc)
    (content : list byte) (d : pydict) (w : world) :
  files w !! image_path = Some content →
  heap w !! result = Some d →
  ∃ r w' d',
    PredictionCache.save self image_path result w = (r, w') ∧
    heap w' !! result = Some d' ∧
    d' !! "timestamp" = Some (PyStr (current_time w)) ∧
    (∀ key, key ≠ "timestamp" → d' !! key = d !! key) ∧
    (∀ other, other ≠ result → heap w' !! other = heap w !! other) ∧
    index w' !! md5_hexdigest content = Some result ∧
    (∀ key, key ≠ md5_hexdigest content → index w' !! key = index w !! key).
Proof.
  intros Hf Hh.
  destruct (save_effect self image_path result content d w Hf Hh)
    as (r & w' & Hsave & Hheap & Hix & _).
  exists r, w', (<["timestamp" := PyStr (current_time w)]> d).
  rewrite Hheap, Hix. split_and!; [done|..].
  - apply lookup_insert_eq.
  - apply lookup_insert_eq.
  - intros key Hkey. by apply lookup_insert_ne.
  - intros other Ho. by apply lookup_insert_ne.
  - apply lookup_insert_eq.
  - intros key Hkey. by apply lookup_insert_ne.
Qed.

Lemma save_stamps_entry_in_place_witness :
  files disk_world !! "scan.nii.gz" = Some [x01; x02; x03] ∧
  heap disk_world !! O = Some liver_entry ∧
  ∃ r w' d',
    PredictionCache.save (H := length_digest) (H0 := blank_dump)
      the_cache "scan.nii.gz" O disk_world = (r, w') ∧
    heap w' !! O = Some d' ∧
    d' !! "timestamp" = Some (PyStr "2026-01-01T12:00:00") ∧
    index w' !! "3" = Some O.
Proof.
  split_and!; [reflexivity..|].
  destruct (save_stamps_entry_in_place (H := length_digest) (H0 := blank_dump)
              the_cache "scan.nii.gz" O [x01; x02; x03] liver_entry disk_world
              eq_refl eq_refl)
    as (r & w' & d' & Hsave & Hd' & Hts & _ & _ & Hix & _).
  exists r, w', d'. split_and!; [exact Hsave | exact Hd' | exact Hts | exact Hix].
Defined.

(** ** C4 *)

(** C4, as stated, fails: after a save whose entry lists an existing file,
    [is_cached] is true; deleting that listed file makes [is_cached] raise
    [FileNotFoundError] instead of returning false when the file is the
    image itself. *)
Lemma is_cached_raises_when_image_deleted :
  ∃ w1,
    PredictionCache.save (H := length_digest) (H0 := blank_dump)
      the_cache "scan.nii.gz" O self_listing_world = (Ok tt, w1) ∧
    PredictionCache.is_cached (H := length_digest) the_cache "scan.nii.gz" w1
      = (Ok true, w1) ∧
    let w2 := with_files (delete "scan.nii.gz" (files w1)) w1 in
    PredictionCache.is_cached (H := length_digest) the_cache "scan.nii.gz" w2
      = (Raise (FileNotFoundError "scan.nii.gz"), w2).
Proof. eexists. split_and!; vm_compute; reflexivity. Qed.

(** C4, amended. Let [save] return normally for an entry whose listed mesh
    files all exist, the image not being the index file of the cache.  Then
    [is_cached] is true right after; once any one listed mesh file other than
    the image itself is deleted, [is_cached] is false; and [is_cached] is
    false for any readable image whose content hash is not in the index. *)
Theorem is_cached_after_save `{Md5} `{JsonDump (gmap string pydict)}
    (self : PredictionCache.t) (image_path : string) (result : loc)
    (d : pydict) (l : list (Z * string)) (w w1 : world) :
  PredictionCache.save self image_path result w = (Ok tt, w1) →
  heap w !! result = Some d →
  default (PyPairs []) (d !! "obj_files") = PyPairs l →
  Forall (λ p, is_Some (files w !! p)) l.*2 →
  image_path ≠ PredictionCache.cache_file self →
  PredictionCache.is_cached self image_path w1 = (Ok true, w1) ∧
  (∀ gone, gone ∈ l.*2 → gone ≠ image_path →
     let w2 := with_files (delete gone (files w1)) w1 in
     PredictionCache.is_cached self image_path w2 = (Ok false, w2)) ∧
  (∀ other content w',
     files w' !! other = Some content →
     index w' !! md5_hexdigest content = None →
     PredictionCache.is_cached self other w' = (Ok false, w')).
Proof.
  intros Hsave Hh Hl Hall Hne.
  destruct (files w !! image_path) as [content|] eqn:Hf; last first.
  { unfold PredictionCache.save in Hsave.
    by rewrite (bind_raise _ _ _ _ _ (get_hash_missing _ _ Hf)) in Hsave. }
  destruct (save_effect self image_path result content d w Hf Hh)
    as (r & w' & Hsave' & Hheap & Hix & Hfiles & Hidx).
  rewrite Hsave in Hsave'. injection Hsave' as <- <-.
  assert (Hentry : default (PyPairs [])
            (<["timestamp" := PyStr (current_time w)]> d !! "obj_files") = PyPairs l).
  { by rewrite lookup_insert_ne. }
  assert (Hkept : ∀ p, is_Some (files w !! p) → is_Some (files w1 !! p)).
  { intros p Hp. destruct (decide (p = PredictionCache.cache_file self)) as [->|Hp'].
    - by apply Hidx.
    - by rewrite Hfiles. }
  split_and!.
  - erewrite is_cached_known; [| |by rewrite Hix, lookup_insert_eq
                                 |by rewrite Hheap, lookup_insert_eq|exact Hentry].
    + rewrite bool_decide_eq_true_2; [done|].
      eapply Forall_impl; [apply Hall|]. apply Hkept.
    + by rewrite Hfiles.
  - intros gone Hgone Hgi w2.
    erewrite (is_cached_known _ _ content result _ l w2);
      [| |by simpl; rewrite Hix, lookup_insert_eq
         |by simpl; rewrite Hheap, lookup_insert_eq|exact Hentry].
    + rewrite bool_decide_eq_false_2; [done|].
      rewrite Forall_forall. intros Hex. specialize (Hex gone Hgone).
      simpl in Hex. rewrite lookup_delete_eq in Hex. by destruct Hex.
    + simpl. by rewrite lookup_delete_ne, Hfiles.
  - intros other content' w'' Hf' Hix'. by eapply is_cached_unknown.
Qed.

Lemma is_cached_after_save_witness :
  ∃ w1,
    PredictionCache.save (H := length_digest) (H0 := blank_dump)
      the_cache "scan.nii.gz" O disk_world = (Ok tt, w1) ∧
    PredictionCache.is_cached (H := length_digest) the_cache "scan.nii.gz" w1
      = (Ok true, w1) ∧
    let w2 := with_files (delete "unity_assets/scan_seg_liver.obj" (files w1)) w1 in
    PredictionCache.is_cached (H := length_digest) the_cache "scan.nii.gz" w2
      = (Ok false, w2).
Proof.
  eexists.
  assert (Hsave : PredictionCache.save (H := length_digest) (H0 := blank_dump)
            the_cache "scan.nii.gz" O disk_world
          = (Ok tt, (PredictionCache.save (H := length_digest) (H0 := blank_dump)
                       the_cache "scan.nii.gz" O disk_world).2)).
  { vm_compute. reflexivity. }
  destruct (is_cached_after_save (H := length_digest) (H0 := blank_dump)
              the_cache "scan.nii.gz" O liver_entry
              [(8, "unity_assets/scan_seg_liver.obj")] disk_world _ Hsave)
    as (Hhit & Hmiss & _).
  - reflexivity.
  - reflexivity.
  - repeat constructor; by eexists.
  - discriminate.
  - split_and!; [exact Hsave | exact Hhit |].
    apply (Hmiss "unity_assets/scan_seg_liver.obj"); [|discriminate].
    apply list_elem_of_singleton. reflexivity.
Defined.

(** ** Mesh extraction *)

Lemma sorted_le_NoDup_lt (l : list Z) :
  StronglySorted Z.le l → NoDup l → StronglySorted Z.lt l.
Proof.
  induction 1 as [|x l _ IH Hx]; intros Hnd; [constructor|].
  apply NoDup_cons in Hnd as [Hx' Hnd]. constructor; [auto|].
  rewrite Forall_forall in *. intros y Hy.
  specialize (Hx y Hy). assert (x ≠ y) by congruence. lia.
Qed.

(** The labels that [generate] visits: the distinct non-zero values of the
    volume, in strictly ascending order. *)
Lemma labels_of_sorted nii : StronglySorted Z.lt (MeshGenerator.labels_of nii).
Proof.
  unfold MeshGenerator.labels_of, np_unique.
  apply StronglySorted_filter, sorted_le_NoDup_lt.
  - apply StronglySorted_merge_sort; apply _.
  - rewrite merge_sort_Permutation. apply NoDup_remove_dups.
Qed.

Lemma elem_of_labels_of nii v :
  v ∈ MeshGenerator.labels_of nii ↔
  v ≠ 0 ∧ ∃ p, p ∈ indices (shape nii) ∧ get_fdata nii p = v.
Proof.
  unfold MeshGenerator.labels_of, np_unique.
  rewrite list_elem_of_filter, merge_sort_Permutation, elem_of_remove_dups,
    list_elem_of_fmap.
  split; intros [Hv (p & Hp & Hp')]; (split; [done|]); exists p; by split.
Qed.

Lemma export_label_run `{MeshLib} self nii output_dir base_name label w :
  ∃ w1, MeshGenerator.export_label self nii output_dir base_name label w
          = (match label_failure self nii label with
             | None => Ok tt
             | Some e => Raise e
             end, w1) ∧
        trace w1 = trace w.
Proof.
  unfold MeshGenerator.export_label, label_failure.
  destruct (MeshGenerator.build_mesh self nii label) as [mesh|e].
  - erewrite bind_run; [|reflexivity]. unfold store_file.
    destruct (export_obj mesh) as [out [e|]]; simpl; eauto.
  - erewrite bind_raise; [|reflexivity]. eauto.
Qed.

Lemma generate_label_quiet `{MeshLib} self nii output_dir base_name cb acc label w :
  callback_quiet cb →
  ∃ w', MeshGenerator.generate_label self nii output_dir base_name cb acc label w
          = (Ok (acc ++ option_list (label_pair self nii output_dir base_name label)), w') ∧
        trace w' = trace w ++ (if cb is Some _ then [label_line self nii label] else []).
Proof.
  intros Hq. unfold MeshGenerator.generate_label, label_pair, label_line.
  destruct (export_label_run self nii output_dir base_name label w) as (w1 & Hrun & Ht1).
  erewrite bind_run; [|unfold attempt; by rewrite Hrun].
  destruct (label_failure self nii label) as [e|].
  - destruct (log_quiet cb (MeshGenerator.skipped_msg label e) "warning" w1 Hq)
      as (w2 & Hlog & _ & Ht2).
    rewrite (bind_run _ _ _ _ _ Hlog). exists w2. simpl.
    rewrite app_nil_r. split; [done|]. by rewrite Ht2, Ht1.
  - unfold try_except.
    destruct (log_quiet cb (MeshGenerator.created_msg label) "info" w1 Hq)
      as (w2 & Hlog & _ & Ht2).
    rewrite (bind_run _ _ _ _ _ Hlog). exists w2. simpl.
    split; [done|]. by rewrite Ht2, Ht1.
Qed.

Lemma generate_loop_quiet `{MeshLib} self nii output_dir base_name cb acc labels w :
  callback_quiet cb →
  ∃ w', MeshGenerator.generate_loop self nii output_dir base_name cb acc labels w
          = (Ok (acc ++ omap (label_pair self nii output_dir base_name) labels), w') ∧
        trace w' = trace w ++
          (if cb is Some _ then label_line self nii <$> labels else []).
Proof.
  intros Hq. revert acc w. induction labels as [|label rest IH]; intros acc w.
  - exists w. simpl. split.
    + by rewrite app_nil_r.
    + destruct cb; by rewrite app_nil_r.
  - destruct (generate_label_quiet self nii output_dir base_name cb acc label w Hq)
      as (w1 & Hone & Ht1).
    destruct (IH (acc ++ option_list (label_pair self nii output_dir base_name label)) w1)
      as (w2 & Hrest & Ht2).
    exists w2. cbn [MeshGenerator.generate_loop].
    rewrite (bind_run _ _ _ _ _ Hone), Hrest. split.
    + f_equal. f_equal. rewrite <- (assoc_L (++)). f_equal. simpl.
      by destruct (label_pair self nii output_dir base_name label).
    + rewrite Ht2, Ht1. destruct cb; simpl; by rewrite <- ?(assoc_L (++)), ?app_nil_r.
Qed.

(** ** C7 *)

(** C7, as stated, fails: the extraction of label 8 fails, the handler logs
    through a callback that raises, and [generate] raises instead of going on
    to label 9. *)
Lemma generate_aborts_when_log_raises :
  MeshGenerator.labels_of two_blobs = [8; 9] ∧
  label_failure (H := counting_meshes) MeshGenerator.__init__ two_blobs 8
    = Some (RuntimeError "No surface found at the given iso value.") ∧
  label_failure (H := counting_meshes) MeshGenerator.__init__ two_blobs 9 = None ∧
  ∃ w', MeshGenerator.generate (H := single_file "seg.nii.gz" two_blobs)
          (H0 := counting_meshes) MeshGenerator.__init__ "seg.nii.gz" "unity_assets"
          (Some closed_log) empty_world
        = (Raise (RuntimeError "log window closed"), w').
Proof. split_and!; [reflexivity..|]. eexists. vm_compute. reflexivity. Qed.

(** C7, amended. With a log callback that itself returns normally (or none),
    once the output directory exists and the volume is loaded,
    [MeshGenerator.generate] visits the distinct non-zero labels of the volume
    in strictly ascending order and always returns: a label whose extraction
    raises is logged as skipped and left out, every other label contributes
    its [(label, path)] pair, in that same ascending order, and one log line
    is produced per label. *)
Theorem generate_skips_failed_labels `{Nibabel} `{MeshLib} (self : MeshGenerator.t)
    (nifti_path output_dir : string) (log_callback : option callback)
    (nii : nifti) (w : world) :
  callback_quiet log_callback →
  nib_load nifti_path = Ok nii →
  next_io_ok w →
  let labels := MeshGenerator.labels_of nii in
  let base_name := MeshGenerator.base_name_of nifti_path in
  StronglySorted Z.lt labels ∧
  (∀ v, v ∈ labels ↔ v ≠ 0 ∧ ∃ p, p ∈ indices (shape nii) ∧ get_fdata nii p = v) ∧
  ∃ w',
    MeshGenerator.generate self nifti_path output_dir log_callback w
      = (Ok (omap (label_pair self nii output_dir base_name) labels), w') ∧
    trace w' = trace w ++
      (if log_callback is Some _ then label_line self nii <$> labels else []).
Proof.
  intros Hq Hload Hio. simpl.
  split; [apply labels_of_sorted|]. split; [apply elem_of_labels_of|].
  unfold MeshGenerator.generate.
  assert (Hmk : ∃ w1, makedirs output_dir w = (Ok tt, w1) ∧ trace w1 = trace w).
  { unfold makedirs, next_io_ok, mbind, M_bind, bind, next_outcome in *.
    destruct (script w) as [|[|e k] s]; [eauto|eauto|destruct Hio]. }
  destruct Hmk as (w1 & Hmk & Ht1).
  rewrite (bind_run _ _ _ _ _ Hmk).
  erewrite bind_run; [|unfold lift; by rewrite Hload].
  destruct (generate_loop_quiet self nii output_dir
              (MeshGenerator.base_name_of nifti_path) log_callback []
              (MeshGenerator.labels_of nii) w1 Hq) as (w' & Hloop & Ht).
  exists w'. rewrite Hloop. split; [done|]. by rewrite Ht, Ht1.
Qed.

Lemma generate_skips_failed_labels_witness :
  callback_quiet (Some open_log) ∧
  nib_load (Nibabel := single_file "seg.nii.gz" two_blobs) "seg.nii.gz" = Ok two_blobs ∧
  next_io_ok empty_world ∧
  ∃ w',
    MeshGenerator.generate (H := single_file "seg.nii.gz" two_blobs)
      (H0 := counting_meshes) MeshGenerator.__init__ "seg.nii.gz" "unity_assets"
      (Some open_log) empty_world
    = (Ok (omap (label_pair (H := counting_meshes) MeshGenerator.__init__ two_blobs
                   "unity_assets" "seg") [8; 9]), w') ∧
    trace w' = label_line (H := counting_meshes) MeshGenerator.__init__ two_blobs
                 <$> [8; 9].
Proof.
  assert (Hq : callback_quiet (Some open_log)).
  { intros f [= <-] msg tag. reflexivity. }
  split_and!; [exact Hq | reflexivity | exact I |].
  destruct (generate_skips_failed_labels (H := single_file "seg.nii.gz" two_blobs)
              (H0 := counting_meshes) MeshGenerator.__init__ "seg.nii.gz" "unity_assets"
              (Some open_log) two_blobs empty_world Hq eq_refl I)
    as (_ & _ & w' & Hgen & Htr).
  exists w'. split; [exact Hgen | exact Htr].
Defined.

(** What the run above returns and logs. *)
Example generate_two_blobs :
  (MeshGenerator.generate (H := single_file "seg.nii.gz" two_blobs)
     (H0 := counting_meshes) MeshGenerator.__init__ "seg.nii.gz" "unity_assets"
     (Some open_log) empty_world).1
  = Ok [(9, "unity_assets/seg_tumor.obj")] ∧
  trace (MeshGenerator.generate (H := single_file "seg.nii.gz" two_blobs)
     (H0 := counting_meshes) MeshGenerator.__init__ "seg.nii.gz" "unity_assets"
     (Some open_log) empty_world).2
  = [ ("  Label 8 skipped: No surface found at the given iso value.", "warning");
      ("  tumor mesh created", "info") ].
Proof. split; vm_compute; reflexivity. Qed.

(** ** Concrete deliveries (C1, C6) *)

Lemma send_true_stream_witness :
  ∃ w' json contents,
    UnityClient.send UnityClient.__init__ [(8, "unity_assets/scan_seg_liver.obj")]
      liver_payload None disk_world = (Ok true, w') ∧
    json_dumps_utf8 liver_payload = Ok json ∧
    contents = [[x6f]] ∧
    wire w' = delivery_stream json [(8, "unity_assets/scan_seg_liver.obj")] contents.
Proof.
  assert (Hsend :
    UnityClient.send UnityClient.__init__ [(8, "unity_assets/scan_seg_liver.obj")]
      liver_payload None disk_world
    = (Ok true, (UnityClient.send UnityClient.__init__
                   [(8, "unity_assets/scan_seg_liver.obj")]
                   liver_payload None disk_world).2)).
  { vm_compute. reflexivity. }
  destruct (send_true_stream _ _ _ _ _ _ Hsend)
    as (json & contents & Hjson & Hfiles & _ & _ & Hwire).
  eexists. exists json, contents.
  split_and!; [exact Hsend | exact Hjson | | exact Hwire].
  inversion Hfiles as [|item c rest cs [Hc _] Hrest]; subst.
  inversion Hrest; subst. simpl in Hc. vm_compute in Hc. by injection Hc as <-.
Defined.

(** C6, as stated, fails: the connection is refused, the handler logs through
    a callback that raises, and that exception reaches the caller of
    [send]. *)
Lemma send_raises_when_log_raises :
  ∃ w', UnityClient.send UnityClient.__init__ [] liver_payload (Some closed_log)
          refusing_world
        = (Raise (RuntimeError "log window closed"), w').
Proof. eexists. vm_compute. reflexivity. Qed.

Lemma send_never_raises_witness :
  callback_quiet (Some open_log) ∧
  nothing_listening refusing_world ∧
  ∃ w', UnityClient.send UnityClient.__init__ [] liver_payload (Some open_log)
          refusing_world = (Ok false, w') ∧
        wire w' = [] ∧
        trace w' = [ (UnityClient.refused_msg, "error");
                     ("   Make sure Unity is running.", "warning") ].
Proof.
  assert (Hq : callback_quiet (Some open_log)).
  { intros f [= <-] msg tag. reflexivity. }
  assert (Hn : nothing_listening refusing_world).
  { exists O, []. reflexivity. }
  split_and!; [exact Hq | exact Hn |].
  destruct (send_never_raises UnityClient.__init__ [] liver_payload (Some open_log)
              refusing_world Hq) as (b & w' & Hsend & _ & _ & Hrefused).
  destruct Hrefused as (-> & Hwire & Htrace); [exact Hn | done | done |].
  exists w'. split_and!; [exact Hsend | exact Hwire | exact Htrace].
Defined.

(* ===================================================================== *)
(** * Part IV: further properties of the package                          *)
(* ===================================================================== *)

(** ** Delivery: the stream can be read back *)

Lemma read_u32_be32 n rest : u32 n → read_u32 (be32 n ++ rest) = Some (n, rest).
Proof.
  intros Hn. unfold read_u32.
  change (take 4 (be32 n ++ rest)) with (be32 n).
  change (drop 4 (be32 n ++ rest)) with rest.
  by rewrite be32_decode_be32.
Qed.

Lemma len_to_nat {A} (l : list A) : Z.to_nat (UnityClient.len l) = length l.
Proof. unfold UnityClient.len. lia. Qed.

Lemma read_frames_mesh_frames obj_files contents rest :
  Forall2 (λ (item : Z * string) c, u32 item.1 ∧ u32 (UnityClient.len c))
          obj_files contents →
  read_frames (length obj_files) (mesh_frames obj_files contents ++ rest)
  = Some (zip obj_files.*1 contents, rest).
Proof.
  induction 1 as [|item c obj_files contents [Hl Hc] _ IH]; [done|].
  unfold mesh_frames. cbn [length zip_with concat read_frames fmap list_fmap].
  unfold mesh_frame at 1. rewrite <- !(assoc_L (++)).
  rewrite (read_u32_be32 _ _ Hl). cbn [mbind option_bind].
  rewrite (read_u32_be32 _ _ Hc). cbn [mbind option_bind].
  rewrite len_to_nat, decide_True by (rewrite length_app; lia).
  rewrite drop_app_length, take_app_length.
  fold (mesh_frames obj_files contents). by rewrite IH.
Qed.

Lemma read_delivery_stream json obj_files contents :
  u32 (UnityClient.len json) → u32 (UnityClient.len obj_files) →
  Forall2 (λ (item : Z * string) c, u32 item.1 ∧ u32 (UnityClient.len c))
          obj_files contents →
  read_delivery (delivery_stream json obj_files contents)
  = Some (json, zip obj_files.*1 contents).
Proof.
  intros Hj Hn Hall. unfold read_delivery, delivery_stream.
  rewrite (read_u32_be32 _ _ Hj). cbn [mbind option_bind].
  rewrite len_to_nat, decide_True by (rewrite length_app; lia).
  rewrite drop_app_length, take_app_length.
  rewrite (read_u32_be32 _ _ Hn). cbn [mbind option_bind].
  rewrite len_to_nat.
  rewrite <- (app_nil_r (mesh_frames obj_files contents)).
  rewrite (read_frames_mesh_frames _ _ [] Hall). cbn [mbind option_bind].
  by rewrite decide_True.
Qed.

(** What the [try] block of [send] has done when it returns. *)
Lemma send_body_Ok `{JsonEncoder P} (self : UnityClient.t)
    (obj_files : list (Z * string)) (patient_data : P) cb b w w' :
  UnityClient.send_body self obj_files patient_data cb w = (Ok b, w') →
  b = true ∧
  ∃ json contents,
    json_dumps_utf8 patient_data = Ok json ∧
    Forall2 (λ item c, files w !! item.2 = Some c ∧ u32 item.1 ∧ u32 (UnityClient.len c))
            obj_files contents ∧
    u32 (UnityClient.len json) ∧ u32 (UnityClient.len obj_files) ∧
    sends w w' (delivery_stream json obj_files contents).
Proof.
  unfold UnityClient.send_body. intros Hb.
  apply bind_Ok in Hb as ([] & w2 & ->%settimeout_Ok & Hb).
  apply bind_Ok in Hb as ([] & w3 & Hc%connect_Ok & Hb).
  apply bind_Ok in Hb as ([] & w4 & Hl1%log_Ok & Hb).
  apply bind_Ok in Hb as ([] & w5 & Hl2%log_Ok & Hb).
  apply bind_Ok in Hb as (json & w6 & [Hjson ->]%lift_Ok & Hb).
  apply bind_Ok in Hb as (hdr & w7 & [[Hjl ->]%pack_I_Ok ->]%lift_Ok & Hb).
  apply bind_Ok in Hb as ([] & w8 & Hs1%sendall_Ok & Hb).
  apply bind_Ok in Hb as ([] & w9 & Hs2%sendall_Ok & Hb).
  apply bind_Ok in Hb as ([] & w10 & Hl3%log_Ok & Hb).
  apply bind_Ok in Hb as ([] & w11 & Hl4%log_Ok & Hb).
  apply bind_Ok in Hb as (cnt & w12 & [[Hn ->]%pack_I_Ok ->]%lift_Ok & Hb).
  apply bind_Ok in Hb as ([] & w13 & Hs3%sendall_Ok & Hb).
  apply bind_Ok in Hb as ([] & w14 & (cs & Hcs & Hs4)%for_each_send_mesh_Ok & Hb).
  apply bind_Ok in Hb as ([] & w15 & Hcl%close_Ok & [= <- <-]).
  split; [done|].
  pose proof (sends_app _ _ _ _ _ Hc Hl1) as S1.
  pose proof (sends_app _ _ _ _ _ S1 Hl2) as S2.
  pose proof (sends_app _ _ _ _ _ S2 Hs1) as S3.
  pose proof (sends_app _ _ _ _ _ S3 Hs2) as S4.
  pose proof (sends_app _ _ _ _ _ S4 Hl3) as S5.
  pose proof (sends_app _ _ _ _ _ S5 Hl4) as S6.
  pose proof (sends_app _ _ _ _ _ S6 Hs3) as S7.
  pose proof (sends_app _ _ _ _ _ S7 Hs4) as S8.
  pose proof (sends_app _ _ _ _ _ S8 Hcl) as S9.
  exists json, cs. split_and!; [done| |done|done|].
  - destruct S7 as [_ Hf]. eapply Forall2_impl; [apply Hcs|].
    intros ?? Hx. by rewrite <- Hf.
  - destruct S9 as [S9 Hf9]. split; [|done]. rewrite S9. f_equal.
    unfold delivery_stream. rewrite !app_nil_l, !app_nil_r.
    by rewrite <- !(assoc_L (++)).
Qed.

(** The handlers of [send] never answer [True]. *)
Lemma send_true_body `{JsonEncoder P} (self : UnityClient.t)
    (obj_files : list (Z * string)) (patient_data : P) cb w w' :
  UnityClient.send self obj_files patient_data cb w = (Ok true, w') →
  UnityClient.send_body self obj_files patient_data cb w = (Ok true, w').
Proof.
  unfold UnityClient.send, try_except.
  destruct (UnityClient.send_body _ _ _ _ w) as [[b|e] w1]; [done|].
  destruct e; simpl; intros Hh.
  all: repeat (apply bind_Ok in Hh as (? & ? & _ & Hh)); discriminate Hh.
Qed.

(** X1. A receiver that reads a successful delivery from a fresh connection
    field by field recovers the JSON text and, in order, every label with
    the bytes of its mesh file, with nothing left over. *)
Theorem send_true_readable `{JsonEncoder P} (self : UnityClient.t)
    (obj_files : list (Z * string)) (patient_data : P)
    (log_callback : option callback) (w w' : world) :
  UnityClient.send self obj_files patient_data log_callback w = (Ok true, w') →
  wire w = [] →
  ∃ json contents,
    json_dumps_utf8 patient_data = Ok json ∧
    Forall2 (λ item c, files w !! item.2 = Some c) obj_files contents ∧
    read_delivery (wire w') = Some (json, zip obj_files.*1 contents).
Proof.
  intros Hsend%send_true_body Hw.
  apply send_body_Ok in Hsend as (_ & json & cs & Hjson & Hall & Hj & Hn & [Hwire _]).
  exists json, cs. split_and!; [done| |].
  - eapply Forall2_impl; [apply Hall|]. by intros ?? [? _].
  - rewrite Hwire, Hw, app_nil_l. apply read_delivery_stream; [done..|].
    eapply Forall2_impl; [apply Hall|]. by intros ?? [_ ?].
Qed.

Lemma send_true_readable_witness :
  ∃ w' json,
    UnityClient.send UnityClient.__init__ [(8, "unity_assets/scan_seg_liver.obj")]
      liver_payload None disk_world = (Ok true, w') ∧
    wire disk_world = [] ∧
    read_delivery (wire w') = Some (json, [(8, [x6f])]).
Proof.
  assert (Hsend :
    UnityClient.send UnityClient.__init__ [(8, "unity_assets/scan_seg_liver.obj")]
      liver_payload None disk_world
    = (Ok true, (UnityClient.send UnityClient.__init__
                   [(8, "unity_assets/scan_seg_liver.obj")]
                   liver_payload None disk_world).2)).
  { vm_compute. reflexivity. }
  destruct (send_true_readable _ _ _ _ _ _ Hsend eq_refl)
    as (json & contents & _ & Hfiles & Hread).
  eexists. exists json. split_and!; [exact Hsend | reflexivity |].
  inversion Hfiles as [|item c rest cs Hc Hrest]; subst.
  inversion Hrest; subst. simpl in Hc. vm_compute in Hc. injection Hc as <-.
  exact Hread.
Defined.

(** ** Delivery on a network that does not fail *)

Lemma runs_bind {A B} (m : M A) (k : A → M B) a b w w1 w2 bs1 bs2 :
  runs m a w w1 bs1 → runs (k a) b w1 w2 bs2 → runs (m ≫= k) b w w2 (bs1 ++ bs2).
Proof.
  intros (Hm & _ & Hs1) (Hk & Hc & Hs2). split_and!; [|done|by eapply sends_app].
  by rewrite (bind_run _ _ _ _ _ Hm).
Qed.

Lemma next_outcome_calm w :
  calm w → ∃ w1, runs next_outcome IoDone w w1 [].
Proof.
  unfold calm, runs, next_outcome. intros Hc.
  destruct (script w) as [|o s] eqn:Hs.
  - exists w. split_and!; [done| |apply sends_nil]. unfold calm. by rewrite Hs.
  - apply Forall_cons in Hc as [-> Hc]. eexists. split_and!; [done|done|].
    split; simpl; by rewrite ?app_nil_r.
Qed.

Lemma sendall_calm data w :
  calm w → ∃ w1, runs (socket.sendall data) tt w w1 data.
Proof.
  intros (w0 & Ho & Hc0 & Hs0)%next_outcome_calm.
  exists (with_wire (wire w0 ++ data) w0). split_and!; [|done|].
  - unfold socket.sendall. by rewrite (bind_run _ _ _ _ _ Ho).
  - destruct Hs0 as [Hw Hf]. split; simpl; [|done]. by rewrite Hw, app_nil_r.
Qed.

Lemma connect_calm host port w :
  calm w → 0 ≤ port ≤ 65535 → ∃ w1, runs (socket.connect host port) tt w w1 [].
Proof.
  intros (w0 & Ho & Hc0 & Hs0)%next_outcome_calm Hp. exists w0.
  split_and!; [|done..]. unfold socket.connect.
  by rewrite decide_True, (bind_run _ _ _ _ _ Ho).
Qed.

Lemma close_calm w : calm w → ∃ w1, runs socket.close tt w w1 [].
Proof.
  intros (w0 & Ho & Hc0 & Hs0)%next_outcome_calm. exists w0.
  split_and!; [|done..]. unfold socket.close. by rewrite (bind_run _ _ _ _ _ Ho).
Qed.

Lemma log_calm cb msg tag w :
  callback_quiet cb → calm w → ∃ w1, runs (log cb msg tag) tt w w1 [].
Proof.
  intros Hq Hc. unfold log, runs. destruct cb as [f|].
  - rewrite (Hq f eq_refl). eexists. split_and!; [done|done|].
    split; simpl; by rewrite ?app_nil_r.
  - exists w. split_and!; [done|done|apply sends_nil].
Qed.

Lemma lift_runs {A} (a : A) w : runs (lift (Ok a)) a w w [] ↔ calm w.
Proof. unfold runs, lift. split; [by intros (_ & ? & _)|]. intros. split_and!; [done..|apply sends_nil]. Qed.

Lemma send_mesh_calm label obj_path c w :
  calm w → files w !! obj_path = Some c → u32 label → u32 (UnityClient.len c) →
  ∃ w1, runs (UnityClient.send_mesh (label, obj_path)) tt w w1 (mesh_frame label c).
Proof.
  intros Hc Hf Hl Hsz. unfold UnityClient.send_mesh.
  destruct (sendall_calm (be32 label) w Hc) as (w1 & R1).
  pose proof R1 as (_ & Hc1 & [_ Hf1]).
  destruct (sendall_calm (be32 (UnityClient.len c)) w1 Hc1) as (w2 & R2).
  pose proof R2 as (_ & Hc2 & _).
  destruct (sendall_calm c w2 Hc2) as (w3 & R3).
  exists w3. unfold mesh_frame.
  rewrite (pack_I_u32 _ Hl).
  replace (be32 label ++ be32 (UnityClient.len c) ++ c)
    with ([] ++ be32 label ++ [] ++ [] ++ be32 (UnityClient.len c) ++ c) by done.
  eapply runs_bind; [by apply lift_runs|].
  eapply runs_bind; [exact R1|].
  eapply runs_bind.
  { split_and!; [|exact Hc1|apply sends_nil].
    unfold read_file. by rewrite Hf1, Hf. }
  rewrite (pack_I_u32 _ Hsz).
  eapply runs_bind; [by apply lift_runs|].
  eapply runs_bind; [exact R2|exact R3].
Qed.

Lemma for_each_send_mesh_calm obj_files contents fs :
  Forall2 (λ (item : Z * string) c,
             fs !! item.2 = Some c ∧ u32 item.1 ∧ u32 (UnityClient.len c))
          obj_files contents →
  ∀ w, calm w → files w = fs →
  ∃ w1, runs (for_each obj_files UnityClient.send_mesh) tt w w1
             (mesh_frames obj_files contents).
Proof.
  induction 1 as [|[label path] c obj_files contents (Hf & Hl & Hsz) _ IH];
    intros w Hc Hfiles.
  - exists w. split_and!; [done|done|apply sends_nil].
  - simpl in Hf. rewrite <- Hfiles in Hf.
    destruct (send_mesh_calm label path c w Hc Hf Hl Hsz) as (w1 & R1).
    pose proof R1 as (_ & Hc1 & [_ Hf1]).
    destruct (IH w1 Hc1) as (w2 & R2); [congruence|].
    exists w2. exact (runs_bind _ _ _ _ _ _ _ _ _ R1 R2).
Qed.

(** On a calm network, with a serialisable payload, [send_body] reaches its
    loop having sent the two headers and the JSON text. *)
Lemma send_body_reaches_loop `{JsonEncoder P} (self : UnityClient.t)
    (obj_files : list (Z * string)) (patient_data : P) cb json w :
  calm w → callback_quiet cb →
  0 ≤ UnityClient.timeout self → 0 ≤ UnityClient.port self ≤ 65535 →
  json_dumps_utf8 patient_data = Ok json →
  u32 (UnityClient.len json) → u32 (UnityClient.len obj_files) →
  ∃ w1,
    calm w1 ∧
    sends w w1 (be32 (UnityClient.len json) ++ json ++ be32 (UnityClient.len obj_files)) ∧
    UnityClient.send_body self obj_files patient_data cb w
    = (for_each obj_files UnityClient.send_mesh ≫= λ _,
       socket.close ≫= λ _, mret true) w1.
Proof.
  intros Hc Hq Ht Hp Hjson Hj Hn. unfold UnityClient.send_body.
  erewrite bind_run; last first.
  { unfold socket.settimeout. rewrite decide_False by lia. done. }
  destruct (connect_calm (UnityClient.host self) _ w Hc Hp) as (w1 & R1 & C1 & S1).
  rewrite (bind_run _ _ _ _ _ R1).
  destruct (log_calm cb "   ✓ Connection established!" "success" w1 Hq C1)
    as (w2 & R2 & C2 & S2).
  rewrite (bind_run _ _ _ _ _ R2).
  destruct (log_calm cb "   📋 Sending patient information..." "warning" w2 Hq C2)
    as (w3 & R3 & C3 & S3).
  rewrite (bind_run _ _ _ _ _ R3).
  erewrite bind_run; [|unfold lift; by rewrite Hjson].
  erewrite bind_run; [|unfold lift; by rewrite (pack_I_u32 _ Hj)].
  destruct (sendall_calm (be32 (UnityClient.len json)) w3 C3) as (w4 & R4 & C4 & S4).
  rewrite (bind_run _ _ _ _ _ R4).
  destruct (sendall_calm json w4 C4) as (w5 & R5 & C5 & S5).
  rewrite (bind_run _ _ _ _ _ R5).
  destruct (log_calm cb "   ✓ Patient information sent" "success" w5 Hq C5)
    as (w6 & R6 & C6 & S6).
  rewrite (bind_run _ _ _ _ _ R6).
  destruct (log_calm cb
              ("   🎮 Sending " +:+ pretty (length obj_files) +:+ " 3D meshes...")
              "warning" w6 Hq C6) as (w7 & R7 & C7 & S7).
  rewrite (bind_run _ _ _ _ _ R7).
  erewrite bind_run; [|unfold lift; by rewrite (pack_I_u32 _ Hn)].
  destruct (sendall_calm (be32 (UnityClient.len obj_files)) w7 C7)
    as (w8 & R8 & C8 & S8).
  rewrite (bind_run _ _ _ _ _ R8).
  exists w8. split_and!; [done| |done].
  pose proof (sends_app _ _ _ _ _ S1 S2) as T1.
  pose proof (sends_app _ _ _ _ _ T1 S3) as T2.
  pose proof (sends_app _ _ _ _ _ T2 S4) as T3.
  pose proof (sends_app _ _ _ _ _ T3 S5) as T4.
  pose proof (sends_app _ _ _ _ _ T4 S6) as T5.
  pose proof (sends_app _ _ _ _ _ T5 S7) as T6.
  pose proof (sends_app _ _ _ _ _ T6 S8) as [T7 F7].
  split; [|done]. rewrite T7. f_equal.
  rewrite !app_nil_l, !app_nil_r. by rewrite <- !(assoc_L (++)).
Qed.

(** X2. On a network that does not fail, with a valid timeout and port, a
    serialisable payload, existing mesh files and all sizes and labels within
    32 bits, [send] returns [True] and has sent the whole stream. *)
Theorem send_succeeds `{JsonEncoder P} (self : UnityClient.t)
    (obj_files : list (Z * string)) (patient_data : P)
    (log_callback : option callback) (json : list byte)
    (contents : list (list byte)) (w : world) :
  calm w → callback_quiet log_callback →
  0 ≤ UnityClient.timeout self → 0 ≤ UnityClient.port self ≤ 65535 →
  json_dumps_utf8 patient_data = Ok json →
  u32 (UnityClient.len json) → u32 (UnityClient.len obj_files) →
  Forall2 (λ item c, files w !! item.2 = Some c ∧ u32 item.1 ∧ u32 (UnityClient.len c))
          obj_files contents →
  ∃ w', UnityClient.send self obj_files patient_data log_callback w = (Ok true, w') ∧
        wire w' = wire w ++ delivery_stream json obj_files contents.
Proof.
  intros Hc Hq Ht Hp Hjson Hj Hn Hall.
  destruct (send_body_reaches_loop self obj_files patient_data log_callback json w
              Hc Hq Ht Hp Hjson Hj Hn) as (w1 & C1 & S1 & Hbody).
  destruct (for_each_send_mesh_calm obj_files contents (files w) Hall w1 C1)
    as (w2 & R2 & C2 & S2); [by destruct S1|].
  destruct (close_calm w2 C2) as (w3 & R3 & C3 & S3).
  exists w3. unfold UnityClient.send, try_except.
  rewrite Hbody, (bind_run _ _ _ _ _ R2), (bind_run _ _ _ _ _ R3). split; [done|].
  pose proof (sends_app _ _ _ _ _ S1 S2) as T1.
  pose proof (sends_app _ _ _ _ _ T1 S3) as [T2 _].
  rewrite T2. f_equal. unfold delivery_stream.
  rewrite !app_nil_r. by rewrite <- !(assoc_L (++)).
Qed.

Lemma send_succeeds_witness :
  calm disk_world ∧ callback_quiet (Some open_log) ∧
  ∃ w' json,
    UnityClient.send UnityClient.__init__ [(8, "unity_assets/scan_seg_liver.obj")]
      liver_payload (Some open_log) disk_world = (Ok true, w') ∧
    wire w' = delivery_stream json [(8, "unity_assets/scan_seg_liver.obj")] [[x6f]].
Proof.
  assert (Hq : callback_quiet (Some open_log)).
  { intros f [= <-] msg tag. reflexivity. }
  assert (Hc : calm disk_world) by constructor.
  split_and!; [exact Hc | exact Hq |].
  destruct (send_succeeds UnityClient.__init__ [(8, "unity_assets/scan_seg_liver.obj")]
              liver_payload (Some open_log)
              (String.list_byte_of_string (dumps liver_payload)) [[x6f]] disk_world
              Hc Hq) as (w' & Hsend & Hwire).
  - done.
  - done.
  - reflexivity.
  - by vm_compute.
  - by vm_compute.
  - repeat constructor; by vm_compute.
  - exists w', (String.list_byte_of_string (dumps liver_payload)).
    split; [exact Hsend | exact Hwire].
Defined.

(** X3. With a log callback that returns normally, [send] answers [False]
    whenever one of the listed mesh files does not exist. *)
Theorem send_missing_file_false `{JsonEncoder P} (self : UnityClient.t)
    (obj_files : list (Z * string)) (patient_data : P)
    (log_callback : option callback) (w : world) :
  callback_quiet log_callback →
  (∃ item, item ∈ obj_files ∧ files w !! item.2 = None) →
  ∃ w', UnityClient.send self obj_files patient_data log_callback w = (Ok false, w').
Proof.
  intros Hq (item & Hin & Hmiss). unfold UnityClient.send, try_except.
  destruct (UnityClient.send_body self obj_files patient_data log_callback w)
    as [[b|e] w1] eqn:Hbody.
  - apply send_body_Ok in Hbody as (_ & json & cs & _ & Hall & _).
    apply list_elem_of_lookup_1 in Hin as [i Hi].
    destruct (Forall2_lookup_l _ _ _ _ _ Hall Hi) as (c & _ & Hc & _). congruence.
  - destruct (send_handler_quiet log_callback e w1 Hq) as (w' & Hh & _). eauto.
Qed.

Lemma send_missing_file_false_witness :
  callback_quiet (Some open_log) ∧
  (∃ item, item ∈ [(9, "unity_assets/absent.obj")] ∧
           files disk_world !! item.2 = None) ∧
  ∃ w', UnityClient.send UnityClient.__init__ [(9, "unity_assets/absent.obj")]
          liver_payload (Some open_log) disk_world = (Ok false, w').
Proof.
  assert (Hq : callback_quiet (Some open_log)).
  { intros f [= <-] msg tag. reflexivity. }
  assert (Hmiss : ∃ item, item ∈ [(9, "unity_assets/absent.obj")] ∧
                          files disk_world !! item.2 = None).
  { exists (9, "unity_assets/absent.obj"). split; [left | reflexivity]. }
  split_and!; [exact Hq | exact Hmiss |].
  exact (send_missing_file_false UnityClient.__init__ [(9, "unity_assets/absent.obj")]
           liver_payload (Some open_log) disk_world Hq Hmiss).
Defined.

Lemma for_each_send_mesh_missing pre contents fs label path post :
  Forall2 (λ (item : Z * string) c,
             fs !! item.2 = Some c ∧ u32 item.1 ∧ u32 (UnityClient.len c))
          pre contents →
  fs !! path = None → u32 label →
  ∀ w, calm w → files w = fs →
  ∃ w1, for_each (pre ++ (label, path) :: post) UnityClient.send_mesh w
          = (Raise (FileNotFoundError path), w1) ∧
        wire w1 = wire w ++ mesh_frames pre contents ++ be32 label.
Proof.
  intros Hall Hmiss Hl. induction Hall as [|[l p] c pre contents (Hf & Hl' & Hsz) _ IH];
    intros w Hc Hfiles.
  - destruct (sendall_calm (be32 label) w Hc) as (w1 & R1 & C1 & [W1 F1]).
    exists w1. split; [|done]. cbn [app for_each].
    apply bind_raise. unfold UnityClient.send_mesh.
    erewrite bind_run; [|unfold lift; by rewrite (pack_I_u32 _ Hl)].
    rewrite (bind_run _ _ _ _ _ R1).
    apply bind_raise. unfold read_file. by rewrite F1, Hfiles, Hmiss.
  - simpl in Hf. rewrite <- Hfiles in Hf.
    destruct (send_mesh_calm l p c w Hc Hf Hl' Hsz) as (w1 & R1 & C1 & [W1 F1]).
    destruct (IH w1 C1) as (w2 & Hrest & W2); [congruence|].
    exists w2. cbn [app for_each]. rewrite (bind_run _ _ _ _ _ R1).
    split; [done|]. rewrite W2, W1. unfold mesh_frames. cbn [zip_with concat].
    by rewrite <- !(assoc_L (++)).
Qed.

(** X4. [send] starts transmitting before it has opened the mesh files: when
    the network does not fail and the first missing file is that of the mesh
    after [pre], the peer has received the two headers, the JSON text, the
    complete frames of [pre] and the 4-byte label of the missing mesh, and
    [send] answers [False]. *)
Theorem send_missing_file_truncates `{JsonEncoder P} (self : UnityClient.t)
    (pre post : list (Z * string)) (label : Z) (path : string) (patient_data : P)
    (log_callback : option callback) (json : list byte)
    (contents : list (list byte)) (w : world) :
  let obj_files := pre ++ (label, path) :: post in
  calm w → callback_quiet log_callback →
  0 ≤ UnityClient.timeout self → 0 ≤ UnityClient.port self ≤ 65535 →
  json_dumps_utf8 patient_data = Ok json →
  u32 (UnityClient.len json) → u32 (UnityClient.len obj_files) →
  Forall2 (λ item c, files w !! item.2 = Some c ∧ u32 item.1 ∧ u32 (UnityClient.len c))
          pre contents →
  u32 label → files w !! path = None →
  ∃ w', UnityClient.send self obj_files patient_data log_callback w = (Ok false, w') ∧
        wire w' = wire w ++ be32 (UnityClient.len json) ++ json ++
                  be32 (UnityClient.len obj_files) ++
                  mesh_frames pre contents ++ be32 label.
Proof.
  intros obj_files Hc Hq Ht Hp Hjson Hj Hn Hall Hl Hmiss.
  destruct (send_body_reaches_loop self obj_files patient_data log_callback json w
              Hc Hq Ht Hp Hjson Hj Hn) as (w1 & C1 & [W1 F1] & Hbody).
  destruct (for_each_send_mesh_missing pre contents (files w) label path post
              Hall Hmiss Hl w1 C1 F1) as (w2 & Hloop & W2).
  destruct (send_handler_quiet log_callback (FileNotFoundError path) w2 Hq)
    as (w' & Hh & W' & _).
  exists w'. unfold UnityClient.send, try_except.
  rewrite Hbody. fold obj_files. rewrite (bind_raise _ _ _ _ _ Hloop). split; [done|].
  rewrite W', W2, W1. by rewrite <- !(assoc_L (++)).
Qed.

Lemma send_missing_file_truncates_witness :
  ∃ w' json,
    UnityClient.send UnityClient.__init__
      ([(8, "unity_assets/scan_seg_liver.obj")] ++ (9, "unity_assets/absent.obj") :: [])
      liver_payload None disk_world = (Ok false, w') ∧
    wire w' = be32 (UnityClient.len json) ++ json ++ be32 2 ++
              mesh_frames [(8, "unity_assets/scan_seg_liver.obj")] [[x6f]] ++ be32 9.
Proof.
  destruct (send_missing_file_truncates UnityClient.__init__
              [(8, "unity_assets/scan_seg_liver.obj")] [] 9 "unity_assets/absent.obj"
              liver_payload None (String.list_byte_of_string (dumps liver_payload))
              [[x6f]] disk_world) as (w' & Hsend & Hwire).
  - constructor.
  - intros f [=].
  - done.
  - done.
  - reflexivity.
  - by vm_compute.
  - by vm_compute.
  - repeat constructor; by vm_compute.
  - by vm_compute.
  - reflexivity.
  - exists w', (String.list_byte_of_string (dumps liver_payload)).
    split; [exact Hsend | exact Hwire].
Defined.

(** ** Delivery leaves the store alone *)

Lemma keeps_store_ret {A} (a : A) : keeps_store (mret a : M A).
Proof. by intros w r w' [= <- <-]. Qed.

Lemma keeps_store_raise {A} e : keeps_store (raise e : M A).
Proof. by intros w r w' [= <- <-]. Qed.

Lemma keeps_store_lift {A} (x : result A) : keeps_store (lift x).
Proof. by intros w r w' [= <- <-]. Qed.

Lemma keeps_store_bind {A B} (m : M A) (k : A → M B) :
  keeps_store m → (∀ a, keeps_store (k a)) → keeps_store (m ≫= k).
Proof.
  intros Hm Hk w r w'. unfold mbind, M_bind, bind.
  destruct (m w) as [[a|e] w1] eqn:Hmw.
  - intros Hkw. destruct (Hm _ _ _ Hmw) as (F1 & H1 & I1).
    destruct (Hk _ _ _ _ Hkw) as (F2 & H2 & I2). split_and!; congruence.
  - intros [= <- <-]. by eapply Hm.
Qed.

Lemma keeps_store_try {A} (m : M A) (h : exn → M A) :
  keeps_store m → (∀ e, keeps_store (h e)) → keeps_store (try_except m h).
Proof.
  intros Hm Hh w r w'. unfold try_except.
  destruct (m w) as [[a|e] w1] eqn:Hmw.
  - intros [= <- <-]. by eapply Hm.
  - intros Hhw. destruct (Hm _ _ _ Hmw) as (F1 & H1 & I1).
    destruct (Hh _ _ _ _ Hhw) as (F2 & H2 & I2). split_and!; congruence.
Qed.

Lemma keeps_store_for_each {A} (xs : list A) (body : A → M unit) :
  (∀ x, keeps_store (body x)) → keeps_store (for_each xs body).
Proof.
  intros Hb. induction xs as [|x xs IH]; simpl.
  - apply keeps_store_ret.
  - apply keeps_store_bind; [apply Hb | by intros _].
Qed.

Lemma keeps_store_next_outcome : keeps_store next_outcome.
Proof. intros w r w'. unfold next_outcome. destruct (script w); by intros [= <- <-]. Qed.

Lemma keeps_store_transmit bs : keeps_store (transmit bs).
Proof. by intros w r w' [= <- <-]. Qed.

Lemma keeps_store_log cb msg tag : keeps_store (log cb msg tag).
Proof.
  intros w r w'. unfold log. destruct cb as [f|]; [|by intros [= <- <-]].
  destruct (f msg tag); by intros [= <- <-].
Qed.

Lemma keeps_store_read_file path : keeps_store (read_file path).
Proof.
  intros w r w'. unfold read_file. destruct (files w !! path); by intros [= <- <-].
Qed.

Lemma keeps_store_sendall data : keeps_store (socket.sendall data).
Proof.
  apply keeps_store_bind; [apply keeps_store_next_outcome|]. intros [|e k].
  - apply keeps_store_transmit.
  - apply keeps_store_bind; [apply keeps_store_transmit|]. intros _.
    apply keeps_store_raise.
Qed.

Lemma keeps_store_send_mesh item : keeps_store (UnityClient.send_mesh item).
Proof.
  destruct item as [label path]. unfold UnityClient.send_mesh. cbv beta iota.
  repeat (first [ apply keeps_store_lift | apply keeps_store_sendall
                | apply keeps_store_read_file
                | apply keeps_store_bind; [|intros ?] ]).
Qed.

(** X5. However it ends, [send] changes neither the file system nor any dict
    object nor the cache index: it only reads the mesh files. *)
Theorem send_keeps_store `{JsonEncoder P} (self : UnityClient.t)
    (obj_files : list (Z * string)) (patient_data : P)
    (log_callback : option callback) :
  keeps_store (UnityClient.send self obj_files patient_data log_callback).
Proof.
  unfold UnityClient.send. apply keeps_store_try.
  - unfold UnityClient.send_body, socket.settimeout, socket.connect, socket.close.
    repeat (first [ apply keeps_store_lift | apply keeps_store_sendall
                  | apply keeps_store_log | apply keeps_store_ret
                  | apply keeps_store_raise | apply keeps_store_next_outcome
                  | apply keeps_store_for_each; intros ?; apply keeps_store_send_mesh
                  | case_decide
                  | match goal with |- keeps_store (match ?o with _ => _ end) =>
                      destruct o end
                  | apply keeps_store_bind; [|intros ?] ]).
  - intros e. unfold UnityClient.send_handler.
    destruct e;
      repeat (first [ apply keeps_store_log | apply keeps_store_ret
                    | apply keeps_store_bind; [|intros ?] ]).
Qed.

Lemma send_keeps_store_witness :
  ∃ r w',
    UnityClient.send UnityClient.__init__ [(8, "unity_assets/scan_seg_liver.obj")]
      liver_payload (Some open_log) disk_world = (r, w') ∧
    files w' = files disk_world ∧ heap w' = heap disk_world ∧
    index w' = index disk_world.
Proof.
  pose (run := UnityClient.send UnityClient.__init__
                 [(8, "unity_assets/scan_seg_liver.obj")] liver_payload (Some open_log)
                 disk_world).
  assert (Hrun : run = (run.1, run.2)) by (vm_compute; reflexivity).
  exists run.1, run.2. split; [exact Hrun|].
  exact (send_keeps_store UnityClient.__init__ [(8, "unity_assets/scan_seg_liver.obj")]
           liver_payload (Some open_log) disk_world run.1 run.2 Hrun).
Defined.

(** ** The cache: hashing, lookup, aliasing, clearing *)

(** X6. [_get_hash] digests the whole file whatever its size: the 4096-byte
    chunks it feeds to the digest add up to the contents; on a path that does
    not exist it raises [FileNotFoundError]; either way it changes nothing. *)
Theorem get_hash_whole_file `{Md5} (file_path : string) (w : world) :
  PredictionCache._get_hash file_path w =
  match files w !! file_path with
  | Some content => (Ok (md5_hexdigest content), w)
  | None => (Raise (FileNotFoundError file_path), w)
  end.
Proof.
  destruct (files w !! file_path) as [content|] eqn:Hf.
  - by apply get_hash_Ok.
  - by apply get_hash_missing.
Qed.

Lemma get_known `{Md5} self image_path content w :
  files w !! image_path = Some content →
  PredictionCache.get self image_path w = (Ok (index w !! md5_hexdigest content), w).
Proof.
  intros Hf. unfold PredictionCache.get.
  rewrite (bind_run _ _ _ _ _ (get_hash_Ok _ _ _ Hf)).
  by erewrite bind_run; [|reflexivity].
Qed.

(** X7. The cache is addressed by content, and it hands out references:
    once [save] has run for an image (even when writing the index file then
    failed), [get] for any file holding the same bytes, under whatever name,
    returns the very dict object that was saved. *)
Theorem get_after_save `{Md5} `{JsonDump (gmap string pydict)}
    (self : PredictionCache.t) (r : result unit) (image_path other : string)
    (result : loc) (content : list byte) (d : pydict) (w w' : world) :
  files w !! image_path = Some content →
  files w !! other = Some content →
  other ≠ PredictionCache.cache_file self →
  heap w !! result = Some d →
  PredictionCache.save self image_path result w = (r, w') →
  PredictionCache.get self other w' = (Ok (Some result), w').
Proof.
  intros Hf Ho Hne Hh Hsave.
  destruct (save_effect self image_path result content d w Hf Hh)
    as (r' & w1 & Hsave' & _ & Hix & Hfiles & _).
  rewrite Hsave in Hsave'. injection Hsave' as <- <-.
  rewrite (get_known self other content); [|by rewrite Hfiles].
  by rewrite Hix, lookup_insert_eq.
Qed.

Lemma get_after_save_witness :
  ∃ r w',
    PredictionCache.save (H := length_digest) (H0 := blank_dump)
      the_cache "scan.nii.gz" O mirror_world = (r, w') ∧
    PredictionCache.get (H := length_digest) the_cache "backup/copy.nii.gz" w'
      = (Ok (Some O), w').
Proof.
  pose (run := PredictionCache.save (H := length_digest) (H0 := blank_dump)
                 the_cache "scan.nii.gz" O mirror_world).
  assert (Hrun : run = (run.1, run.2)) by (vm_compute; reflexivity).
  exists run.1, run.2. split; [exact Hrun|].
  apply (get_after_save (H := length_digest) (H0 := blank_dump) the_cache run.1
           "scan.nii.gz" "backup/copy.nii.gz" O [x01; x02; x03] liver_entry
           mirror_world run.2); [reflexivity|reflexivity|discriminate|reflexivity|exact Hrun].
Defined.

(** X8. Entries are shared, not copied: when the same dict object is saved
    for two images, both keys of the index refer to it, and the second save
    restamps the entry seen through the first key. *)
Theorem save_twice_shares_entry `{Md5} `{JsonDump (gmap string pydict)}
    (self : PredictionCache.t) (r1 r2 : result unit) (first second : string)
    (result : loc) (c1 c2 : list byte) (d : pydict) (w w1 w2 : world) :
  files w !! first = Some c1 →
  heap w !! result = Some d →
  PredictionCache.save self first result w = (r1, w1) →
  files w1 !! second = Some c2 →
  PredictionCache.save self second result w1 = (r2, w2) →
  index w2 !! md5_hexdigest c1 = Some result ∧
  index w2 !! md5_hexdigest c2 = Some result ∧
  ∃ d2, heap w2 !! result = Some d2 ∧
        d2 !! "timestamp" = Some (PyStr (current_time w1)) ∧
        ∀ key, key ≠ "timestamp" → d2 !! key = d !! key.
Proof.
  intros Hf1 Hh Hs1 Hf2 Hs2.
  destruct (save_effect self first result c1 d w Hf1 Hh)
    as (r & w' & Hs1' & Hheap1 & Hix1 & _).
  rewrite Hs1 in Hs1'. injection Hs1' as <- <-.
  assert (Hh1 : heap w1 !! result = Some (<["timestamp" := PyStr (current_time w)]> d)).
  { by rewrite Hheap1, lookup_insert_eq. }
  destruct (save_effect self second result c2 _ w1 Hf2 Hh1)
    as (r & w' & Hs2' & Hheap2 & Hix2 & _).
  rewrite Hs2 in Hs2'. injection Hs2' as <- <-.
  split_and!.
  - rewrite Hix2, Hix1.
    destruct (decide (md5_hexdigest c2 = md5_hexdigest c1)) as [->|Hne].
    + apply lookup_insert_eq.
    + rewrite lookup_insert_ne by done. apply lookup_insert_eq.
  - rewrite Hix2. apply lookup_insert_eq.
  - eexists. split; [by rewrite Hheap2, lookup_insert_eq|]. split.
    + apply lookup_insert_eq.
    + intros key Hkey. by rewrite !lookup_insert_ne.
Qed.

Lemma save_twice_shares_entry_witness :
  ∃ r1 w1 r2 w2,
    PredictionCache.save (H := length_digest) (H0 := blank_dump)
      the_cache "scan.nii.gz" O mirror_world = (r1, w1) ∧
    PredictionCache.save (H := length_digest) (H0 := blank_dump)
      the_cache "unity_assets/scan_seg_liver.obj" O w1 = (r2, w2) ∧
    index w2 !! "3" = Some O ∧ index w2 !! "1" = Some O ∧
    ∃ d2, heap w2 !! O = Some d2 ∧
          d2 !! "timestamp" = Some (PyStr "2026-01-01T12:00:05").
Proof.
  pose (run1 := PredictionCache.save (H := length_digest) (H0 := blank_dump)
                  the_cache "scan.nii.gz" O mirror_world).
  pose (run2 := PredictionCache.save (H := length_digest) (H0 := blank_dump)
                  the_cache "unity_assets/scan_seg_liver.obj" O run1.2).
  assert (Hrun1 : run1 = (run1.1, run1.2)) by (vm_compute; reflexivity).
  assert (Hrun2 : run2 = (run2.1, run2.2)) by (vm_compute; reflexivity).
  exists run1.1, run1.2, run2.1, run2.2. split; [exact Hrun1|]. split; [exact Hrun2|].
  destruct (save_twice_shares_entry (H := length_digest) (H0 := blank_dump) the_cache
              run1.1 run2.1 "scan.nii.gz" "unity_assets/scan_seg_liver.obj" O
              [x01; x02; x03] [x6f] liver_entry mirror_world run1.2 run2.2
              eq_refl eq_refl Hrun1 eq_refl Hrun2)
    as (Hk1 & Hk2 & d2 & Hd2 & Hts & _).
  split; [exact Hk1|]. split; [exact Hk2|].
  exists d2. split; [exact Hd2 | exact Hts].
Defined.

(** X9. [clear] empties the index in memory even when rewriting the index
    file fails, deletes no other file and no entry object; afterwards no
    readable image is cached, and a successful [clear] leaves the dump of the
    empty dict in the index file. *)
Theorem clear_forgets `{Md5} `{JsonDump (gmap string pydict)}
    (self : PredictionCache.t) (w w' : world) (r : result unit) :
  PredictionCache.clear self w = (r, w') →
  index w' = ∅ ∧ heap w' = heap w ∧
  (∀ p, p ≠ PredictionCache.cache_file self → files w' !! p = files w !! p) ∧
  (∀ image_path content, files w' !! image_path = Some content →
     PredictionCache.is_cached self image_path w' = (Ok false, w') ∧
     PredictionCache.get self image_path w' = (Ok None, w')) ∧
  (r = Ok tt →
     files w' !! PredictionCache.cache_file self
       = Some (json_dump (∅ : gmap string pydict)).1).
Proof.
  unfold PredictionCache.clear. erewrite bind_run; [|reflexivity].
  set (w0 := with_index ∅ w). unfold write_file.
  destruct (next_outcome_total w0) as (o & w1 & Ho & _).
  assert (H1 : files w1 = files w ∧ heap w1 = heap w ∧ index w1 = ∅).
  { unfold next_outcome in Ho. destruct (script w0); by injection Ho as <- <-. }
  destruct H1 as (F1 & H1 & I1).
  rewrite (bind_run _ _ _ _ _ Ho). intros Hrun.
  assert (Hw' : index w' = ∅ ∧ heap w' = heap w ∧
            (∀ p, p ≠ PredictionCache.cache_file self → files w' !! p = files w !! p) ∧
            (r = Ok tt → files w' !! PredictionCache.cache_file self
                         = Some (json_dump (∅ : gmap string pydict)).1)).
  { destruct o as [|e k].
    - unfold store_file in Hrun.
      destruct (json_dump (∅ : gmap string pydict)) as [out [e|]]; simpl in *;
        injection Hrun as <- <-; simpl; (split_and!; [done|done| |]).
      + intros p Hp. by rewrite lookup_insert_ne, F1.
      + intros [=].
      + intros p Hp. by rewrite lookup_insert_ne, F1.
      + intros _. by rewrite lookup_insert_eq.
    - injection Hrun as <- <-. split_and!; [done|done| |intros [=]].
      intros p _. by rewrite F1. }
  destruct Hw' as (Hix & Hheap & Hfiles & Hdump).
  split_and!; [done|done|done| |done].
  intros image_path content Hf. split.
  - apply (is_cached_unknown self image_path content); [done|]. by rewrite Hix.
  - rewrite (get_known self image_path content) by done. by rewrite Hix.
Qed.

Lemma clear_forgets_witness :
  ∃ w',
    PredictionCache.clear (H := blank_dump) the_cache indexed_world = (Ok tt, w') ∧
    index w' = ∅ ∧
    PredictionCache.is_cached (H := length_digest) the_cache "scan.nii.gz" w'
      = (Ok false, w') ∧
    files w' !! "unity_assets/scan_seg_liver.obj" = Some [x6f] ∧
    files w' !! "prediction_cache/cache_index.json" = Some [].
Proof.
  eexists.
  assert (Hclear : PredictionCache.clear (H := blank_dump) the_cache indexed_world
            = (Ok tt, (PredictionCache.clear (H := blank_dump) the_cache
                         indexed_world).2)).
  { vm_compute. reflexivity. }
  destruct (clear_forgets (H := length_digest) (H0 := blank_dump) the_cache
              indexed_world _ _ Hclear) as (Hix & _ & Hfiles & Hmiss & Hdump).
  split_and!; [exact Hclear | exact Hix | | |].
  - apply (Hmiss "scan.nii.gz" [x01; x02; x03]).
    rewrite Hfiles by discriminate. reflexivity.
  - rewrite Hfiles by discriminate. reflexivity.
  - exact (Hdump eq_refl).
Defined.

(** X10. An entry without an ["obj_files"] key counts as cached: the lookup
    defaults to the empty list and the existence loop has nothing to
    reject. *)
Theorem is_cached_without_obj_files `{Md5} (self : PredictionCache.t)
    (image_path : string) (content : list byte) (entry : loc) (d : pydict)
    (w : world) :
  files w !! image_path = Some content →
  index w !! md5_hexdigest content = Some entry →
  heap w !! entry = Some d →
  d !! "obj_files" = None →
  PredictionCache.is_cached self image_path w = (Ok true, w).
Proof.
  intros Hf Hix Hh Hd.
  rewrite (is_cached_known self image_path content entry d [] w Hf Hix Hh);
    [done | by rewrite Hd].
Qed.

Lemma is_cached_without_obj_files_witness :
  PredictionCache.is_cached (H := length_digest) the_cache "scan.nii.gz" bare_world
    = (Ok true, bare_world).
Proof.
  apply (is_cached_without_obj_files (H := length_digest) the_cache "scan.nii.gz"
           [x01; x02; x03] O (<["prediction_path" := PyStr "predictions/scan_seg.nii.gz"]> ∅)
           bare_world); reflexivity.
Defined.

(** X11. [is_cached] and [get] only look: however they end, nothing in the
    world has changed (no file, no object, no index entry, no log line). *)
Theorem lookups_change_nothing `{Md5} (self : PredictionCache.t)
    (image_path : string) (w : world) :
  (PredictionCache.is_cached self image_path w).2 = w ∧
  (PredictionCache.get self image_path w).2 = w.
Proof.
  unfold PredictionCache.is_cached, PredictionCache.get.
  destruct (files w !! image_path) as [content|] eqn:Hf.
  - rewrite !(bind_run _ _ _ _ _ (get_hash_Ok _ _ _ Hf)).
    split; [|done]. erewrite bind_run; [|reflexivity].
    destruct (index w !! md5_hexdigest content) as [entry|]; [|done].
    unfold deref, mbind at 1, M_bind, bind.
    destruct (heap w !! entry) as [d|]; [|done].
    destruct (default (PyPairs []) (d !! "obj_files")) as [| |s|l]; simpl; try done.
    + by case_decide.
    + by rewrite all_exist_spec.
  - by rewrite !(bind_raise _ _ _ _ _ (get_hash_missing _ _ Hf)).
Qed.

(** X12. [save] for an image that cannot be read raises
    [FileNotFoundError] before it has touched anything: the dict is not
    stamped, the index is not extended, the index file is not rewritten. *)
Theorem save_missing_image `{Md5} `{JsonDump (gmap string pydict)}
    (self : PredictionCache.t) (image_path : string) (result : loc) (w : world) :
  files w !! image_path = None →
  PredictionCache.save self image_path result w
    = (Raise (FileNotFoundError image_path), w).
Proof.
  intros Hf. unfold PredictionCache.save.
  apply bind_raise. by apply get_hash_missing.
Qed.

Lemma save_missing_image_witness :
  PredictionCache.save (H := length_digest) (H0 := blank_dump)
    the_cache "absent.nii.gz" O disk_world
  = (Raise (FileNotFoundError "absent.nii.gz"), disk_world).
Proof.
  apply (save_missing_image (H := length_digest) (H0 := blank_dump)
           the_cache "absent.nii.gz" O disk_world). reflexivity.
Defined.

(** ** Volumes: every tumor voxel is counted once *)

(** X13. Every tumor voxel is counted in exactly one listed tumor: the
    tumor volumes are computed from voxel counts, one per tumor and in the
    order of the ids, that are all positive and add up to the number of
    tumor voxels of the volume; each listed volume is its count times the
    voxel volume, rounded to 2 decimals, in the interpreter's arithmetic. *)
Theorem tumor_voxels_counted_once `{Scalars F} `{Nibabel} (nifti_path : string)
    (nii : nifti) (liver_label tumor_label : Z) :
  nib_load nifti_path = Ok nii →
  ∃ m sizes,
    VolumeCalculatorF.calculate nifti_path liver_label tumor_label = Ok m ∧
    length sizes = VolumeCalculatorF.tumor_count m ∧
    Forall (λ c, 1 ≤ c)%nat sizes ∧
    sum_list sizes = length (voxels_with nii tumor_label) ∧
    VolumeCalculatorF.volume_ml <$> VolumeCalculatorF.tumors m
      = (λ c, fround2 (fmul (fcount c) (voxel_volume nii))) <$> sizes.
Proof.
  intros Hload. unfold VolumeCalculatorF.calculate. rewrite Hload.
  exists (VolumeCalculatorF.metrics nii liver_label tumor_label),
         (component_sizes nii tumor_label).
  destruct (metrics_F_fields nii liver_label tumor_label) as (_ & Hcnt & Hts & _).
  cbn zeta in Hts. rewrite Hcnt, Hts.
  split_and!; [done| |apply component_sizes_positive|apply component_sizes_sum|].
  - unfold component_sizes. by rewrite length_fmap, length_seq.
  - generalize 1%nat at 1. generalize (component_sizes nii tumor_label).
    intros cs. induction cs as [|c cs IH]; intros a; [done|].
    cbn [length seq zip_with fmap list_fmap]. by rewrite IH.
Qed.

Lemma tumor_voxels_counted_once_witness :
  ∃ m sizes,
    VolumeCalculatorF.calculate (H := exact_scalars)
      (H0 := single_file "seg.nii.gz" thick_slices)
      "seg.nii.gz" LIVER_LABEL TUMOR_LABEL = Ok m ∧
    length sizes = VolumeCalculatorF.tumor_count m ∧
    Forall (λ c, 1 ≤ c)%nat sizes ∧
    sum_list sizes = 2%nat.
Proof.
  destruct (tumor_voxels_counted_once (H := exact_scalars)
              (H0 := single_file "seg.nii.gz" thick_slices)
              "seg.nii.gz" thick_slices LIVER_LABEL TUMOR_LABEL eq_refl)
    as (m & sizes & Hm & Hlen & Hpos & Hsum & _).
  exists m, sizes. split_and!; [exact Hm | exact Hlen | exact Hpos | exact Hsum].
Defined.

(** X15. [tumor_count] never exceeds the number of tumor voxels, is zero
    exactly when the volume has no tumor voxel, and is the length of the
    [tumors] list. *)
Theorem tumor_count_bounds `{Nibabel} (nifti_path : string) (nii : nifti)
    (liver_label tumor_label : Z) :
  nib_load nifti_path = Ok nii →
  ∃ m, VolumeCalculator.calculate nifti_path liver_label tumor_label = Ok m ∧
    (VolumeCalculator.tumor_count m ≤ length (voxels_with nii tumor_label))%nat ∧
    (VolumeCalculator.tumor_count m = O ↔ voxels_with nii tumor_label = []) ∧
    length (VolumeCalculator.tumors m) = VolumeCalculator.tumor_count m.
Proof.
  intros Hload. unfold VolumeCalculator.calculate. rewrite Hload.
  eexists. split; [done|].
  destruct (metrics_fields nii liver_label tumor_label) as (_ & -> & -> & _).
  split_and!.
  - unfold tumor_firsts, cc_roots. apply length_filter.
  - split.
    + intros Hn. destruct (decide (voxels_with nii tumor_label = [])) as [|HT]; [done|].
      destruct (voxels_with nii tumor_label) as [|p T] eqn:HT'; [done|].
      assert (Hp : p ∈ voxels_with nii tumor_label) by (rewrite HT'; by left).
      destruct (cc_root_exists _ _ _ face_neighbours_sym
                  (voxels_with_sorted nii tumor_label) p Hp) as (r & Hr & _).
      fold (tumor_firsts nii tumor_label) in Hr.
      destruct (tumor_firsts nii tumor_label); [by apply elem_of_nil in Hr | done].
    + intros HT. unfold tumor_firsts, cc_roots. by rewrite HT.
  - by rewrite length_fmap, length_seq.
Qed.

Lemma tumor_count_bounds_witness :
  ∃ m, VolumeCalculator.calculate (H := single_file "seg.nii.gz" two_blobs)
         "seg.nii.gz" LIVER_LABEL TUMOR_LABEL = Ok m ∧
       (VolumeCalculator.tumor_count m ≤ 2)%nat ∧
       (VolumeCalculator.tumor_count m = O ↔ voxels_with two_blobs TUMOR_LABEL = []) ∧
       length (VolumeCalculator.tumors m) = VolumeCalculator.tumor_count m.
Proof.
  exact (tumor_count_bounds (H := single_file "seg.nii.gz" two_blobs)
           "seg.nii.gz" two_blobs LIVER_LABEL TUMOR_LABEL eq_refl).
Defined.

(** ** Mesh files: names, existence, hand-over to cache and delivery *)

Lemma open_log_quiet : callback_quiet (Some open_log).
Proof. intros f [= <-] msg tag. reflexivity. Qed.

Lemma string_length_app (s t : string) :
  String.length (s +:+ t) = (String.length s + String.length t)%nat.
Proof. induction s as [|c s IH]; simpl; [done|]. by rewrite IH. Qed.

Lemma string_app_inv_r (s1 s2 t : string) : s1 +:+ t = s2 +:+ t → s1 = s2.
Proof.
  revert s2. induction s1 as [|c s1 IH]; intros [|c' s2] Heq; simpl in Heq.
  - done.
  - apply (f_equal String.length) in Heq.
    rewrite !string_length_app in Heq. simpl in Heq. lia.
  - apply (f_equal String.length) in Heq.
    rewrite !string_length_app in Heq. simpl in Heq. lia.
  - injection Heq as -> Heq. f_equal. by apply IH.
Qed.

Lemma organ_name_of_inj : Inj (=) (=) MeshGenerator.organ_name_of.
Proof.
  intros l1 l2. unfold MeshGenerator.organ_name_of.
  destruct (ORGAN_LABELS !! l1) as [n1|] eqn:H1, (ORGAN_LABELS !! l2) as [n2|] eqn:H2;
    simpl.
  - intros ->. unfold ORGAN_LABELS in *.
    apply elem_of_list_to_map_2 in H1, H2.
    repeat (apply elem_of_cons in H1 as [H1|H1]; [injection H1 as -> Hn1|]);
      try (by apply elem_of_nil in H1);
      repeat (apply elem_of_cons in H2 as [H2|H2]; [injection H2 as -> Hn2|]);
      try (by apply elem_of_nil in H2); try done; try (subst; discriminate).
  - intros ->. unfold ORGAN_LABELS in *.
    apply elem_of_list_to_map_2 in H1.
    repeat (apply elem_of_cons in H1 as [H1|H1]; [injection H1 as -> Hn1; discriminate Hn1|]).
    by apply elem_of_nil in H1.
  - intros <-. unfold ORGAN_LABELS in *.
    apply elem_of_list_to_map_2 in H2.
    repeat (apply elem_of_cons in H2 as [H2|H2]; [injection H2 as -> Hn2; discriminate Hn2|]).
    by apply elem_of_nil in H2.
  - intros Heq. apply (inj (String.append "organ_")) in Heq. by apply (inj pretty).
Qed.

Lemma path_join_inj (a b1 b2 : string) (c : ascii) (r1 r2 : string) :
  b1 = String c r1 → b2 = String c r2 → path_join a b1 = path_join a b2 → b1 = b2.
Proof.
  intros -> ->. unfold path_join.
  assert (Hp : String.prefix "/" (String c r1) = String.prefix "/" (String c r2)).
  { cbn [String.prefix]. destruct (ascii_dec "/" c); [by destruct r1, r2 | done]. }
  rewrite Hp. destruct (String.prefix "/" (String c r2)); [done|].
  destruct (bool_decide (a = EmptyString) || ends_with_slash a).
  - apply (inj (String.append a)).
  - intros Heq. apply (inj (String.append a)) in Heq.
    by apply (inj (String.append "/")) in Heq.
Qed.

Lemma out_path_of_inj output_dir base_name :
  Inj (=) (=) (MeshGenerator.out_path_of output_dir base_name).
Proof.
  intros l1 l2 Heq. unfold MeshGenerator.out_path_of in Heq.
  apply organ_name_of_inj.
  set (o1 := MeshGenerator.organ_name_of l1) in *.
  set (o2 := MeshGenerator.organ_name_of l2) in *.
  assert (Hb : base_name +:+ "_" +:+ o1 +:+ ".obj" = base_name +:+ "_" +:+ o2 +:+ ".obj").
  { destruct base_name as [|c base].
    - by eapply (path_join_inj output_dir _ _ "_"%char).
    - by eapply (path_join_inj output_dir _ _ c). }
  apply (inj (String.append base_name)) in Hb.
  apply (inj (String.append "_")) in Hb.
  by apply string_app_inv_r in Hb.
Qed.

(** *** What [generate] does to the file system *)

Lemma log_files cb msg tag w r w' : log cb msg tag w = (r, w') → files w' = files w.
Proof.
  unfold log. destruct cb as [f|]; [|by intros [= <- <-]].
  destruct (f msg tag); by intros [= <- <-].
Qed.

Lemma export_label_files `{MeshLib} self nii output_dir base_name label w r w' :
  MeshGenerator.export_label self nii output_dir base_name label w = (r, w') →
  (∀ p, p ≠ MeshGenerator.out_path_of output_dir base_name label →
        files w' !! p = files w !! p) ∧
  (is_Some (files w !! MeshGenerator.out_path_of output_dir base_name label) ∨ r = Ok tt →
   is_Some (files w' !! MeshGenerator.out_path_of output_dir base_name label)).
Proof.
  unfold MeshGenerator.export_label.
  destruct (MeshGenerator.build_mesh self nii label) as [mesh|e].
  - erewrite bind_run; [|reflexivity]. unfold store_file.
    destruct (export_obj mesh) as [out [e|]]; simpl; intros [= <- <-]; simpl;
      (split; [intros p Hp; by rewrite lookup_insert_ne
              |intros _; rewrite lookup_insert_eq; by eexists]).
  - erewrite bind_raise; [|reflexivity]. intros [= <- <-].
    split; [done|]. by intros [?|[=]].
Qed.

Lemma generate_label_files `{MeshLib} self nii output_dir base_name cb acc label w r w' :
  MeshGenerator.generate_label self nii output_dir base_name cb acc label w = (r, w') →
  (∀ p, p ≠ MeshGenerator.out_path_of output_dir base_name label →
        files w' !! p = files w !! p) ∧
  (is_Some (files w !! MeshGenerator.out_path_of output_dir base_name label) →
   is_Some (files w' !! MeshGenerator.out_path_of output_dir base_name label)) ∧
  (∀ acc', r = Ok acc' →
     acc' = acc ∨
     acc' = acc ++ [(label, MeshGenerator.out_path_of output_dir base_name label)] ∧
     is_Some (files w' !! MeshGenerator.out_path_of output_dir base_name label)).
Proof.
  unfold MeshGenerator.generate_label.
  destruct (MeshGenerator.export_label self nii output_dir base_name label w)
    as [[[]|e] w1] eqn:Hexp;
    destruct (export_label_files _ _ _ _ _ _ _ _ Hexp) as [Hother Hpath];
    (erewrite bind_run; [|unfold attempt; by rewrite Hexp]).
  - assert (Hp1 : is_Some (files w1 !! MeshGenerator.out_path_of output_dir base_name label))
      by auto.
    unfold try_except.
    destruct (log cb (MeshGenerator.created_msg label) "info" w1) as [[[]|e] w2] eqn:Hlog;
      pose proof (log_files _ _ _ _ _ _ Hlog) as F2.
    + rewrite (bind_run _ _ _ _ _ Hlog). intros [= <- <-]. rewrite F2.
      split_and!; [done|auto|]. intros acc' [= <-]. by right.
    + rewrite (bind_raise _ _ _ _ _ Hlog).
      destruct (log cb (MeshGenerator.skipped_msg label e) "warning" w2)
        as [[[]|e'] w3] eqn:Hlog2; pose proof (log_files _ _ _ _ _ _ Hlog2) as F3.
      * rewrite (bind_run _ _ _ _ _ Hlog2). intros [= <- <-]. rewrite F3, F2.
        split_and!; [done|auto|]. intros acc' [= <-]. by right.
      * rewrite (bind_raise _ _ _ _ _ Hlog2). intros [= <- <-]. rewrite F3, F2.
        split_and!; [done|auto|]. intros acc' [=].
  - destruct (log cb (MeshGenerator.skipped_msg label e) "warning" w1)
      as [[[]|e'] w2] eqn:Hlog; pose proof (log_files _ _ _ _ _ _ Hlog) as F2.
    + rewrite (bind_run _ _ _ _ _ Hlog). intros [= <- <-]. rewrite F2.
      split_and!; [done|auto|]. intros acc' [= <-]. by left.
    + rewrite (bind_raise _ _ _ _ _ Hlog). intros [= <- <-]. rewrite F2.
      split_and!; [done|auto|]. intros acc' [=].
Qed.

Lemma generate_loop_files `{MeshLib} self nii output_dir base_name cb labels :
  ∀ acc w r w',
  MeshGenerator.generate_loop self nii output_dir base_name cb acc labels w = (r, w') →
  grows w w' ∧
  (∀ p, (∀ label, label ∈ labels →
           p ≠ MeshGenerator.out_path_of output_dir base_name label) →
        files w' !! p = files w !! p) ∧
  (∀ l, r = Ok l → ∃ l', l = acc ++ l' ∧
     l' `sublist_of` ((λ label, (label, MeshGenerator.out_path_of output_dir base_name label))
                        <$> labels) ∧
     Forall (λ item, is_Some (files w' !! item.2)) l').
Proof.
  induction labels as [|label rest IH]; intros acc w r w'.
  - intros [= <- <-]. split_and!; [by intros p ?|done|].
    intros l [= <-]. exists []. rewrite app_nil_r. by split_and!.
  - cbn [MeshGenerator.generate_loop].
    destruct (MeshGenerator.generate_label self nii output_dir base_name cb acc label w)
      as [[acc1|e] w1] eqn:Hone;
      destruct (generate_label_files _ _ _ _ _ _ _ _ _ _ Hone) as (Hother & Hpath & Hacc).
    + rewrite (bind_run _ _ _ _ _ Hone). intros Hrest.
      destruct (IH _ _ _ _ Hrest) as (Hgrow & Hother' & Hl).
      assert (Hg1 : grows w w1).
      { intros p Hp.
        destruct (decide (p = MeshGenerator.out_path_of output_dir base_name label))
          as [->|Hne]; [auto | by rewrite Hother]. }
      split_and!.
      * intros p Hp. by apply Hgrow, Hg1.
      * intros p Hp. rewrite Hother', Hother; [done|..].
        -- apply Hp. by left.
        -- intros l' Hl'. apply Hp. by right.
      * intros l ->. destruct (Hl _ eq_refl) as (l' & -> & Hsub & Hex).
        destruct (Hacc _ eq_refl) as [->|[-> Hnew]].
        -- exists l'. split_and!; [done| |done]. by apply sublist_cons.
        -- eexists. rewrite <- (assoc_L (++)). split; [done|]. split.
           ++ by apply sublist_skip.
           ++ constructor; [by apply Hgrow | done].
    + rewrite (bind_raise _ _ _ _ _ Hone). intros [= <- <-].
      split_and!.
      * intros p Hp.
        destruct (decide (p = MeshGenerator.out_path_of output_dir base_name label))
          as [->|Hne]; [auto | by rewrite Hother].
      * intros p Hp. apply Hother, Hp. by left.
      * intros l [=].
Qed.

Lemma makedirs_files path w r w' : makedirs path w = (r, w') → files w' = files w ∧ trace w' = trace w.
Proof.
  unfold makedirs, mbind, M_bind, bind, next_outcome.
  destruct (script w) as [|[|e k] s]; by intros [= <- <-].
Qed.

Lemma generate_files `{Nibabel} `{MeshLib} self nifti_path output_dir cb w l w' :
  MeshGenerator.generate self nifti_path output_dir cb w = (Ok l, w') →
  (∃ nii, nib_load nifti_path = Ok nii ∧
     l `sublist_of` ((λ label, (label, MeshGenerator.out_path_of output_dir
                                         (MeshGenerator.base_name_of nifti_path) label))
                       <$> MeshGenerator.labels_of nii)) ∧
  grows w w' ∧
  (∀ p, (∀ label, p ≠ MeshGenerator.out_path_of output_dir
                         (MeshGenerator.base_name_of nifti_path) label) →
        files w' !! p = files w !! p) ∧
  Forall (λ item, is_Some (files w' !! item.2)) l.
Proof.
  unfold MeshGenerator.generate.
  intros (? & w1 & Hmk & Hrest)%bind_Ok.
  apply makedirs_files in Hmk as [F1 _].
  apply bind_Ok in Hrest as (nii & w2 & [Hload ->]%lift_Ok & Hloop).
  destruct (generate_loop_files _ _ _ _ _ _ _ _ _ _ Hloop) as (Hgrow & Hother & Hl).
  destruct (Hl _ eq_refl) as (l' & -> & Hsub & Hex).
  unfold grows in *. rewrite F1 in *. split_and!; [by exists nii|done| |done].
  intros p Hp. apply Hother. intros label _. apply Hp.
Qed.

Lemma generate_quiet `{Nibabel} `{MeshLib} self nifti_path output_dir cb nii w :
  callback_quiet cb → nib_load nifti_path = Ok nii → next_io_ok w →
  ∃ w', MeshGenerator.generate self nifti_path output_dir cb w
        = (Ok (omap (label_pair self nii output_dir (MeshGenerator.base_name_of nifti_path))
                    (MeshGenerator.labels_of nii)), w').
Proof.
  intros Hq Hload Hio. unfold MeshGenerator.generate.
  assert (Hmk : ∃ w1, makedirs output_dir w = (Ok tt, w1)).
  { unfold makedirs, next_io_ok, mbind, M_bind, bind, next_outcome in *.
    destruct (script w) as [|[|e k] s]; [eauto|eauto|destruct Hio]. }
  destruct Hmk as (w1 & Hmk).
  rewrite (bind_run _ _ _ _ _ Hmk).
  erewrite bind_run; [|unfold lift; by rewrite Hload].
  destruct (generate_loop_quiet self nii output_dir
              (MeshGenerator.base_name_of nifti_path) cb []
              (MeshGenerator.labels_of nii) w1 Hq) as (w' & Hloop & _).
  exists w'. by rewrite Hloop.
Qed.

Lemma labels_of_NoDup nii : NoDup (MeshGenerator.labels_of nii).
Proof.
  pose proof (labels_of_sorted nii) as Hs.
  induction Hs as [|x l _ IH Hx]; constructor; [|done].
  intros Hin. rewrite Forall_forall in Hx. specialize (Hx _ Hin). lia.
Qed.

(** X16. With a log callback that returns normally, [generate] on a
    loadable volume returns pairs whose paths are pairwise distinct (no mesh
    overwrites another label's mesh) and all exist as files afterwards; no
    file that existed before is removed, and only mesh paths of this volume
    are written. *)
Theorem generate_meshes_on_disk `{Nibabel} `{MeshLib} (self : MeshGenerator.t)
    (nifti_path output_dir : string) (log_callback : option callback)
    (nii : nifti) (w : world) :
  callback_quiet log_callback →
  nib_load nifti_path = Ok nii →
  next_io_ok w →
  ∃ obj_files w',
    MeshGenerator.generate self nifti_path output_dir log_callback w
      = (Ok obj_files, w') ∧
    NoDup obj_files.*2 ∧
    Forall (λ item, is_Some (files w' !! item.2)) obj_files ∧
    (∀ p, is_Some (files w !! p) → is_Some (files w' !! p)) ∧
    (∀ p, (∀ label, p ≠ MeshGenerator.out_path_of output_dir
                           (MeshGenerator.base_name_of nifti_path) label) →
          files w' !! p = files w !! p).
Proof.
  intros Hq Hload Hio.
  destruct (generate_quiet self nifti_path output_dir log_callback nii w Hq Hload Hio)
    as (w' & Hgen).
  destruct (generate_files _ _ _ _ _ _ _ Hgen) as ((nii' & Hload' & Hsub) & Hgrow & Hother & Hex).
  rewrite Hload in Hload'. injection Hload' as <-.
  eexists _, w'. split_and!; [exact Hgen| |done|done|done].
  eapply sublist_NoDup; [|apply fmap_sublist, Hsub].
  rewrite <- list_fmap_compose. apply NoDup_fmap_2; [|apply labels_of_NoDup].
  intros l1 l2. apply out_path_of_inj.
Qed.

Lemma generate_meshes_on_disk_witness :
  ∃ obj_files w',
    MeshGenerator.generate (H := single_file "seg.nii.gz" two_blobs)
      (H0 := counting_meshes) MeshGenerator.__init__ "seg.nii.gz" "unity_assets"
      (Some open_log) empty_world = (Ok obj_files, w') ∧
    NoDup obj_files.*2 ∧
    Forall (λ item, is_Some (files w' !! item.2)) obj_files.
Proof.
  destruct (generate_meshes_on_disk (H := single_file "seg.nii.gz" two_blobs)
              (H0 := counting_meshes) MeshGenerator.__init__ "seg.nii.gz" "unity_assets"
              (Some open_log) two_blobs empty_world open_log_quiet eq_refl I)
    as (obj_files & w' & Hgen & Hnd & Hex & _).
  exists obj_files, w'. split_and!; [exact Hgen | exact Hnd | exact Hex].
Defined.

(** X17. On a volume that is background everywhere, [generate] returns the
    empty list, writes no file and never calls the log callback (so even a
    callback that would raise does no harm). *)
Theorem generate_background_only `{Nibabel} `{MeshLib} (self : MeshGenerator.t)
    (nifti_path output_dir : string) (log_callback : option callback)
    (nii : nifti) (w : world) :
  nib_load nifti_path = Ok nii →
  next_io_ok w →
  (∀ p, p ∈ indices (shape nii) → get_fdata nii p = 0) →
  ∃ w', MeshGenerator.generate self nifti_path output_dir log_callback w = (Ok [], w') ∧
        files w' = files w ∧ trace w' = trace w.
Proof.
  intros Hload Hio Hzero. unfold MeshGenerator.generate.
  assert (Hmk : ∃ w1, makedirs output_dir w = (Ok tt, w1)).
  { unfold makedirs, next_io_ok, mbind, M_bind, bind, next_outcome in *.
    destruct (script w) as [|[|e k] s]; [eauto|eauto|destruct Hio]. }
  destruct Hmk as (w1 & Hmk). pose proof (makedirs_files _ _ _ _ Hmk) as [F1 T1].
  rewrite (bind_run _ _ _ _ _ Hmk).
  erewrite bind_run; [|unfold lift; by rewrite Hload].
  assert (Hnil : MeshGenerator.labels_of nii = []).
  { apply elem_of_nil_inv. intros v (Hv & p & Hp & Hd)%elem_of_labels_of.
    rewrite (Hzero p Hp) in Hd. congruence. }
  rewrite Hnil. exists w1. by split_and!.
Qed.

Lemma generate_background_only_witness :
  ∃ w', MeshGenerator.generate (H := single_file "seg.nii.gz" clear_scan)
          (H0 := counting_meshes) MeshGenerator.__init__ "seg.nii.gz" "unity_assets"
          (Some closed_log) disk_world = (Ok [], w') ∧
        files w' = files disk_world ∧ trace w' = [].
Proof.
  apply (generate_background_only (H := single_file "seg.nii.gz" clear_scan)
           (H0 := counting_meshes) MeshGenerator.__init__ "seg.nii.gz" "unity_assets"
           (Some closed_log) clear_scan disk_world); [reflexivity | exact I | done].
Defined.

Lemma Forall_is_Some_Forall2 {A B} (f : A → option B) (l : list A) :
  Forall (λ x, is_Some (f x)) l → ∃ ys, Forall2 (λ x y, f x = Some y) l ys.
Proof.
  induction 1 as [|x l [y Hy] _ [ys IH]]; [by exists []|].
  exists (y :: ys). by constructor.
Qed.

Lemma labels_of_count nii :
  (∀ p, p ∈ indices (shape nii) → u32 (get_fdata nii p)) →
  Z.of_nat (length (MeshGenerator.labels_of nii)) < 2 ^ 32.
Proof.
  intros Hu.
  assert (Hsub : MeshGenerator.labels_of nii ⊆+ seqZ 1 (2 ^ 32 - 1)).
  { apply NoDup_submseteq; [apply labels_of_NoDup|].
    intros v (Hv & p & Hp & <-)%elem_of_labels_of.
    specialize (Hu p Hp). unfold u32 in Hu. apply elem_of_seqZ. lia. }
  apply submseteq_length in Hsub. rewrite length_seqZ in Hsub. lia.
Qed.

(** X18. The prediction pipeline's hand-over from mesh generation to the
    cache: when the list returned by [generate] is stored under
    ["obj_files"] in the dict that [save] then records for the input image,
    [is_cached] is true right away and [get] returns that dict with the
    generated list in it. *)
Theorem generated_meshes_are_cached `{Nibabel} `{MeshLib} `{Md5}
    `{JsonDump (gmap string pydict)}
    (generator : MeshGenerator.t) (cache : PredictionCache.t)
    (input_file pred_path unity_dir : string) (log_callback : option callback)
    (obj_files : list (Z * string)) (result : loc) (d : pydict) (w w1 w2 : world) :
  callback_quiet log_callback →
  MeshGenerator.generate generator pred_path unity_dir log_callback w
    = (Ok obj_files, w1) →
  heap w1 !! result = Some d →
  d !! "obj_files" = Some (PyPairs obj_files) →
  input_file ≠ PredictionCache.cache_file cache →
  PredictionCache.save cache input_file result w1 = (Ok tt, w2) →
  PredictionCache.is_cached cache input_file w2 = (Ok true, w2) ∧
  PredictionCache.get cache input_file w2 = (Ok (Some result), w2) ∧
  ∃ d', heap w2 !! result = Some d' ∧ d' !! "obj_files" = Some (PyPairs obj_files).
Proof.
  intros _ Hgen Hh Hd Hne Hsave.
  destruct (generate_files _ _ _ _ _ _ _ Hgen) as (_ & _ & _ & Hex).
  destruct (files w1 !! input_file) as [content|] eqn:Hf; last first.
  { unfold PredictionCache.save in Hsave.
    by rewrite (bind_raise _ _ _ _ _ (get_hash_missing _ _ Hf)) in Hsave. }
  destruct (save_effect cache input_file result content d w1 Hf Hh)
    as (r & w' & Hsave' & Hheap & Hix & Hfiles & Hidx).
  rewrite Hsave in Hsave'. injection Hsave' as <- <-.
  assert (Hf2 : files w2 !! input_file = Some content) by (by rewrite Hfiles).
  split_and!.
  - erewrite is_cached_known; [|done|by rewrite Hix, lookup_insert_eq
                                 |by rewrite Hheap, lookup_insert_eq
                                 |by rewrite lookup_insert_ne, Hd].
    rewrite bool_decide_eq_true_2; [done|].
    apply Forall_fmap. eapply Forall_impl; [apply Hex|]. intros item Hitem. simpl.
    destruct (decide (item.2 = PredictionCache.cache_file cache)) as [->|Hp].
    + by apply Hidx.
    + by rewrite Hfiles.
  - rewrite (get_known cache input_file content) by done.
    by rewrite Hix, lookup_insert_eq.
  - eexists. split; [by rewrite Hheap, lookup_insert_eq|]. by rewrite lookup_insert_ne.
Qed.

Lemma generated_meshes_are_cached_witness :
  ∃ w1 w2,
    MeshGenerator.generate (H := single_file "seg.nii.gz" two_blobs)
      (H0 := counting_meshes) MeshGenerator.__init__ "seg.nii.gz" "unity_assets"
      (Some open_log) mesh_world = (Ok [(9, "unity_assets/seg_tumor.obj")], w1) ∧
    PredictionCache.save (H := length_digest) (H0 := blank_dump)
      the_cache "scan.nii.gz" O w1 = (Ok tt, w2) ∧
    PredictionCache.is_cached (H := length_digest) the_cache "scan.nii.gz" w2
      = (Ok true, w2).
Proof.
  pose (run1 := MeshGenerator.generate (H := single_file "seg.nii.gz" two_blobs)
                  (H0 := counting_meshes) MeshGenerator.__init__ "seg.nii.gz"
                  "unity_assets" (Some open_log) mesh_world).
  pose (run2 := PredictionCache.save (H := length_digest) (H0 := blank_dump)
                  the_cache "scan.nii.gz" O run1.2).
  assert (Hrun1 : run1 = (Ok [(9, "unity_assets/seg_tumor.obj")], run1.2))
    by (vm_compute; reflexivity).
  assert (Hrun2 : run2 = (Ok tt, run2.2)) by (vm_compute; reflexivity).
  exists run1.2, run2.2. split; [exact Hrun1|]. split; [exact Hrun2|].
  destruct (generated_meshes_are_cached (H := single_file "seg.nii.gz" two_blobs)
              (H0 := counting_meshes) (H1 := length_digest) (H2 := blank_dump)
              MeshGenerator.__init__ the_cache "scan.nii.gz" "seg.nii.gz" "unity_assets"
              (Some open_log) [(9, "unity_assets/seg_tumor.obj")] O
              (<["prediction_path" := PyStr "seg.nii.gz"]>
                 (<["obj_files" := PyPairs [(9, "unity_assets/seg_tumor.obj")]]> ∅))
              mesh_world run1.2 run2.2 open_log_quiet Hrun1)
    as (Hhit & _); [reflexivity | reflexivity | discriminate | exact Hrun2 | exact Hhit].
Defined.

(** X19. The hand-over from mesh generation to delivery: on a network that
    does not fail, whatever [generate] returned is sent by [send] in full
    ([True], one frame per generated mesh with the bytes now in its file),
    provided the labels of the volume fit 32 bits unsigned and every
    generated file is shorter than 2^32 bytes. *)
Theorem generated_meshes_are_sent `{Nibabel} `{MeshLib} `{JsonEncoder P}
    (generator : MeshGenerator.t) (client : UnityClient.t)
    (pred_path unity_dir : string) (patient_data : P)
    (log_callback : option callback) (nii : nifti) (json : list byte)
    (obj_files : list (Z * string)) (w w1 : world) :
  callback_quiet log_callback →
  nib_load pred_path = Ok nii →
  MeshGenerator.generate generator pred_path unity_dir log_callback w
    = (Ok obj_files, w1) →
  calm w1 →
  0 ≤ UnityClient.timeout client → 0 ≤ UnityClient.port client ≤ 65535 →
  json_dumps_utf8 patient_data = Ok json → u32 (UnityClient.len json) →
  (∀ p, p ∈ indices (shape nii) → u32 (get_fdata nii p)) →
  (∀ item c, item ∈ obj_files → files w1 !! item.2 = Some c → u32 (UnityClient.len c)) →
  ∃ contents w2,
    UnityClient.send client obj_files patient_data log_callback w1 = (Ok true, w2) ∧
    Forall2 (λ item c, files w1 !! item.2 = Some c) obj_files contents ∧
    wire w2 = wire w1 ++ delivery_stream json obj_files contents.
Proof.
  intros Hq Hload Hgen Hc Ht Hp Hjson Hj Hlabels Hsizes.
  destruct (generate_files _ _ _ _ _ _ _ Hgen) as ((nii' & Hload' & Hsub) & _ & _ & Hex).
  rewrite Hload in Hload'. injection Hload' as <-.
  destruct (Forall_is_Some_Forall2 _ _ Hex) as (contents & Hcontents).
  assert (Hn : u32 (UnityClient.len obj_files)).
  { unfold u32, UnityClient.len. split; [lia|].
    apply sublist_length in Hsub. rewrite length_fmap in Hsub.
    pose proof (labels_of_count nii Hlabels). lia. }
  assert (Hall : Forall2 (λ item c, files w1 !! item.2 = Some c ∧ u32 item.1 ∧
                                    u32 (UnityClient.len c)) obj_files contents).
  { assert (Hu : Forall (λ item : Z * string, u32 item.1) obj_files).
    { apply Forall_forall. intros item Hitem.
      apply (elem_of_sublist _ _ _ Hitem) in Hsub.
      apply list_elem_of_fmap in Hsub as (label & -> & Hl). simpl.
      apply elem_of_labels_of in Hl as (_ & p & Hp' & <-). by apply Hlabels. }
    clear -Hu Hcontents Hsizes.
    induction Hcontents as [|item c l cs Hc _ IH]; [constructor|].
    apply Forall_cons in Hu as [Hu1 Hu]. constructor.
    - split_and!; [done|done|]. apply (Hsizes item c); [by left|done].
    - apply IH; [|done]. intros item' c' Hin. apply Hsizes. by right. }
  destruct (send_body_reaches_loop client obj_files patient_data log_callback json w1
              Hc Hq Ht Hp Hjson Hj Hn) as (w2 & C2 & S2 & Hbody).
  destruct (for_each_send_mesh_calm obj_files contents (files w1) Hall w2 C2)
    as (w3 & R3 & C3 & S3); [by destruct S2|].
  destruct (close_calm w3 C3) as (w4 & R4 & _ & S4).
  exists contents, w4. unfold UnityClient.send, try_except.
  rewrite Hbody, (bind_run _ _ _ _ _ R3), (bind_run _ _ _ _ _ R4).
  split_and!; [done|done|].
  pose proof (sends_app _ _ _ _ _ S2 S3) as T1.
  pose proof (sends_app _ _ _ _ _ T1 S4) as [T2 _].
  rewrite T2. f_equal. unfold delivery_stream.
  rewrite !app_nil_r. by rewrite <- !(assoc_L (++)).
Qed.

Lemma generated_meshes_are_sent_witness :
  ∃ w1 w2,
    MeshGenerator.generate (H := single_file "seg.nii.gz" two_blobs)
      (H0 := counting_meshes) MeshGenerator.__init__ "seg.nii.gz" "unity_assets"
      (Some open_log) mesh_world = (Ok [(9, "unity_assets/seg_tumor.obj")], w1) ∧
    UnityClient.send UnityClient.__init__ [(9, "unity_assets/seg_tumor.obj")]
      liver_payload (Some open_log) w1 = (Ok true, w2).
Proof.
  pose (run1 := MeshGenerator.generate (H := single_file "seg.nii.gz" two_blobs)
                  (H0 := counting_meshes) MeshGenerator.__init__ "seg.nii.gz"
                  "unity_assets" (Some open_log) mesh_world).
  assert (Hrun1 : run1 = (Ok [(9, "unity_assets/seg_tumor.obj")], run1.2))
    by (vm_compute; reflexivity).
  exists run1.2.
  destruct (generated_meshes_are_sent (H := single_file "seg.nii.gz" two_blobs)
              (H0 := counting_meshes) MeshGenerator.__init__ UnityClient.__init__
              "seg.nii.gz" "unity_assets" liver_payload (Some open_log) two_blobs
              (String.list_byte_of_string (dumps liver_payload))
              [(9, "unity_assets/seg_tumor.obj")] mesh_world run1.2
              open_log_quiet eq_refl Hrun1)
    as (contents & w2 & Hsend & _).
  - constructor.
  - done.
  - done.
  - reflexivity.
  - by vm_compute.
  - intros p Hp. revert p Hp. apply Forall_forall.
    repeat constructor; by vm_compute.
  - intros item c ->%list_elem_of_singleton Hc. vm_compute in Hc.
    injection Hc as <-. by vm_compute.
  - exists w2. split; [exact Hrun1 | exact Hsend].
Defined.

(** ** File names *)

Lemma has_slash_app a b : has_slash (a +:+ b) = has_slash a || has_slash b.
Proof. induction a as [|c a IH]; simpl; [done|]. by rewrite IH, orb_assoc. Qed.

Lemma plain_no_slash s : plain s → has_slash s = false.
Proof.
  induction s as [|c s IH]; simpl; [done|]. intros (_ & Hc & Hs).
  rewrite IH by done. rewrite orb_false_r. by apply Ascii.eqb_neq.
Qed.

Lemma basename_plain s : has_slash s = false → basename s = s.
Proof.
  destruct s as [|c s]; simpl; [done|].
  intros [Hc Hs]%orb_false_elim. by rewrite Hc, Hs.
Qed.

Lemma basename_join dir name :
  has_slash name = false → basename (dir +:+ "/" +:+ name) = name.
Proof.
  intros Hn. induction dir as [|c dir IH].
  - simpl. destruct name as [|c name]; [done|].
    change (basename (String c name) = String c name). by apply basename_plain.
  - change (basename (String c (dir +:+ "/" +:+ name)) = name).
    cbn [basename]. rewrite has_slash_app. simpl.
    rewrite orb_true_r. rewrite IH. by destruct (Ascii.eqb c "/").
Qed.

Lemma prefix_dot old c rest :
  c ≠ "."%char → String.prefix (String "." old) (String c rest) = false.
Proof. intros Hc. cbn [String.prefix]. by destruct (ascii_dec "." c). Qed.

Lemma remove_all_go_plain old stem tail :
  plain stem →
  remove_all_go (String "." old) O (stem +:+ tail)
  = stem +:+ remove_all_go (String "." old) O tail.
Proof.
  induction stem as [|c stem IH]; [done|]. intros (Hc & _ & Hs).
  change (String c stem +:+ tail) with (String c (stem +:+ tail)).
  cbn [remove_all_go]. rewrite prefix_dot by done. by rewrite IH.
Qed.

Lemma replace_all_go_plain old new stem tail :
  plain stem →
  replace_all_go (String "." old) new O (stem +:+ tail)
  = stem +:+ replace_all_go (String "." old) new O tail.
Proof.
  induction stem as [|c stem IH]; [done|]. intros (Hc & _ & Hs).
  change (String c stem +:+ tail) with (String c (stem +:+ tail)).
  cbn [replace_all_go]. rewrite prefix_dot by done. by rewrite IH.
Qed.

Lemma string_app_nil_r (s : string) : s +:+ EmptyString = s.
Proof.
  induction s as [|c s IH]; [done|].
  change (String c (s +:+ EmptyString) = String c s). by f_equal.
Qed.

Lemma has_slash_plain_ext stem ext :
  plain stem → has_slash ext = false → has_slash (stem +:+ ext) = false.
Proof. intros Hs He. by rewrite has_slash_app, (plain_no_slash _ Hs), He. Qed.

Lemma base_name_of_stem dir stem :
  plain stem →
  MeshGenerator.base_name_of (dir +:+ "/" +:+ stem +:+ ".nii.gz") = stem ∧
  MeshGenerator.base_name_of (dir +:+ "/" +:+ stem +:+ ".nii") = stem ∧
  MeshGenerator.base_name_of (stem +:+ ".nii.gz") = stem ∧
  MeshGenerator.base_name_of (stem +:+ ".nii") = stem.
Proof.
  intros Hs. unfold MeshGenerator.base_name_of, remove_all.
  rewrite !basename_join, !basename_plain by (by apply has_slash_plain_ext).
  rewrite !(remove_all_go_plain "nii.gz") by done.
  change (remove_all_go ".nii.gz" 0 ".nii.gz") with EmptyString.
  change (remove_all_go ".nii.gz" 0 ".nii") with ".nii".
  rewrite !(remove_all_go_plain "nii") by done.
  change (remove_all_go ".nii" 0 ".nii") with EmptyString.
  by rewrite !string_app_nil_r.
Qed.

(** X20. Mesh files are named after the stem of the segmentation file
    only: for a stem without dots and slashes, the directory of the file and
    whether it ends in [.nii] or [.nii.gz] do not enter the mesh path, so two
    such files with the same stem are written to the same mesh files of an
    output directory. *)
Theorem mesh_paths_ignore_directory (dir1 dir2 stem output_dir : string) (label : Z) :
  plain stem →
  MeshGenerator.base_name_of (dir1 +:+ "/" +:+ stem +:+ ".nii.gz") = stem ∧
  MeshGenerator.out_path_of output_dir
    (MeshGenerator.base_name_of (dir1 +:+ "/" +:+ stem +:+ ".nii.gz")) label
  = MeshGenerator.out_path_of output_dir
      (MeshGenerator.base_name_of (dir2 +:+ "/" +:+ stem +:+ ".nii")) label.
Proof.
  intros Hs.
  destruct (base_name_of_stem dir1 stem Hs) as (-> & _).
  destruct (base_name_of_stem dir2 stem Hs) as (_ & -> & _). done.
Qed.

Lemma mesh_paths_ignore_directory_witness :
  MeshGenerator.base_name_of ("ward_a" +:+ "/" +:+ "scan" +:+ ".nii.gz") = "scan" ∧
  MeshGenerator.out_path_of "unity_assets"
    (MeshGenerator.base_name_of ("ward_a" +:+ "/" +:+ "scan" +:+ ".nii.gz")) 8
  = MeshGenerator.out_path_of "unity_assets"
      (MeshGenerator.base_name_of ("ward_b" +:+ "/" +:+ "scan" +:+ ".nii")) 8.
Proof.
  apply (mesh_paths_ignore_directory "ward_a" "ward_b" "scan" "unity_assets" 8).
  simpl. by repeat split.
Defined.

(** X21. The prediction for [<stem>.nii.gz] is named
    [<stem>_pred_pred.nii]: the second [replace] rewrites the [.nii] that the
    first one has just produced; for [<stem>.nii] the name is
    [<stem>_pred.nii].  The directory of the input does not enter the
    name. *)
Theorem output_name_doubles_suffix (dir stem : string) :
  plain stem →
  output_name_of (dir +:+ "/" +:+ stem +:+ ".nii.gz") = stem +:+ "_pred_pred.nii" ∧
  output_name_of (dir +:+ "/" +:+ stem +:+ ".nii") = stem +:+ "_pred.nii".
Proof.
  intros Hs. unfold output_name_of, replace_all.
  rewrite !basename_join by (by apply has_slash_plain_ext).
  rewrite !(replace_all_go_plain "nii.gz") by done.
  change (replace_all_go ".nii.gz" "_pred.nii" 0 ".nii.gz") with "_pred.nii".
  change (replace_all_go ".nii.gz" "_pred.nii" 0 ".nii") with ".nii".
  rewrite !(replace_all_go_plain "nii") by done.
  done.
Qed.

Lemma output_name_doubles_suffix_witness :
  output_name_of ("ward_a" +:+ "/" +:+ "scan" +:+ ".nii.gz") = "scan" +:+ "_pred_pred.nii" ∧
  output_name_of ("ward_a" +:+ "/" +:+ "scan" +:+ ".nii") = "scan" +:+ "_pred.nii".
Proof.
  apply (output_name_doubles_suffix "ward_a" "scan"). simpl. by repeat split.
Defined.

(** ** Delivery under any network behaviour *)

Lemma emits_ret {A} fs (a : A) : emits fs (mret a) [] (λ a', a' = a).
Proof.
  intros w r w' Hf [= <- <-]. split; [done|]. exists []. rewrite app_nil_r.
  split_and!; [done|done|]. by intros a' [= <-].
Qed.

Lemma emits_raise {A} fs e (Q : A → Prop) : emits fs (raise e) [] Q.
Proof.
  intros w r w' Hf [= <- <-]. split; [done|]. exists []. rewrite app_nil_r.
  split_and!; [done|done|]. by intros a' [=].
Qed.

Lemma emits_lift {A} fs (x : result A) : emits fs (lift x) [] (λ a, x = Ok a).
Proof.
  intros w r w' Hf [= <- <-]. split; [done|]. exists []. rewrite app_nil_r.
  split_and!; [done|done|]. by intros a' ->.
Qed.

Lemma emits_weaken {A} fs (m : M A) bs (Q Q' : A → Prop) :
  emits fs m bs Q → (∀ a, Q a → Q' a) → emits fs m bs Q'.
Proof.
  intros Hm HQ w r w' Hf Hrun. destruct (Hm w r w' Hf Hrun) as (F & sent & W & P & R).
  split; [done|]. exists sent. split_and!; [done..|].
  intros a Ha. destruct (R a Ha). auto.
Qed.

Lemma emits_bind {A B} fs (m : M A) (k : A → M B) bs1 bs2 Q Q' :
  emits fs m bs1 Q → (∀ a, Q a → emits fs (k a) bs2 Q') →
  emits fs (m ≫= k) (bs1 ++ bs2) Q'.
Proof.
  intros Hm Hk w r w' Hf. unfold mbind, M_bind, bind.
  destruct (m w) as [[a|e] w1] eqn:Hmw;
    destruct (Hm _ _ _ Hf Hmw) as (F1 & sent1 & W1 & P1 & R1).
  - intros Hkw. destruct (R1 a eq_refl) as [-> HQ].
    destruct (Hk a HQ _ _ _ F1 Hkw) as (F2 & sent2 & W2 & P2 & R2).
    split; [done|]. exists (bs1 ++ sent2).
    split_and!.
    + by rewrite W2, W1, <- (assoc_L (++)).
    + by apply prefix_app.
    + intros b Hb. destruct (R2 b Hb) as [-> ?]. done.
  - intros [= <- <-]. split; [done|]. exists sent1.
    split_and!; [done|by apply prefix_app_r|]. by intros b [=].
Qed.

Lemma emits_bind_r {A B} fs (m : M A) (k : A → M B) bs Q Q' :
  emits fs m bs Q → (∀ a, Q a → emits fs (k a) [] Q') →
  emits fs (m ≫= k) bs Q'.
Proof.
  intros Hm Hk. rewrite <- (app_nil_r bs). by eapply emits_bind.
Qed.

Lemma emits_log fs cb msg tag : emits fs (log cb msg tag) [] (λ _, True).
Proof.
  intros w r w' Hf. unfold log.
  destruct cb as [f|]; [destruct (f msg tag)|]; intros [= <- <-]; (split; [done|]);
    exists []; simpl; rewrite app_nil_r; by split_and!.
Qed.

Lemma emits_sendall fs data : emits fs (socket.sendall data) data (λ _, True).
Proof.
  intros w r w' Hf. unfold socket.sendall, mbind, M_bind, bind, next_outcome.
  destruct (script w) as [|[|e k] s]; simpl; intros [= <- <-]; (split; [done|]); simpl.
  - by exists data.
  - by exists data.
  - exists (take k data). split_and!; [done|apply prefix_take|by intros a [=]].
Qed.

Lemma emits_step fs :
  emits fs (o ← next_outcome;
            match o with IoDone => mret tt | IoFails e _ => raise e end) [] (λ _, True).
Proof.
  intros w r w' Hf. unfold mbind, M_bind, bind, next_outcome.
  destruct (script w) as [|[|e n] s]; simpl; intros [= <- <-]; (split; [done|]);
    exists []; simpl; rewrite app_nil_r; by split_and!.
Qed.

Lemma emits_read_file fs path :
  emits fs (read_file path) [] (λ data, fs !! path = Some data).
Proof.
  intros w r w' Hf. unfold read_file. rewrite Hf.
  destruct (fs !! path) as [c|]; intros [= <- <-]; (split; [done|]);
    exists []; rewrite app_nil_r; split_and!; try done.
  by intros a [= <-].
Qed.

Lemma emits_pack fs n :
  emits fs (lift (struct.pack_I n)) [] (λ bs, bs = be32 n).
Proof.
  eapply emits_weaken; [apply emits_lift|]. by intros bs [_ ->]%pack_I_Ok.
Qed.

Lemma emits_send_mesh fs label path c :
  fs !! path = Some c →
  emits fs (UnityClient.send_mesh (label, path)) (mesh_frame label c) (λ _, True).
Proof.
  intros Hc. unfold UnityClient.send_mesh, mesh_frame.
  change (be32 label ++ be32 (UnityClient.len c) ++ c)
    with ([] ++ be32 label ++ [] ++ [] ++ be32 (UnityClient.len c) ++ c).
  eapply emits_bind; [apply emits_pack|]. intros hdr ->.
  eapply emits_bind; [apply emits_sendall|]. intros _ _.
  eapply emits_bind; [apply emits_read_file|]. intros data Hdata.
  assert (data = c) as -> by congruence.
  eapply emits_bind; [apply emits_pack|]. intros sz ->.
  eapply emits_bind; [apply emits_sendall|]. intros _ _.
  apply emits_sendall.
Qed.

Lemma emits_for_each_send_mesh fs obj_files contents :
  Forall2 (λ (item : Z * string) c, fs !! item.2 = Some c) obj_files contents →
  emits fs (for_each obj_files UnityClient.send_mesh) (mesh_frames obj_files contents)
        (λ _, True).
Proof.
  induction 1 as [|[label path] c obj_files contents Hc _ IH].
  - eapply emits_weaken; [apply (emits_ret fs tt)|done].
  - cbn [for_each]. unfold mesh_frames. cbn [zip_with concat].
    eapply emits_bind; [by apply emits_send_mesh|]. intros _ _. exact IH.
Qed.

Lemma emits_unit {A} fs (m : M A) bs Q : emits fs m bs Q → emits fs m bs (λ _, True).
Proof. intros Hm. by eapply emits_weaken. Qed.

Lemma emits_settimeout fs t : emits fs (socket.settimeout t) [] (λ _, True).
Proof.
  unfold socket.settimeout. case_decide; [apply emits_raise|].
  eapply emits_unit, (emits_ret fs tt).
Qed.

Lemma emits_connect fs host port : emits fs (socket.connect host port) [] (λ _, True).
Proof.
  unfold socket.connect. case_decide; [apply emits_step|apply emits_raise].
Qed.

Lemma emits_close fs : emits fs socket.close [] (λ _, True).
Proof. apply emits_step. Qed.

Lemma emits_send_body `{JsonEncoder P} fs (self : UnityClient.t)
    (obj_files : list (Z * string)) (patient_data : P) cb json contents :
  json_dumps_utf8 patient_data = Ok json →
  Forall2 (λ (item : Z * string) c, fs !! item.2 = Some c) obj_files contents →
  emits fs (UnityClient.send_body self obj_files patient_data cb)
        (delivery_stream json obj_files contents) (λ b, b = true).
Proof.
  intros Hjson Hall. unfold UnityClient.send_body, delivery_stream.
  change (be32 (UnityClient.len json) ++ json ++
          be32 (UnityClient.len obj_files) ++ mesh_frames obj_files contents)
    with ([] ++ [] ++ [] ++ [] ++ [] ++ [] ++ be32 (UnityClient.len json) ++ json ++
          [] ++ [] ++ [] ++ be32 (UnityClient.len obj_files) ++
          mesh_frames obj_files contents).
  eapply emits_bind; [apply emits_settimeout|]. intros _ _.
  eapply emits_bind; [apply emits_connect|]. intros _ _.
  eapply emits_bind; [apply emits_log|]. intros _ _.
  eapply emits_bind; [apply emits_log|]. intros _ _.
  eapply emits_bind; [apply emits_lift|]. intros json_bytes Hj.
  assert (json_bytes = json) as -> by congruence.
  eapply emits_bind; [apply emits_pack|]. intros hdr ->.
  eapply emits_bind; [apply emits_sendall|]. intros _ _.
  eapply emits_bind; [apply emits_sendall|]. intros _ _.
  eapply emits_bind; [apply emits_log|]. intros _ _.
  eapply emits_bind; [apply emits_log|]. intros _ _.
  eapply emits_bind; [apply emits_pack|]. intros cnt ->.
  eapply emits_bind; [apply emits_sendall|]. intros _ _.
  eapply emits_bind_r; [by apply emits_for_each_send_mesh|]. intros _ _.
  change (@nil byte) with (@nil byte ++ @nil byte).
  eapply emits_bind; [apply emits_close|]. intros _ _.
  apply emits_ret.
Qed.

Lemma emits_send_handler fs cb e :
  emits fs (UnityClient.send_handler cb e) [] (λ b, b = false).
Proof.
  unfold UnityClient.send_handler.
  destruct e;
    repeat (first [ apply emits_ret
                  | change (@nil byte) with (@nil byte ++ @nil byte);
                    eapply emits_bind; [apply emits_log|]; intros _ _ ]).
Qed.

(** X22. Whatever the network and the log callback do, and however [send]
    ends, the bytes it has put on the wire are a prefix of the one stream it
    was asked to deliver (for a serialisable payload and existing mesh
    files); it answers [True] only when the whole stream went out. *)
Theorem send_never_garbles `{JsonEncoder P} (self : UnityClient.t)
    (obj_files : list (Z * string)) (patient_data : P)
    (log_callback : option callback) (json : list byte)
    (contents : list (list byte)) (w w' : world) (r : result bool) :
  json_dumps_utf8 patient_data = Ok json →
  Forall2 (λ item c, files w !! item.2 = Some c) obj_files contents →
  UnityClient.send self obj_files patient_data log_callback w = (r, w') →
  ∃ sent,
    wire w' = wire w ++ sent ∧
    sent `prefix_of` delivery_stream json obj_files contents ∧
    (r = Ok true → sent = delivery_stream json obj_files contents).
Proof.
  intros Hjson Hall. unfold UnityClient.send, try_except.
  destruct (UnityClient.send_body self obj_files patient_data log_callback w)
    as [[b|e] w1] eqn:Hbody;
    destruct (emits_send_body (files w) self obj_files patient_data log_callback json
                contents Hjson Hall w _ _ eq_refl Hbody) as (F1 & sent & W1 & P1 & R1).
  - intros [= <- <-]. exists sent. split_and!; [done..|].
    intros _. by destruct (R1 b eq_refl).
  - intros Hh.
    destruct (emits_send_handler (files w) log_callback e w1 _ _ F1 Hh)
      as (_ & sent' & W' & ->%prefix_nil_inv & R').
    exists sent. rewrite W', app_nil_r. split_and!; [done..|].
    intros ->. by destruct (R' true eq_refl).
Qed.

Lemma send_never_garbles_witness :
  ∃ w' sent,
    UnityClient.send UnityClient.__init__ [(8, "unity_assets/scan_seg_liver.obj")]
      liver_payload (Some open_log) flaky_world = (Ok false, w') ∧
    wire w' = sent ∧ length sent = 9%nat ∧
    sent `prefix_of` delivery_stream (String.list_byte_of_string (dumps liver_payload))
                       [(8, "unity_assets/scan_seg_liver.obj")] [[x6f]].
Proof.
  pose (run := UnityClient.send UnityClient.__init__
                 [(8, "unity_assets/scan_seg_liver.obj")] liver_payload (Some open_log)
                 flaky_world).
  assert (Hrun : run = (Ok false, run.2)) by (vm_compute; reflexivity).
  destruct (send_never_garbles UnityClient.__init__
              [(8, "unity_assets/scan_seg_liver.obj")] liver_payload (Some open_log)
              (String.list_byte_of_string (dumps liver_payload)) [[x6f]]
              flaky_world run.2 (Ok false) eq_refl) as (sent & Hwire & Hpre & _).
  - repeat constructor.
  - exact Hrun.
  - exists run.2, sent. split; [exact Hrun|]. split; [exact Hwire|]. split; [|exact Hpre].
    change (wire run.2 = sent) in Hwire. rewrite <- Hwire. vm_compute. reflexivity.
Defined.

(** ** The index file *)

Lemma save_write `{Md5} `{JsonDump (gmap string pydict)} self image_path
    result content d w :
  files w !! image_path = Some content →
  heap w !! result = Some d →
  ∃ w1,
    heap w1 = <[result := <["timestamp" := PyStr (current_time w)]> d]> (heap w) ∧
    index w1 = <[md5_hexdigest content := result]> (index w) ∧
    files w1 = files w ∧
    PredictionCache.save self image_path result w
    = write_file (PredictionCache.cache_file self)
        (json_dump (PredictionCache.resolve (heap w1) (index w1))) w1.
Proof.
  intros Hf Hh. unfold PredictionCache.save.
  rewrite (bind_run _ _ _ _ _ (get_hash_Ok _ _ _ Hf)).
  assert (Hnow : ∃ w1, datetime_now_isoformat w = (Ok (current_time w), w1) ∧
            heap w1 = heap w ∧ index w1 = index w ∧ files w1 = files w).
  { unfold datetime_now_isoformat, current_time. destruct (clock w); eauto. }
  destruct Hnow as (w1 & Hnow & Hh1 & Hi1 & Hf1).
  rewrite (bind_run _ _ _ _ _ Hnow).
  erewrite bind_run; last first.
  { unfold setitem. erewrite bind_run; [|unfold deref; by rewrite Hh1, Hh].
    reflexivity. }
  erewrite bind_run; [|reflexivity].
  erewrite bind_run; [|reflexivity].
  erewrite bind_run; [|reflexivity].
  erewrite bind_run; [|reflexivity].
  eexists. split_and!; [| | |reflexivity]; simpl; by rewrite ?Hh1, ?Hi1.
Qed.

(** X23. What [save] leaves on disk: the entry is in the in-memory index
    however [save] ends; when it returns, the index file holds the complete
    dump of the current index (every entry with its current contents);
    when it raises, either the index file could not be opened and no file
    has changed, or the dump itself raised and the index file holds what
    had been written until then. *)
Theorem save_persists_index `{Md5} `{JsonDump (gmap string pydict)}
    (self : PredictionCache.t) (r : result unit) (image_path : string) (result : loc)
    (content : list byte) (d : pydict) (w w' : world) :
  files w !! image_path = Some content →
  heap w !! result = Some d →
  PredictionCache.save self image_path result w = (r, w') →
  let dump := json_dump (PredictionCache.resolve (heap w') (index w')) in
  index w' !! md5_hexdigest content = Some result ∧
  (r = Ok tt →
     dump.2 = None ∧ files w' !! PredictionCache.cache_file self = Some dump.1) ∧
  (∀ e, r = Raise e →
     files w' = files w ∨
     dump.2 = Some e ∧ files w' !! PredictionCache.cache_file self = Some dump.1).
Proof.
  intros Hf Hh Hsave.
  destruct (save_write self image_path result content d w Hf Hh)
    as (w1 & Hh1 & Hi1 & Hf1 & Hrun).
  rewrite Hsave in Hrun. symmetry in Hrun. unfold write_file in Hrun.
  destruct (next_outcome_total w1) as (o & w2 & Ho & _).
  assert (H2 : files w2 = files w1 ∧ heap w2 = heap w1 ∧ index w2 = index w1).
  { unfold next_outcome in Ho. destruct (script w1); by injection Ho as <- <-. }
  destruct H2 as (F2 & H2 & I2).
  rewrite (bind_run _ _ _ _ _ Ho) in Hrun. destruct o as [|e k].
  - unfold store_file in Hrun.
    destruct (json_dump (PredictionCache.resolve (heap w1) (index w1)))
      as [out [e|]] eqn:Hdump; simpl in Hrun; injection Hrun as <- <-; simpl;
      rewrite H2, I2, Hdump; simpl.
    + split_and!; [by rewrite Hi1, lookup_insert_eq|done|].
      intros e' [= <-]. right. by rewrite lookup_insert_eq.
    + split_and!; [by rewrite Hi1, lookup_insert_eq| |done].
      intros _. by rewrite lookup_insert_eq.
  - injection Hrun as <- <-. simpl.
    split_and!; [by rewrite I2, Hi1, lookup_insert_eq|done|].
    intros e' _. left. by rewrite F2.
Qed.

Lemma save_persists_index_witness :
  ∃ w',
    PredictionCache.save (H := length_digest) (H0 := blank_dump)
      the_cache "scan.nii.gz" O disk_world = (Ok tt, w') ∧
    index w' !! "3" = Some O ∧
    files w' !! "prediction_cache/cache_index.json" = Some [].
Proof.
  pose (run := PredictionCache.save (H := length_digest) (H0 := blank_dump)
                 the_cache "scan.nii.gz" O disk_world).
  assert (Hrun : run = (Ok tt, run.2)) by (vm_compute; reflexivity).
  destruct (save_persists_index (H := length_digest) (H0 := blank_dump) the_cache
              (Ok tt) "scan.nii.gz" O [x01; x02; x03] liver_entry disk_world run.2
              eq_refl eq_refl Hrun) as (Hix & Hok & _).
  exists run.2. split; [exact Hrun|]. split; [exact Hix|].
  exact (proj2 (Hok eq_refl)).
Defined.
